(** * A shallow embedding of [ArrowFragmentLoader]
    (modules/graph/loader/arrow_fragment_loader.h of libvineyard).

    The model covers the parts of the loader that decide the properties
    checked below: schema reconciliation ([TypeLoosen], [SyncSchema],
    [CastTableToSchema] and the two element casts), the acquisition of edge
    tables ([loadEdgeTables], [loadEVTablesFromEFiles]) with the loader's
    label maps as explicit state, the label-to-index checks of
    [shuffleAndBuild], and the gather/broadcast of [constructFragmentGroup].

    Modelling choices:
    - [boost::leaf::result<T>] is [result T]; an error carries the
      [ErrorCode] of [RETURN_GS_ERROR], or is a failed [CHECK_OR_RAISE], or
      marks an access the C++ code leaves undefined (an index out of range);
    - Arrow data types, fields and schemas are inductive types and records;
      a schema is its list of fields (schema-level metadata is kept with the
      table, [Schema::Equals] ignores it by default);
    - an [int64]/[timestamp] array holds its values buffer as a list of [Z],
      a [double] array a list of primitive floats;
    - a C++ [std::map<std::string, T>] is an association list, a
      [std::set<std::string>] a strictly sorted list of strings. *)

From Stdlib Require Import ZArith List String Ascii Bool Lia Permutation Sorting.Sorted.
From Stdlib Require Import Floats Uint63.
Import ListNotations.
Open Scope string_scope.
Open Scope Z_scope.

(** ** Results and errors *)

(** The subset of [vineyard::ErrorCode] raised by the loader. *)
Inductive ErrorCode : Set :=
| kIOError
| kArrowError
| kVineyardError
| kDataTypeError
| kInvalidValueError
| kInvalidOperationError.

Inductive Error : Set :=
| GSError (code : ErrorCode) (msg : string)
| CheckFailed (cond : string)
| UndefinedBehaviour (what : string)
| PyTypeError (msg : string).

Inductive result (A : Type) : Type :=
| Ok (a : A)
| Err (e : Error).
Arguments Ok {A} a.
Arguments Err {A} e.

Definition rbind {A B} (m : result A) (k : A -> result B) : result B :=
  match m with
  | Ok a => k a
  | Err e => Err e
  end.

Declare Scope result_scope.
Notation "x <- m ;; k" := (rbind m (fun x => k))
  (at level 61, m at next level, right associativity) : result_scope.
Open Scope result_scope.

Fixpoint mapM {A B} (f : A -> result B) (l : list A) : result (list B) :=
  match l with
  | [] => Ok []
  | x :: xs => y <- f x;; ys <- mapM f xs;; Ok (y :: ys)
  end.

Definition is_ok {A} (r : result A) : bool :=
  match r with Ok _ => true | Err _ => false end.

(** ** Arrow data types, fields and schemas *)

Inductive TimeUnit : Set := SECOND | MILLI | MICRO | NANO.

Inductive DataType : Set :=
| null_t
| boolean
| int32
| int64
| float64
| utf8
| binary
| timestamp (u : TimeUnit).

Definition DataType_eq_dec (a b : DataType) : {a = b} + {a <> b}.
Proof. decide equality; decide equality. Defined.

(** [DataType::Equals] *)
Definition Equals (a b : DataType) : bool :=
  if DataType_eq_dec a b then true else false.

(** [DataType::ToString] *)
Definition ToString (t : DataType) : string :=
  match t with
  | null_t => "null"
  | boolean => "bool"
  | int32 => "int32"
  | int64 => "int64"
  | float64 => "double"
  | utf8 => "string"
  | binary => "binary"
  | timestamp SECOND => "timestamp[s]"
  | timestamp MILLI => "timestamp[ms]"
  | timestamp MICRO => "timestamp[us]"
  | timestamp NANO => "timestamp[ns]"
  end.

Record Field : Set := mkField {
  fname : string;
  ftype : DataType;
  fnullable : bool
}.

Definition Field_eq_dec (a b : Field) : {a = b} + {a <> b}.
Proof.
  decide equality; [apply bool_dec | apply DataType_eq_dec | apply string_dec].
Defined.

(** [Field::WithType]: same name and nullability, new type. *)
Definition WithType (f : Field) (t : DataType) : Field :=
  {| fname := fname f; ftype := t; fnullable := fnullable f |}.

Definition Schema : Set := list Field.

Definition Schema_eq_dec (a b : Schema) : {a = b} + {a <> b} :=
  list_eq_dec Field_eq_dec a b.

(** [Schema::Equals] (metadata not compared, the Arrow default). *)
Definition SchemaEquals (a b : Schema) : bool :=
  if Schema_eq_dec a b then true else false.

(** [schema->field(i)]: out of range is undefined in C++. *)
Definition field (s : Schema) (i : nat) : result Field :=
  match nth_error s i with
  | Some f => Ok f
  | None => Err (UndefinedBehaviour "Schema::field index out of range")
  end.

(** ** Arrays, chunked arrays and tables *)

Inductive ArrayData : Type :=
| IntData (vs : list Z)
| DoubleData (vs : list float)
| StrData (vs : list string)
| OtherData (len : nat).

Record Array : Type := mkArray {
  atype : DataType;
  adata : ArrayData
}.

Record ChunkedArray : Type := mkChunked {
  ctype : DataType;
  chunks : list Array
}.

Record Table : Type := mkTable {
  tschema : Schema;
  tmeta : list (string * string);
  tcolumns : list ChunkedArray
}.

Definition array_length (a : Array) : nat :=
  match adata a with
  | IntData vs => List.length vs
  | DoubleData vs => List.length vs
  | StrData vs => List.length vs
  | OtherData n => n
  end.

Definition column_length (c : ChunkedArray) : nat :=
  fold_right (fun a n => (array_length a + n)%nat) 0%nat (chunks c).

(** [table->num_rows()] is the length of any column, zero without columns. *)
Definition num_rows (t : Table) : nat :=
  match tcolumns t with
  | [] => 0%nat
  | c :: _ => column_length c
  end.

(** [static_cast<double>(int64_t)]: round to nearest, ties to even. *)
Definition int64_to_double (z : Z) : float :=
  if z =? - 2 ^ 63 then PrimFloat.opp (2 * PrimFloat.of_uint63 (Uint63.of_Z (2 ^ 62)))%float
  else if z <? 0 then PrimFloat.opp (PrimFloat.of_uint63 (Uint63.of_Z (- z)))
  else PrimFloat.of_uint63 (Uint63.of_Z z).

(** The integer a double denotes, when it denotes one. *)
Definition double_Z_value (f : float) : option Z :=
  match FloatOps.Prim2SF f with
  | SpecFloat.S754_zero _ => Some 0
  | SpecFloat.S754_finite s m e =>
      let v := if e >=? 0 then Some (Z.pos m * 2 ^ e)
               else if Z.pos m mod 2 ^ (- e) =? 0 then Some (Z.pos m / 2 ^ (- e))
               else None in
      if s then option_map Z.opp v else v
  | _ => None
  end.

(** ** Schema reconciliation *)

Fixpoint first_nonnull (schemas : list (option Schema)) : option Schema :=
  match schemas with
  | [] => None
  | Some s :: _ => Some s
  | None :: rest => first_nonnull rest
  end.

Fixpoint nonnull (schemas : list (option Schema)) : list Schema :=
  match schemas with
  | [] => []
  | Some s :: rest => s :: nonnull rest
  | None :: rest => nonnull rest
  end.

(** The per-column loop of [TypeLoosen], on the types of [fields[i]]:
    timestamp -> int64 -> double -> utf8. *)
Definition loosen_column (ts : list DataType) : DataType :=
  match ts with
  | [] => null_t
  | t0 :: rest =>
      let res := if Equals t0 (timestamp SECOND) then int64 else t0 in
      let res := if Equals res int64
                 then fold_left (fun r t => if Equals t float64 then float64 else r) rest res
                 else res in
      let res := if Equals res float64
                 then fold_left (fun r t => if Equals t utf8 then utf8 else r) rest res
                 else res in
      res
  end.

Definition lossen_field (col : list Field) : result Field :=
  match col with
  | [] => Err (UndefinedBehaviour "fields[i][0] of an empty vector")
  | f0 :: _ => Ok (WithType f0 (loosen_column (map ftype col)))
  end.

Definition TypeLoosen (schemas : list (option Schema)) : result Schema :=
  let field_num := match first_nonnull schemas with
                   | Some s => List.length s
                   | None => 0%nat
                   end in
  if (field_num =? 0)%nat
  then Err (GSError kInvalidOperationError "Every schema is empty")
  else
    fields <- mapM (fun i => mapM (fun s => field s i) (nonnull schemas))
                   (seq 0 field_num);;
    mapM lossen_field fields.

(** [CastIntToDouble] *)
Definition CastIntToDouble (a : Array) (to_type : DataType) : result Array :=
  if negb (Equals (atype a) int64)
  then Err (CheckFailed "in->type()->Equals(arrow::int64())")
  else if negb (Equals to_type float64)
  then Err (CheckFailed "to_type->Equals(arrow::float64())")
  else match adata a with
       | IntData vs => Ok (mkArray float64 (DoubleData (map int64_to_double vs)))
       | _ => Err (UndefinedBehaviour "int64 array without an int64 buffer")
       end.

(** [CastDateToInt]: the same buffers, retyped. *)
Definition CastDateToInt (a : Array) (to_type : DataType) : result Array :=
  if negb (Equals (atype a) (timestamp SECOND))
  then Err (CheckFailed "in->type()->Equals(arrow::timestamp(SECOND))")
  else if negb (Equals to_type int64)
  then Err (CheckFailed "to_type->Equals(arrow::int64())")
  else Ok (mkArray to_type (adata a)).

Definition cast_chunk (from_type to_type : DataType) (a : Array) : result Array :=
  if Equals from_type int64 && Equals to_type float64
  then CastIntToDouble a to_type
  else if Equals from_type (timestamp SECOND) && Equals to_type int64
  then CastDateToInt a to_type
  else Err (GSError kDataTypeError
              ("Unexpected type: " ++ ToString to_type ++
               "; Origin type: " ++ ToString from_type)).

Definition cast_column (t : Table) (schema : Schema) (i : nat) : result ChunkedArray :=
  match nth_error (tcolumns t) i with
  | None => Err (UndefinedBehaviour "Table::column index out of range")
  | Some col =>
      tf <- field (tschema t) i;;
      sf <- field schema i;;
      if negb (Equals (ftype tf) (ftype sf))
      then let from_type := ftype tf in
           let to_type := ftype sf in
           cs <- mapM (cast_chunk from_type to_type) (chunks col);;
           Ok (mkChunked to_type cs)
      else Ok col
  end.

Definition CastTableToSchema (t : Table) (schema : Schema) : result Table :=
  if SchemaEquals (tschema t) schema then Ok t
  else if negb (List.length (tcolumns t) =? List.length schema)%nat
  then Err (CheckFailed "table->num_columns() == schema->num_fields()")
  else
    new_columns <- mapM (cast_column t schema) (seq 0 (List.length (tcolumns t)));;
    Ok (mkTable schema [] new_columns).

Definition empty_data (t : DataType) : ArrayData :=
  match t with
  | int64 | timestamp _ => IntData []
  | float64 => DoubleData []
  | utf8 => StrData []
  | _ => OtherData 0
  end.

(** Modelled from the spec: [vineyard::EmptyTableBuilder::Build] (basic
    module, not in this file): a table with zero rows and the given schema,
    one empty column of each field's type. *)
Definition EmptyTableBuilder_Build (schema : Schema) : result Table :=
  Ok (mkTable schema []
        (map (fun f => mkChunked (ftype f) [mkArray (ftype f) (empty_data (ftype f))])
             schema)).

(** [SyncSchema] after its [GlobalAllGatherv]: [schemas] is the gathered
    list, in rank order, of every worker's local schema ([None] for a
    worker whose local table is [nullptr]). *)
Definition SyncSchema (table : option Table) (schemas : list (option Schema))
  : result Table :=
  normalized_schema <- TypeLoosen schemas;;
  match table with
  | None => EmptyTableBuilder_Build normalized_schema
  | Some t => CastTableToSchema t normalized_schema
  end.

(** [GlobalAllGatherv] of the local schemas: every worker receives the list
    of all local schemas in rank order. *)
Definition GlobalAllGatherv (tables : list (option Table)) : list (option Schema) :=
  map (option_map tschema) tables.

(** The whole worker group running [SyncSchema] on its local tables. *)
Definition SyncSchema_group (tables : list (option Table)) : list (result Table) :=
  map (fun t => SyncSchema t (GlobalAllGatherv tables)) tables.


(** ** Strings, maps and sets of the loader *)

(** [std::to_string] on an integer. *)
Fixpoint digits_aux (fuel : nat) (n : Z) (acc : string) : string :=
  match fuel with
  | O => acc
  | S f =>
      let acc' := String (ascii_of_nat (48 + Z.to_nat (n mod 10))) acc in
      if n <? 10 then acc' else digits_aux f (n / 10) acc'
  end.

Definition to_string (z : Z) : string :=
  if z <? 0 then "-" ++ digits_aux 20 (- z) EmptyString else digits_aux 20 z EmptyString.

(** [std::map<std::string, V>]: an association list sorted by key. *)
Fixpoint map_find {V} (k : string) (m : list (string * V)) : option V :=
  match m with
  | [] => None
  | (k', v) :: rest => if String.eqb k k' then Some v else map_find k rest
  end.

(** [m[k] = v] *)
Fixpoint map_set {V} (k : string) (v : V) (m : list (string * V)) : list (string * V) :=
  match m with
  | [] => [(k, v)]
  | (k', v') :: rest =>
      match String.compare k k' with
      | Lt => (k, v) :: m
      | Eq => (k, v) :: rest
      | Gt => (k', v') :: map_set k v rest
      end
  end.

(** [std::set<std::string>::insert]: a strictly sorted list. *)
Fixpoint set_insert (x : string) (s : list string) : list string :=
  match s with
  | [] => [x]
  | y :: rest =>
      match String.compare x y with
      | Lt => x :: s
      | Eq => s
      | Gt => y :: set_insert x rest
      end
  end.

Definition pair_compare (p q : string * string) : comparison :=
  match String.compare (fst p) (fst q) with
  | Eq => String.compare (snd p) (snd q)
  | c => c
  end.

(** [std::set<std::pair<std::string, std::string>>::insert] *)
Fixpoint pair_set_insert (x : string * string) (s : list (string * string))
  : list (string * string) :=
  match s with
  | [] => [x]
  | y :: rest =>
      match pair_compare x y with
      | Lt => x :: s
      | Eq => s
      | Gt => y :: pair_set_insert x rest
      end
  end.

(** ** Sources and the loader's state *)

(** One edge (or vertex) sub-source: its path and the key/value metadata its
    [LocalIOAdaptor::GetMeta] returns (the [#k=v&...] suffix of the path).
    An [efiles] entry is the list of its [;]-separated sub-sources. *)
Record SubSource : Set := mkSub {
  sub_path : string;
  sub_meta : list (string * string)
}.

Definition LABEL_TAG : string := "label".
Definition SRC_LABEL_TAG : string := "src_label".
Definition DST_LABEL_TAG : string := "dst_label".

(** Metadata keys of [BasicArrowFragmentLoader] (declared outside this file). *)
Definition ID_COLUMN : string := "ID_COLUMN".
Definition SRC_COLUMN : string := "SRC_COLUMN".
Definition DST_COLUMN : string := "DST_COLUMN".
Definition SRC_LABEL_ID : string := "SRC_LABEL_ID".
Definition DST_LABEL_ID : string := "DST_LABEL_ID".

Definition id_column : Z := 0.
Definition src_column : Z := 0.
Definition dst_column : Z := 1.

Fixpoint meta_find (k : string) (meta : list (string * string)) : option string :=
  match meta with
  | [] => None
  | (k', v) :: rest => if String.eqb k k' then Some v else meta_find k rest
  end.

(** A collective step of the worker group, as the trace records it. *)
Inductive Collective : Set :=
| CollRead (path : string)
| CollSchema (path : string).

(** The members of [ArrowFragmentLoader] that table acquisition mutates,
    and the trace of collective steps this worker has entered. *)
Record LoaderState : Set := mkLoaderState {
  vertex_label_to_index_ : list (string * Z);
  edge_label_to_index_ : list (string * Z);
  edge_vertex_label_ : list (string * list (string * string));
  vertex_label_num_ : Z;
  trace : list Collective
}.

Definition set_vertex_labels (m : list (string * Z)) (n : Z) (st : LoaderState) :=
  {| vertex_label_to_index_ := m; edge_label_to_index_ := edge_label_to_index_ st;
     edge_vertex_label_ := edge_vertex_label_ st; vertex_label_num_ := n;
     trace := trace st |}.

Definition set_edge_label_to_index (m : list (string * Z)) (st : LoaderState) :=
  {| vertex_label_to_index_ := vertex_label_to_index_ st; edge_label_to_index_ := m;
     edge_vertex_label_ := edge_vertex_label_ st;
     vertex_label_num_ := vertex_label_num_ st; trace := trace st |}.

Definition set_edge_vertex_label (m : list (string * list (string * string)))
  (st : LoaderState) :=
  {| vertex_label_to_index_ := vertex_label_to_index_ st;
     edge_label_to_index_ := edge_label_to_index_ st; edge_vertex_label_ := m;
     vertex_label_num_ := vertex_label_num_ st; trace := trace st |}.

Definition log (c : Collective) (st : LoaderState) :=
  {| vertex_label_to_index_ := vertex_label_to_index_ st;
     edge_label_to_index_ := edge_label_to_index_ st;
     edge_vertex_label_ := edge_vertex_label_ st;
     vertex_label_num_ := vertex_label_num_ st; trace := app (trace st) [c] |}.

(** ** The loader monad: state passing with early return. The state
    reached before an error is kept, so the trace shows what ran. *)

Definition M (A : Type) : Type := LoaderState -> result A * LoaderState.

Definition mret {A} (a : A) : M A := fun st => (Ok a, st).

Definition mbind {A B} (m : M A) (k : A -> M B) : M B :=
  fun st => match m st with
            | (Ok a, st') => k a st'
            | (Err e, st') => (Err e, st')
            end.

Definition raise {A} (e : Error) : M A := fun st => (Err e, st).
Definition lift {A} (r : result A) : M A := fun st => (r, st).
Definition modify (f : LoaderState -> LoaderState) : M unit := fun st => (Ok tt, f st).

Notation "'let*' x ':=' m 'in' k" := (mbind m (fun x => k))
  (at level 200, x name, m at level 100, k at level 200).
Notation "'let*' ' p ':=' m 'in' k" :=
  (mbind m (fun x => match x with p => k end))
  (at level 200, p pattern, m at level 100, k at level 200).

(** Modelled from the spec: [sync_gs_error] (graph/utils/error.h, not in this
    file), the synchronised error wrapper: the worker runs the procedure,
    then the whole group agrees on success or failure. [r] is the outcome
    this worker observes after that collective step. *)
Definition sync_gs_error {A} (c : Collective) (r : result A) : M A :=
  fun st => (r, log c st).

Definition require_meta (k : string) (meta : list (string * string)) (msg : string)
  : M string :=
  match meta_find k meta with
  | Some v => mret v
  | None => raise (GSError kIOError msg)
  end.

(** [vertex_label_to_index_.at(name)]: the [std::out_of_range] it throws is
    caught by the enclosing [catch] and returned as [kIOError]. *)
Definition vertex_label_at (name : string) : M Z :=
  fun st => match map_find name (vertex_label_to_index_ st) with
            | Some v => (Ok v, st)
            | None => (Err (GSError kIOError "map::at"), st)
            end.

Definition add_edge_vertex_label (edge_label src dst : string) : M unit :=
  modify (fun st =>
    let m := edge_vertex_label_ st in
    let pairs := match map_find edge_label m with Some p => p | None => [] end in
    set_edge_vertex_label (map_set edge_label (pair_set_insert (src, dst) pairs) m) st).

(** [table->ReplaceSchemaMetadata(meta)] *)
Definition ReplaceSchemaMetadata (t : Table) (meta : list (string * string)) : Table :=
  {| tschema := tschema t; tmeta := meta; tcolumns := tcolumns t |}.

Definition edge_meta (sub_label_num : nat) (label : string) (src_id dst_id : Z)
  : list (string * string) :=
  [("type", "EDGE"); (SRC_COLUMN, to_string src_column);
   (DST_COLUMN, to_string dst_column);
   ("sub_label_num", to_string (Z.of_nat sub_label_num)); ("label", label);
   (SRC_LABEL_ID, to_string src_id); (DST_LABEL_ID, to_string dst_id)].

(** Modelled from the spec: [OidSet<oid_t>] (basic_arrow_fragment_loader.h,
    not in this file), the per-vertex-label deduplicating set of OIDs
    ([oid_t] = [int64_t]). *)
Definition OidSet : Set := list Z.

Definition oidset_insert (o : Z) (s : OidSet) : OidSet :=
  if existsb (Z.eqb o) s then s else app s [o].

Definition BatchInsert (col : ChunkedArray) (s : OidSet) : result OidSet :=
  fold_left (fun acc a =>
               s' <- acc;;
               match a with
               | {| atype := int64; adata := IntData vs |} => Ok (fold_left (fun s0 o => oidset_insert o s0) vs s')
               | _ => Err (UndefinedBehaviour "chunk is not an oid array")
               end)
            (chunks col) (Ok s).

Definition ToArrowArray (s : OidSet) : result Array := Ok (mkArray int64 (IntData s)).

(** [table->column(i)] *)
Definition column (t : Table) (i : Z) : M ChunkedArray :=
  match nth_error (tcolumns t) (Z.to_nat i) with
  | Some c => mret c
  | None => raise (UndefinedBehaviour "Table::column index out of range")
  end.

Fixpoint update_nth {A} (n : nat) (x : A) (l : list A) : list A :=
  match l, n with
  | [], _ => []
  | _ :: rest, O => x :: rest
  | y :: rest, S n' => y :: update_nth n' x rest
  end.

(** [oids[label_id].BatchInsert(col)] *)
Definition oids_batch_insert (oids : list OidSet) (label_id : Z) (col : ChunkedArray)
  : M (list OidSet) :=
  match nth_error oids (Z.to_nat label_id) with
  | None => raise (UndefinedBehaviour "oids index out of range")
  | Some s =>
      let* s' := lift (BatchInsert col s) in
      mret (update_nth (Z.to_nat label_id) s' oids)
  end.

Section Acquisition.

(** The outcomes this worker observes, after [sync_gs_error], of the partial
    read of a sub-source and of [SyncSchema] on the table read. *)
Variable read_procedure : SubSource -> result (option Table).
Variable sync_schema_procedure : SubSource -> option Table -> result Table.

(** The partial read and the schema synchronisation of one sub-source, each
    wrapped in [sync_gs_error]. *)
Definition acquire (sub : SubSource) : M Table :=
  let* table := sync_gs_error (CollRead (sub_path sub)) (read_procedure sub) in
  sync_gs_error (CollSchema (sub_path sub)) (sync_schema_procedure sub table).

(** *** [loadEdgeTables] *)

Fixpoint load_edge_subs (label_id : Z) (sub_label_num : nat) (subs : list SubSource)
  : M (list Table) :=
  match subs with
  | [] => mret []
  | sub :: rest =>
      let* normalized_table := acquire sub in
      let adaptor_meta := sub_meta sub in
      let* edge_label_name := require_meta LABEL_TAG adaptor_meta
           "Metadata of input edge files should contain label name" in
      let* src_label_name := require_meta SRC_LABEL_TAG adaptor_meta
           "Metadata of input edge files should contain src label name" in
      let* src_label_id := vertex_label_at src_label_name in
      let* dst_label_name := require_meta DST_LABEL_TAG adaptor_meta
           "Metadata of input edge files should contain dst label name" in
      let* dst_label_id := vertex_label_at dst_label_name in
      let table := ReplaceSchemaMetadata normalized_table
                     (edge_meta sub_label_num edge_label_name src_label_id dst_label_id) in
      let* _ := add_edge_vertex_label edge_label_name src_label_name dst_label_name in
      let* _ := modify (fun st => set_edge_label_to_index
                          (map_set edge_label_name label_id (edge_label_to_index_ st)) st) in
      let* tables := load_edge_subs label_id sub_label_num rest in
      mret (table :: tables)
  end.

Fixpoint load_edge_files (label_id : Z) (files : list (list SubSource))
  : M (list (list Table)) :=
  match files with
  | [] => mret []
  | subs :: rest =>
      let* tables := load_edge_subs label_id (List.length subs) subs in
      let* others := load_edge_files (label_id + 1) rest in
      mret (tables :: others)
  end.

Definition loadEdgeTables (files : list (list SubSource)) : M (list (list Table)) :=
  load_edge_files 0 files.

(** *** [loadEVTablesFromEFiles] (no vertex sources) *)

(** The metadata-only scan: every sub-source must name both endpoint labels. *)
Fixpoint discover_subs (subs : list SubSource) (acc : list string) : result (list string) :=
  match subs with
  | [] => Ok acc
  | sub :: rest =>
      match meta_find SRC_LABEL_TAG (sub_meta sub), meta_find DST_LABEL_TAG (sub_meta sub) with
      | Some s, Some d => discover_subs rest (set_insert d (set_insert s acc))
      | _, _ => Err (GSError kIOError "Metadata of input edge files should contain label name")
      end
  end.

Fixpoint discover_files (efiles : list (list SubSource)) (acc : list string)
  : result (list string) :=
  match efiles with
  | [] => Ok acc
  | subs :: rest => acc' <- discover_subs subs acc;; discover_files rest acc'
  end.

(** Label ids in the iteration order of the name set. *)
Fixpoint number_labels (names : list string) (i : Z) (m : list (string * Z))
  : list (string * Z) :=
  match names with
  | [] => m
  | n :: rest => number_labels rest (i + 1) (map_set n i m)
  end.

(** The consistency check of [edge_label_to_index_]. *)
Definition check_edge_label (name : string) (e_label_id : Z) : M unit :=
  fun st =>
    match map_find name (edge_label_to_index_ st) with
    | None => (Ok tt, set_edge_label_to_index
                        (map_set name e_label_id (edge_label_to_index_ st)) st)
    | Some v =>
        if v =? e_label_id then (Ok tt, st)
        else (Err (GSError kInvalidValueError
                     ("Edge label is not consistent, " ++ name ++ ": " ++
                      to_string e_label_id ++ " vs " ++ to_string v)), st)
    end.

Fixpoint ev_load_subs (e_label_id : Z) (sub_label_num : nat) (subs : list SubSource)
  (oids : list OidSet) : M (list Table * list OidSet) :=
  match subs with
  | [] => mret ([], oids)
  | sub :: rest =>
      let* normalized_table := acquire sub in
      let adaptor_meta := sub_meta sub in
      let* edge_label_name := require_meta LABEL_TAG adaptor_meta
           "Metadata of input edge files should contain label name" in
      let* src_label_name := require_meta SRC_LABEL_TAG adaptor_meta
           "Metadata of input edge files should contain src label name" in
      let* src_label_id := vertex_label_at src_label_name in
      let* dst_label_name := require_meta DST_LABEL_TAG adaptor_meta
           "Metadata of input edge files should contain dst label name" in
      let* dst_label_id := vertex_label_at dst_label_name in
      let e_table := ReplaceSchemaMetadata normalized_table
                       (edge_meta sub_label_num edge_label_name src_label_id dst_label_id) in
      let* _ := add_edge_vertex_label edge_label_name src_label_name dst_label_name in
      let* _ := check_edge_label edge_label_name e_label_id in
      let* src_col := column e_table src_column in
      let* oids1 := oids_batch_insert oids src_label_id src_col in
      let* dst_col := column e_table dst_column in
      let* oids2 := oids_batch_insert oids1 dst_label_id dst_col in
      let* '(tables, oids3) := ev_load_subs e_label_id sub_label_num rest oids2 in
      mret (e_table :: tables, oids3)
  end.

Fixpoint ev_load_files (e_label_id : Z) (efiles : list (list SubSource))
  (oids : list OidSet) : M (list (list Table) * list OidSet) :=
  match efiles with
  | [] => mret ([], oids)
  | subs :: rest =>
      let* '(tables, oids1) := ev_load_subs e_label_id (List.length subs) subs oids in
      let* '(others, oids2) := ev_load_files (e_label_id + 1) rest oids1 in
      mret (tables :: others, oids2)
  end.

(** The synthetic single-column vertex table of one label. *)
Definition vertex_table (label_name : string) (v_label_id : Z) (oid_array : Array) : Table :=
  {| tschema := [mkField label_name int64 true];
     tmeta := [("type", "VERTEX"); ("label_index", to_string v_label_id);
               ("label", label_name); (ID_COLUMN, to_string id_column)];
     tcolumns := [mkChunked int64 [oid_array]] |}.

Fixpoint build_vtables (names : list string) (oids : list OidSet) (v_label_id : Z)
  : result (list Table) :=
  match names, oids with
  | [], _ => Ok []
  | n :: rest, s :: oids' =>
      oid_array <- ToArrowArray s;;
      vs <- build_vtables rest oids' (v_label_id + 1);;
      Ok (vertex_table n v_label_id oid_array :: vs)
  | _ :: _, [] => Err (UndefinedBehaviour "oids index out of range")
  end.

(** [edge_label_num_] is [efiles.size()] for a loader built from files. *)
Definition loadEVTablesFromEFiles (efiles : list (list SubSource))
  : M (list Table * list (list Table)) :=
  let* vertex_label_names := lift (discover_files efiles []) in
  let* _ := modify (fun st =>
              set_vertex_labels (number_labels vertex_label_names 0 (vertex_label_to_index_ st))
                                (Z.of_nat (List.length vertex_label_names)) st) in
  let* '(etables, oids) :=
    ev_load_files 0 efiles (repeat [] (List.length vertex_label_names)) in
  let* vtables := lift (build_vtables vertex_label_names oids 0) in
  mret (vtables, etables).

End Acquisition.

(** ** [shuffleAndBuild]: label lists of the [PropertyGraphSchema] *)

(** [std::vector<T>::operator[]] with a signed index: out of range is
    undefined. *)
Definition vec_at {A} (l : list A) (i : Z) : option A :=
  if i <? 0 then None else nth_error l (Z.to_nat i).

(** The loop over [vertex_label_to_index_] (or [edge_label_to_index_]), in
    the map's key order, filling [*_label_list] and [*_label_bitset]. *)
Fixpoint fill_label_list (kind : string) (pairs : list (string * Z)) (num : Z)
  (bitset : list bool) (names : list string) : result (list string) :=
  match pairs with
  | [] => Ok names
  | (name, idx) :: rest =>
      if idx >? num
      then Err (GSError kIOError ("Failed to map " ++ kind ++ " label to index"))
      else match vec_at bitset idx with
           | None => Err (UndefinedBehaviour "std::vector<bool> index out of range")
           | Some true =>
               Err (GSError kIOError ("Multiple " ++ kind ++ " labels are mapped to one index."))
           | Some false =>
               fill_label_list kind rest num (update_nth (Z.to_nat idx) true bitset)
                               (update_nth (Z.to_nat idx) name names)
           end
  end.

Definition label_list (kind : string) (label_to_index : list (string * Z)) (num : Z)
  : result (list string) :=
  fill_label_list kind label_to_index num (repeat false (Z.to_nat num))
                  (repeat EmptyString (Z.to_nat num)).

(** The two label lists [shuffleAndBuild] builds before the schema entries. *)
Definition schema_label_lists (st : LoaderState) (edge_label_num : Z)
  : result (list string * list string) :=
  vertex_label_list <- label_list "vertex" (vertex_label_to_index_ st) (vertex_label_num_ st);;
  edge_label_list <- label_list "edge" (edge_label_to_index_ st) edge_label_num;;
  Ok (vertex_label_list, edge_label_list).

(** ** [constructFragmentGroup] *)

Definition ObjectID : Set := Z.

Record CommSpec : Type := mkCommSpec {
  fnum : nat;
  FragToWorker : nat -> nat
}.

(** The sealed [ArrowFragmentGroup]. *)
Record FragmentGroup : Set := mkFragmentGroup {
  total_frag_num : nat;
  group_vertex_label_num : Z;
  group_edge_label_num : Z;
  fragments : list (nat * (ObjectID * Z))
}.

Fixpoint fragment_of (fid : nat) (l : list (nat * (ObjectID * Z))) : option (ObjectID * Z) :=
  match l with
  | [] => None
  | (i, p) :: rest => if Nat.eqb i fid then Some p else fragment_of fid rest
  end.

(** The part of the object store this step touches. *)
Record Store : Set := mkStore {
  next_id : ObjectID;
  sealed : list (ObjectID * FragmentGroup);
  persisted : list ObjectID
}.

(** [builder.Seal(client)]: a fresh object id. *)
Definition Seal (st : Store) (g : FragmentGroup) : ObjectID * Store :=
  (next_id st, {| next_id := next_id st + 1; sealed := app (sealed st) [(next_id st, g)];
                  persisted := persisted st |}).

Definition Persist (st : Store) (id : ObjectID) : Store :=
  {| next_id := next_id st; sealed := sealed st; persisted := app (persisted st) [id] |}.

Fixpoint sealed_lookup (id : ObjectID) (l : list (ObjectID * FragmentGroup)) : option FragmentGroup :=
  match l with
  | [] => None
  | (i, g) :: rest => if i =? id then Some g else sealed_lookup id rest
  end.

Definition vec_get {A} (l : list A) (i : nat) : result A :=
  match nth_error l i with
  | Some x => Ok x
  | None => Err (UndefinedBehaviour "gathered vector index out of range")
  end.

(** The [AddFragmentObject] loop over every fragment id. *)
Definition add_fragments (cs : CommSpec) (gathered_object_ids : list ObjectID)
  (gathered_instance_ids : list Z) : result (list (nat * (ObjectID * Z))) :=
  mapM (fun i => o <- vec_get gathered_object_ids (FragToWorker cs i);;
                 n <- vec_get gathered_instance_ids (FragToWorker cs i);;
                 Ok (i, (o, n)))
       (seq 0 (fnum cs)).

(** What one worker does: return from the call, or wait forever in a
    collective step its peers never enter. *)
Inductive WorkerOutcome : Set :=
| Returned (r : result ObjectID)
| Blocked.

(** The whole group, worker [i] holding the [i]-th (fragment id, instance
    id) pair; worker 0 is the coordinator. The two [MPI_Gather]s deliver the
    pairs in rank order; every worker then waits in [MPI_Bcast], which only
    completes if the coordinator reaches it. [persist_status] is the status
    of [client.Persist]. *)
Definition constructFragmentGroup (cs : CommSpec) (workers : list (ObjectID * Z))
  (v_label_num e_label_num : Z) (persist_status : result unit) (store : Store)
  : list WorkerOutcome * Store :=
  let gathered_object_ids := map fst workers in
  let gathered_instance_ids := map snd workers in
  let coordinator_fails e := (Returned (Err e) :: map (fun _ => Blocked) (tl workers), store) in
  match add_fragments cs gathered_object_ids gathered_instance_ids with
  | Err e => coordinator_fails e
  | Ok frags =>
      let '(group_object_id, store1) :=
        Seal store (mkFragmentGroup (fnum cs) v_label_num e_label_num frags) in
      match persist_status with
      | Err e => (Returned (Err e) :: map (fun _ => Blocked) (tl workers), store1)
      | Ok _ => (map (fun _ => Returned (Ok group_object_id)) workers,
                 Persist store1 group_object_id)
      end
  end.


(** ** [loadVertexTables] *)

Section VertexAcquisition.

Variable read_procedure : SubSource -> result (option Table).
Variable sync_schema_procedure : SubSource -> option Table -> result Table.

(** The metadata of a loaded vertex table: the two loader keys, the
    adaptor's key/value pairs in their iteration order, then the label. *)
Definition vertex_meta (adaptor_meta : list (string * string)) (v_label_name : string)
  : list (string * string) :=
  app [("type", "VERTEX"); (ID_COLUMN, to_string id_column)]
      (app adaptor_meta [("label", v_label_name)]).

(** The loop over [files], [label_id] being the index of the current file. *)
Fixpoint load_vertex_files (label_id : Z) (files : list SubSource) : M (list Table) :=
  match files with
  | [] => mret []
  | sub :: rest =>
      let* normalized_table := acquire read_procedure sync_schema_procedure sub in
      let adaptor_meta := sub_meta sub in
      let* v_label_name := require_meta LABEL_TAG adaptor_meta
           "Metadata of input vertex files should contain label name" in
      let table := ReplaceSchemaMetadata normalized_table
                     (vertex_meta adaptor_meta v_label_name) in
      let* _ := modify (fun st => set_vertex_labels
                          (map_set v_label_name label_id (vertex_label_to_index_ st))
                          (vertex_label_num_ st) st) in
      let* tables := load_vertex_files (label_id + 1) rest in
      mret (table :: tables)
  end.

Definition loadVertexTables (files : list SubSource) : M (list Table) :=
  load_vertex_files 0 files.

End VertexAcquisition.

(** ** Tables read from vineyard streams *)

(** A member stream of a [ParallelStream]: a [DataframeStream], with the
    outcome of its reader's [ReadTable], or a stream of another type. *)
Inductive StreamObject : Type :=
| DataframeStream (read_table : result Table)
| OtherStream.

(** [VINEYARD_ASSERT] on a metadata key, and [.at] on a [std::map] outside
    any [try]: both leave the function without a result, which
    [CheckFailed] stands for. *)
Definition vy_assert_find (k : string) (meta : list (string * string)) (msg : string)
  : M string :=
  match meta_find k meta with
  | Some v => mret v
  | None => raise (CheckFailed msg)
  end.

Definition vertex_label_at_uncaught (name : string) : M Z :=
  fun st => match map_find name (vertex_label_to_index_ st) with
            | Some v => (Ok v, st)
            | None => (Err (CheckFailed "map::at"), st)
            end.

Section VineyardStreams.

(** [client.GetObject<ParallelStream>(id)]: its member streams, or none
    when there is no such parallel stream. *)
Variable GetParallelStream : ObjectID -> option (list StreamObject).
Variable VYObjectIDToString : ObjectID -> string.
(** [comm_spec_.worker_id()] and [comm_spec_.worker_num()]. *)
Variable worker_id worker_num : Z.

(** A non-OK [Status] is [Err]; [RETURN_ON_ASSERT] returns [CheckFailed]. *)
Definition readTableFromVineyard (object_id : ObjectID) : result Table :=
  let index := worker_id in
  let total_parts := worker_num in
  match GetParallelStream object_id with
  | None => Err (CheckFailed ("Object not exists: " ++ VYObjectIDToString object_id))
  | Some streams =>
      if (total_parts =? Z.of_nat (List.length streams)) && (index <? total_parts) then
        match vec_at streams index with
        | Some (DataframeStream r) => r
        | _ => Err (CheckFailed "The stream must be a dataframe stream")
        end
      else Err (CheckFailed ("read " ++ to_string index ++ " from " ++
                             to_string total_parts ++ ", but totally has " ++
                             to_string (Z.of_nat (List.length streams))))
  end.

(** The copied schema metadata (empty when absent) with the loader keys. *)
Definition gathered_vertex_meta (table : Table) : list (string * string) :=
  app (tmeta table) [("type", "VERTEX"); (ID_COLUMN, to_string id_column)].

(** The loop of [gatherVTables]; a stream that fails to read is only logged. *)
Fixpoint gather_v (label_id : Z) (vstreams : list ObjectID) : M (list Table) :=
  match vstreams with
  | [] => mret []
  | vstream :: rest =>
      match readTableFromVineyard vstream with
      | Err _ => gather_v (label_id + 1) rest
      | Ok table =>
          let meta := gathered_vertex_meta table in
          let* v_label_name := vy_assert_find LABEL_TAG meta
               "Metadata of input vertex files should contain label name" in
          let* _ := modify (fun st => set_vertex_labels
                              (map_set v_label_name label_id (vertex_label_to_index_ st))
                              (vertex_label_num_ st) st) in
          let* tables := gather_v (label_id + 1) rest in
          mret (ReplaceSchemaMetadata table meta :: tables)
      end
  end.

Definition gatherVTables (vstreams : list ObjectID) : M (list Table) :=
  gather_v 0 vstreams.

Definition gathered_edge_meta (table : Table) (sub_label_num : nat)
  : list (string * string) :=
  app (tmeta table) [("type", "EDGE"); (SRC_COLUMN, to_string src_column);
                     (DST_COLUMN, to_string dst_column);
                     ("sub_label_num", to_string (Z.of_nat sub_label_num))].

(** The inner loop of [gatherETables] over the sub-streams of one label. *)
Fixpoint gather_e_subs (sub_label_num : nat) (label_id : Z) (esubstreams : list ObjectID)
  : M (list Table) :=
  match esubstreams with
  | [] => mret []
  | estream :: rest =>
      match readTableFromVineyard estream with
      | Err _ => gather_e_subs sub_label_num label_id rest
      | Ok table =>
          let meta := gathered_edge_meta table sub_label_num in
          let* edge_label_name := vy_assert_find LABEL_TAG meta
               "Metadata of input edge files should contain label name" in
          let* src_label_name := vy_assert_find SRC_LABEL_TAG meta
               "Metadata of input edge files should contain src_label name" in
          let* dst_label_name := vy_assert_find DST_LABEL_TAG meta
               "Metadata of input edge files should contain dst_label name" in
          let* src_label_id := vertex_label_at_uncaught src_label_name in
          let* dst_label_id := vertex_label_at_uncaught dst_label_name in
          let meta' := app meta [(SRC_LABEL_ID, to_string src_label_id);
                                 (DST_LABEL_ID, to_string dst_label_id)] in
          let* _ := add_edge_vertex_label edge_label_name src_label_name dst_label_name in
          let* _ := modify (fun st => set_edge_label_to_index
                              (map_set edge_label_name label_id (edge_label_to_index_ st)) st) in
          let* tables := gather_e_subs sub_label_num label_id rest in
          mret (ReplaceSchemaMetadata table meta' :: tables)
      end
  end.

(** The outer loop: a label none of whose sub-streams could be read adds
    no entry. *)
Fixpoint gather_e (label_id : Z) (estreams : list (list ObjectID))
  : M (list (list Table)) :=
  match estreams with
  | [] => mret []
  | esubstreams :: rest =>
      let* subtables := gather_e_subs (List.length esubstreams) label_id esubstreams in
      let* tables := gather_e (label_id + 1) rest in
      mret (match subtables with [] => tables | _ => subtables :: tables end)
  end.

Definition gatherETables (estreams : list (list ObjectID)) : M (list (list Table)) :=
  gather_e 0 estreams.

End VineyardStreams.

(** ** [swapColumn] *)

Inductive ArrowStatus : Set :=
| ArrowOK
| ArrowInvalid (msg : string).

(** [internal::DeleteVectorElement] *)
Fixpoint remove_nth {A} (n : nat) (l : list A) : list A :=
  match l, n with
  | [], _ => []
  | _ :: rest, O => rest
  | y :: rest, S n' => y :: remove_nth n' rest
  end.

(** [internal::AddVectorElement] (callers check [n <= length l]). *)
Fixpoint insert_nth {A} (n : nat) (x : A) (l : list A) : list A :=
  match n, l with
  | O, _ => x :: l
  | S _, [] => [x]
  | S n', y :: rest => y :: insert_nth n' x rest
  end.

(** [Table::RemoveColumn(i)]; the schema keeps its metadata. An Arrow
    error [Status::Invalid] is [GSError kArrowError]. *)
Definition RemoveColumn (t : Table) (i : Z) : result Table :=
  if (0 <=? i) && (i <? Z.of_nat (List.length (tschema t))) then
    Ok {| tschema := remove_nth (Z.to_nat i) (tschema t); tmeta := tmeta t;
          tcolumns := remove_nth (Z.to_nat i) (tcolumns t) |}
  else Err (GSError kArrowError "Invalid column index to remove field.").

(** [Table::AddColumn(i, field, col)] of a table of [num_rows_] rows (a
    table keeps its row count when a column is removed). *)
Definition AddColumn (t : Table) (num_rows_ : nat) (i : Z) (f : Field) (col : ChunkedArray)
  : result Table :=
  if negb (Nat.eqb (column_length col) num_rows_) then
    Err (GSError kArrowError "Added column's length must match table's length.")
  else if negb (Equals (ftype f) (ctype col)) then
    Err (GSError kArrowError "Field type did not match data type")
  else if (0 <=? i) && (i <=? Z.of_nat (List.length (tschema t))) then
    Ok {| tschema := insert_nth (Z.to_nat i) f (tschema t); tmeta := tmeta t;
          tcolumns := insert_nth (Z.to_nat i) col (tcolumns t) |}
  else Err (GSError kArrowError "Invalid column index to add field.").

(** [CHECK_ARROW_ERROR_AND_ASSIGN]: an Arrow error stops the process. *)
Definition check_arrow {A} (r : result A) : result A :=
  match r with
  | Ok a => Ok a
  | Err _ => Err (CheckFailed "CHECK_ARROW_ERROR_AND_ASSIGN")
  end.

(** [swapColumn(in, lhs_index, rhs_index, out)]: [out] is the table the
    caller's [*out] holds (if any), and the result gives the returned
    status with [*out] afterwards. With equal indices the code assigns the
    local pointer [out], so the caller's [*out] is left as it was. *)
Definition swapColumn (in_ : Table) (lhs_index rhs_index : Z) (out : option Table)
  : result (ArrowStatus * option Table) :=
  if lhs_index =? rhs_index then Ok (ArrowOK, out)
  else if lhs_index >? rhs_index then
    Ok (ArrowInvalid "lhs index must smaller than rhs index.", out)
  else
    match vec_at (tschema in_) rhs_index, vec_at (tcolumns in_) rhs_index with
    | Some f, Some col =>
        in' <- check_arrow (RemoveColumn in_ rhs_index);;
        out' <- check_arrow (AddColumn in' (num_rows in_) lhs_index f col);;
        Ok (ArrowOK, Some out')
    | _, _ => Err (UndefinedBehaviour "Schema::field / Table::column index out of range")
    end.

(** ** Schemas through grape archives ([operator<<] and [operator>>]) *)

Section SchemaArchive.

(** [arrow::ipc::SerializeSchema] and [arrow::ipc::ReadSchema] (Arrow, not
    in this file). *)
Variable SerializeSchema : Schema -> result (list Byte.byte).
Variable ReadSchema : list Byte.byte -> result Schema.

(** [in_archive << schema]: a null schema adds nothing. *)
Definition archive_schema_in (in_archive : list Byte.byte) (schema : option Schema)
  : result (list Byte.byte) :=
  match schema with
  | None => Ok in_archive
  | Some s => out <- check_arrow (SerializeSchema s);; Ok (app in_archive out)
  end.

(** [out_archive >> schema]: an empty archive leaves [schema] as it was;
    otherwise the whole buffer is read as one schema. *)
Definition archive_schema_out (out_archive : list Byte.byte) (schema : option Schema)
  : result (option Schema) :=
  match out_archive with
  | [] => Ok schema
  | _ => s <- check_arrow (ReadSchema out_archive);; Ok (Some s)
  end.

End SchemaArchive.

(** ** Python bindings of [ObjectMeta] and [BlobWriter] (python/core.cc) *)

(** A [boost::property_tree::ptree] node: its data and its children. *)
#[warnings="-register-all"] Inductive ptree : Type :=
| PTree (data : string) (children : list (string * ptree)).

(** [tree.find(key)]: here the first child with that key (Boost does not
    say which one among equal keys). *)
Definition ptree_find (tree : ptree) (key : string) : option ptree :=
  match tree with PTree _ cs => map_find key cs end.

(** [node.empty()]: no children. *)
Definition ptree_empty (node : ptree) : bool :=
  match node with PTree _ [] => true | PTree _ _ => false end.

Definition ptree_data (node : ptree) : string :=
  match node with PTree d _ => d end.

(** The bytes of a [std::string]. *)
Fixpoint string_bytes (s : string) : list nat :=
  match s with
  | EmptyString => []
  | String c rest => nat_of_ascii c :: string_bytes rest
  end.

Definition utf8_cont (b : nat) : bool := (128 <=? b)%nat && (b <=? 191)%nat.

(** Well-formed UTF-8 (Unicode Table 3-7), as Python's strict ['utf-8']
    codec accepts it: no overlong forms, no surrogates, nothing above
    U+10FFFF. *)
Fixpoint utf8_valid (bs : list nat) : bool :=
  match bs with
  | [] => true
  | b0 :: rest =>
      if (b0 <? 128)%nat then utf8_valid rest
      else if (194 <=? b0)%nat && (b0 <=? 223)%nat then
        match rest with
        | b1 :: r => utf8_cont b1 && utf8_valid r
        | _ => false
        end
      else if (224 <=? b0)%nat && (b0 <=? 239)%nat then
        match rest with
        | b1 :: b2 :: r =>
            let lo := if (b0 =? 224)%nat then 160%nat else 128%nat in
            let hi := if (b0 =? 237)%nat then 159%nat else 191%nat in
            (lo <=? b1)%nat && (b1 <=? hi)%nat && utf8_cont b2 && utf8_valid r
        | _ => false
        end
      else if (240 <=? b0)%nat && (b0 <=? 244)%nat then
        match rest with
        | b1 :: b2 :: b3 :: r =>
            let lo := if (b0 =? 240)%nat then 144%nat else 128%nat in
            let hi := if (b0 =? 244)%nat then 143%nat else 191%nat in
            (lo <=? b1)%nat && (b1 <=? hi)%nat && utf8_cont b2 && utf8_cont b3 &&
            utf8_valid r
        | _ => false
        end
      else false
  end.

(** The Python exceptions the bindings raise: [py::key_error], a failed
    [VINEYARD_ASSERT], and the [UnicodeDecodeError] of [py::cast] on a
    [std::string] whose bytes are not UTF-8 (it carries those bytes). *)
Inductive PyError : Set :=
| KeyError (msg : string)
| AssertionFailed (msg : string)
| UnicodeDecodeError (data : string).

Section PyObjectMeta.

(** The Python objects of [ObjectMeta::GetMemberMeta] and
    [ObjectMeta::GetMember] (client library, not in this file). *)
Variables MemberMeta MemberObject : Type.
Variable GetMemberMeta : ptree -> string -> MemberMeta.
Variable GetMember : ptree -> string -> MemberObject.

Inductive PyValue : Type :=
| PyNone
| PyStr (s : string)
| PyMeta (m : MemberMeta)
| PyObject (o : MemberObject).

Inductive PyResult : Type :=
| PyOk (v : PyValue)
| PyRaise (e : PyError).

(** [py::cast(std::string)]: a Python [str], decoded as strict UTF-8. *)
Definition py_cast_string (d : string) : PyResult :=
  if utf8_valid (string_bytes d) then PyOk (PyStr d) else PyRaise (UnicodeDecodeError d).

(** [ObjectMeta.__getitem__] on the metadata tree [tree]. *)
Definition meta_getitem (tree : ptree) (key : string) : PyResult :=
  match ptree_find tree key with
  | None => PyRaise (KeyError ("key '" ++ key ++ "' does not exist"))
  | Some node =>
      if ptree_empty node then py_cast_string (ptree_data node)
      else PyOk (PyMeta (GetMemberMeta tree key))
  end.

(** [ObjectMeta.get(key, default=None)] *)
Definition meta_get (tree : ptree) (key : string) (default_value : PyValue) : PyResult :=
  match ptree_find tree key with
  | None => PyOk default_value
  | Some node =>
      if ptree_empty node then py_cast_string (ptree_data node)
      else PyOk (PyMeta (GetMemberMeta tree key))
  end.

(** [ObjectMeta.get_member(key)] *)
Definition meta_get_member (tree : ptree) (key : string) : PyResult :=
  match ptree_find tree key with
  | None => PyOk PyNone
  | Some node =>
      if negb (ptree_empty node) then PyOk (PyObject (GetMember tree key))
      else PyRaise (AssertionFailed "The value is not a member, but a meta")
  end.

End PyObjectMeta.

Arguments PyNone {MemberMeta MemberObject}.
Arguments PyStr {MemberMeta MemberObject} s.
Arguments PyMeta {MemberMeta MemberObject} m.
Arguments PyObject {MemberMeta MemberObject} o.
Arguments PyOk {MemberMeta MemberObject} v.
Arguments PyRaise {MemberMeta MemberObject} e.
Arguments py_cast_string {MemberMeta MemberObject} d.
Arguments meta_getitem {MemberMeta MemberObject} GetMemberMeta tree key.
Arguments meta_get {MemberMeta MemberObject} GetMemberMeta tree key default_value.
Arguments meta_get_member {MemberMeta MemberObject} GetMember tree key.

(** Metadata with two leaves: [name] holds the UTF-8 bytes of "é", [raw]
    the single byte 0xFF, as [meta["raw"] = b"\xff"] stores it. *)
Definition byte_leaves : ptree :=
  PTree EmptyString
    [("name", PTree (String (ascii_of_nat 195) (String (ascii_of_nat 169) EmptyString)) []);
     ("raw", PTree (String (ascii_of_nat 255) EmptyString) [])].

(** A [BlobWriter]'s buffer of [int8_t] values; indices and sizes are
    [size_t], 64-bit unsigned. *)
Definition size_t_modulus : Z := 2 ^ 64.

(** [BlobWriter.__getitem__(index)]: unchecked. *)
Definition blob_getitem (data : list Z) (index : Z) : result Z :=
  match nth_error data (Z.to_nat index) with
  | Some v => Ok v
  | None => Err (UndefinedBehaviour "blob index out of range")
  end.

(** [data[index] = value] *)
Fixpoint replace_nth {A} (n : nat) (x : A) (l : list A) : list A :=
  match l, n with
  | [], _ => []
  | _ :: rest, O => x :: rest
  | y :: rest, S n' => y :: replace_nth n' x rest
  end.

(** [BlobWriter.__setitem__(index, value)] on Python ints: pybind11 loads
    [index] as a [size_t] and [value] as an [int8_t]; an int outside their
    ranges fits neither overload and the call raises TypeError. The write
    itself is unchecked. *)
Definition blob_setitem (data : list Z) (index : Z) (value : Z) : result (list Z) :=
  if negb ((0 <=? index) && (index <? size_t_modulus) && (-128 <=? value) && (value <=? 127))
  then Err (PyTypeError "__setitem__(): incompatible function arguments")
  else if Nat.ltb (Z.to_nat index) (List.length data)
  then Ok (replace_nth (Z.to_nat index) value data)
  else Err (UndefinedBehaviour "blob index out of range").

(** [BlobWriter.copy(offset, bytes)]: [VINEYARD_ASSERT] on the wrapped
    [size_t] sum [offset + ss.size()], then [memcpy]. *)
Definition blob_copy (data : list Z) (offset : Z) (bs : list Z) : result (list Z) :=
  let n := Z.of_nat (List.length bs) in
  let size := Z.of_nat (List.length data) in
  if (offset + n) mod size_t_modulus <=? size then
    if offset + n <=? size then
      Ok (app (firstn (Z.to_nat offset) data) (app bs (skipn (Z.to_nat (offset + n)) data)))
    else Err (UndefinedBehaviour "memcpy beyond the blob")
  else Err (CheckFailed "offset + ss.size() <= self->size()").


(** ** Vocabulary of the statements *)

(** The widening lattice of [TypeLoosen]: timestamp[s] -> int64 -> double -> utf8. *)
Definition numeric (t : DataType) : Prop :=
  t = timestamp SECOND \/ t = int64 \/ t = float64.

Definition in_lattice (t : DataType) : Prop := numeric t \/ t = utf8.

(** [timestamp[s]] is promoted to [int64], every other type is kept. *)
Definition promote (t : DataType) : DataType :=
  if Equals t (timestamp SECOND) then int64 else t.

Definition promote_field (f : Field) : Field := WithType f (promote (ftype f)).

(** A one-column schema. *)
Definition one_column (t : DataType) : Schema := [mkField "x" t true].

(** Arrow's invariants on a table: one column per field, each column and
    chunk of its field's type, int64 chunks holding an int64 buffer. *)
Definition array_fits (t : DataType) (a : Array) : bool :=
  Equals (atype a) t &&
  match t, adata a with
  | int64, IntData _ => true
  | int64, _ => false
  | _, _ => true
  end.

Definition column_fits (f : Field) (c : ChunkedArray) : bool :=
  Equals (ctype c) (ftype f) && forallb (array_fits (ftype f)) (chunks c).

Fixpoint columns_fit (fs : Schema) (cs : list ChunkedArray) : bool :=
  match fs, cs with
  | [], [] => true
  | f :: fs', c :: cs' => column_fits f c && columns_fit fs' cs'
  | _, _ => false
  end.

Definition wf_table (t : Table) : bool := columns_fit (tschema t) (tcolumns t).

(** The casts [CastTableToSchema] performs. *)
Definition supported_cast (from to : DataType) : bool :=
  (Equals from int64 && Equals to float64) ||
  (Equals from (timestamp SECOND) && Equals to int64).

(** A worker holding a double column, its peer holding nothing. *)
Definition double_table : Table :=
  mkTable (one_column float64) []
    [mkChunked float64 [mkArray float64 (DoubleData [PrimFloat.of_uint63 3%uint63])]].

(** A one-row utf8 table. *)
Definition string_table : Table :=
  mkTable (one_column utf8) [] [mkChunked utf8 [mkArray utf8 (StrData ["7"])]].

(** Sample inputs of table acquisition: every sub-source reads as a
    two-column (src, dst) table, and [SyncSchema] runs in a one-worker
    group. *)
Definition edge_table_sample : Table :=
  mkTable [mkField "src" int64 true; mkField "dst" int64 true] []
    [mkChunked int64 [mkArray int64 (IntData [1; 2])];
     mkChunked int64 [mkArray int64 (IntData [2; 3])]].

Definition read_sample (sub : SubSource) : result (option Table) := Ok (Some edge_table_sample).

Definition sync_single (sub : SubSource) (t : option Table) : result Table :=
  SyncSchema t (GlobalAllGatherv [t]).

(** A worker whose slice of every sub-source is empty. *)
Definition read_none (sub : SubSource) : result (option Table) := Ok None.

(** [SyncSchema] in a group of two workers, the first holding
    [edge_table_sample], the second nothing. *)
Definition sync_pair (sub : SubSource) (t : option Table) : result Table :=
  SyncSchema t (GlobalAllGatherv [Some edge_table_sample; None]).

Definition empty_state : LoaderState := mkLoaderState [] [] [] 0 [].

(** The state after loading one vertex label [v]. *)
Definition vertex_state : LoaderState := mkLoaderState [("v", 0)] [] [] 1 [].

(** An edge sub-source of label [e] from [v] to [v]. *)
Definition e_sub (path : string) : SubSource :=
  mkSub path [("label", "e"); ("src_label", "v"); ("dst_label", "v")].

(** Two edge files carrying the same edge label [e]. *)
Definition two_edge_files : list (list SubSource) := [[e_sub "/data/e0"]; [e_sub "/data/e1"]].

(** A loader step that never fails with [kInvalidValueError]. *)
Definition never_invalid {A} (m : M A) : Prop :=
  forall st msg, fst (m st) <> Err (GSError kInvalidValueError msg).

(** The loader members a worker's steps read, apart from the trace. *)
Definition members (st : LoaderState)
  : list (string * Z) * list (string * Z) * list (string * list (string * string)) * Z :=
  (vertex_label_to_index_ st, edge_label_to_index_ st, edge_vertex_label_ st,
   vertex_label_num_ st).

(** Two workers whose members agree, running a step that reads no slice of
    their own (a metadata lookup, a member update), enter the same
    collective steps in the same order and reach the same outcome and
    members. *)
Definition lockstep {A} (m : M A) : Prop :=
  forall st1 st2, members st1 = members st2 ->
    fst (m st1) = fst (m st2) /\ members (snd (m st1)) = members (snd (m st2)) /\
    exists ext, trace (snd (m st1)) = app (trace st1) ext /\
                trace (snd (m st2)) = app (trace st2) ext.

(** [r1] and [r2] agree: both succeed with related values, or both fail
    with the same error. *)
Definition rel_result {A B} (R : A -> B -> Prop) (r1 : result A) (r2 : result B) : Prop :=
  match r1, r2 with
  | Ok a1, Ok a2 => R a1 a2
  | Err e1, Err e2 => e1 = e2
  | _, _ => False
  end.

(** Two workers, each running its own step on its own slice, from states
    whose members agree: they enter the same collective steps in the same
    order, reach outcomes that agree (values related by [R], or the same
    error) and agree on the members again. *)
Definition lockstep2 {A B} (R : A -> B -> Prop) (m1 : M A) (m2 : M B) : Prop :=
  forall st1 st2, members st1 = members st2 ->
    rel_result R (fst (m1 st1)) (fst (m2 st2)) /\
    members (snd (m1 st1)) = members (snd (m2 st2)) /\
    exists ext, trace (snd (m1 st1)) = app (trace st1) ext /\
                trace (snd (m2 st2)) = app (trace st2) ext.

(** What [sync_gs_error] makes the workers agree on: the partial reads of a
    sub-source succeed on both workers or fail with the same error, and so
    do the schema synchronisations of the tables they read. The tables
    themselves may differ. *)
Definition agreed_outcomes (rp1 rp2 : SubSource -> result (option Table))
  (sp1 sp2 : SubSource -> option Table -> result Table) : Prop :=
  (forall sub, rel_result (fun _ _ => True) (rp1 sub) (rp2 sub)) /\
  (forall sub t1 t2, rp1 sub = Ok t1 -> rp2 sub = Ok t2 ->
     rel_result (fun _ _ => True) (sp1 sub t1) (sp2 sub t2)).

(** An edge sub-source naming its label and destination label only. *)
Definition no_src_sub (path : string) : SubSource :=
  mkSub path [("label", "e"); ("dst_label", "v")].

(** A sub-source whose metadata lacks an endpoint label. *)
Definition missing_endpoint_label (sub : SubSource) : Prop :=
  meta_find SRC_LABEL_TAG (sub_meta sub) = None \/ meta_find DST_LABEL_TAG (sub_meta sub) = None.

(** The order of [std::set<std::string>]: lexicographic on characters. *)
Definition str_lt (a b : string) : Prop := String.compare a b = Lt.

(** The OIDs of an oid column. *)
Definition column_oids (c : ChunkedArray) : list Z :=
  flat_map (fun a => match a with
                     | {| atype := int64; adata := IntData vs |} => vs
                     | _ => []
                     end) (chunks c).

(** The normalized table a sub-source yields, given the agreed outcomes of
    its partial read and schema synchronisation. *)
Definition acquired (read_procedure : SubSource -> result (option Table))
  (sync_schema_procedure : SubSource -> option Table -> result Table)
  (sub : SubSource) : option Table :=
  match read_procedure sub with
  | Ok tb => match sync_schema_procedure sub tb with
             | Ok t => Some t
             | Err _ => None
             end
  | Err _ => None
  end.

(** [o] is an endpoint OID of vertex label [L] in sub-source [sub]: it occurs
    in the src column and [sub]'s [src_label] is [L], or in the dst column and
    its [dst_label] is [L]. *)
Definition endpoint_of read_procedure sync_schema_procedure (sub : SubSource)
  (L : string) (o : Z) : Prop :=
  exists t, acquired read_procedure sync_schema_procedure sub = Some t /\
    ((meta_find SRC_LABEL_TAG (sub_meta sub) = Some L /\
      exists c, nth_error (tcolumns t) (Z.to_nat src_column) = Some c /\ In o (column_oids c)) \/
     (meta_find DST_LABEL_TAG (sub_meta sub) = Some L /\
      exists c, nth_error (tcolumns t) (Z.to_nat dst_column) = Some c /\ In o (column_oids c))).

(** [L] is the src or dst label of [sub]. *)
Definition endpoint_label (sub : SubSource) (L : string) : Prop :=
  meta_find SRC_LABEL_TAG (sub_meta sub) = Some L \/ meta_find DST_LABEL_TAG (sub_meta sub) = Some L.

(** An edge sub-source of label [buy] from [person] to [item]; one edge
    file holding two of them. *)
Definition buy_sub (path : string) : SubSource :=
  mkSub path [("label", "buy"); ("src_label", "person"); ("dst_label", "item")].

Definition buy_files : list (list SubSource) := [[buy_sub "/data/b0"; buy_sub "/data/b1"]].

(** Invariant of the OID sets during the edge scan: one set per label
    name, duplicate-free, holding exactly the OIDs [P] assigns that label. *)
Definition oids_hold (names : list string) (oids : list OidSet)
  (P : string -> Z -> Prop) : Prop :=
  List.length oids = List.length names /\
  forall j L, nth_error names j = Some L ->
    exists s, nth_error oids j = Some s /\ NoDup s /\ forall o, In o s <-> P L o.

(** [x] put at index [l] of [xs] in place of its element at index [r]
    ([l < r]): the elements from [l] to [r - 1] move up by one. *)
Definition move_to {A} (l r : nat) (x : A) (xs : list A) : list A :=
  app (firstn l xs) (x :: app (firstn (r - l) (skipn l xs)) (skipn (S r) xs)).

(** Every column of [t] has [num_rows t] rows. *)
Definition same_rows (t : Table) : bool :=
  forallb (fun c => Nat.eqb (column_length c) (num_rows t)) (tcolumns t).

Definition three_columns : Table :=
  mkTable [mkField "a" int64 true; mkField "b" float64 true; mkField "c" utf8 true]
    [("k", "v")]
    [mkChunked int64 [mkArray int64 (IntData [1])];
     mkChunked float64 [mkArray float64 (OtherData 1)];
     mkChunked utf8 [mkArray utf8 (StrData ["x"])]].

(** Sample parallel streams of one member each (read by worker 0 of 1):
    object 1 holds a person table, object 2 an item table, object 3 a
    table without a label, object 4 a table of buy edges from persons to
    items; no other object exists. *)
Definition sample_parallel_stream (object_id : ObjectID) : option (list StreamObject) :=
  if object_id =? 1 then
    Some [DataframeStream (Ok (ReplaceSchemaMetadata double_table [("label", "person")]))]
  else if object_id =? 2 then
    Some [DataframeStream (Ok (ReplaceSchemaMetadata string_table [("label", "item")]))]
  else if object_id =? 3 then Some [DataframeStream (Ok double_table)]
  else if object_id =? 4 then
    Some [DataframeStream (Ok (ReplaceSchemaMetadata double_table
            [("label", "buy"); ("src_label", "person"); ("dst_label", "item")]))]
  else None.

(** The tables of the reads that succeeded, in order. *)
Fixpoint ok_tables (reads : list (result Table)) : list Table :=
  match reads with
  | [] => []
  | Ok t :: rest => t :: ok_tables rest
  | Err _ :: rest => ok_tables rest
  end.

(** * Properties *)

(** ** Generic lemmas on results *)

Lemma mapM_Ok {A B} (f : A -> result B) (l : list A) (l' : list B) :
  mapM f l = Ok l' -> Forall2 (fun x y => f x = Ok y) l l'.
Proof.
  revert l'; induction l as [|x xs IH]; simpl; intros l' H.
  - inversion H; constructor.
  - destruct (f x) as [y|e] eqn:Hf; simpl in H; [|discriminate].
    destruct (mapM f xs) as [ys|e] eqn:Hm; simpl in H; [|discriminate].
    inversion H; subst. constructor; auto.
Qed.

Lemma mapM_Err {A B} (f : A -> result B) (l : list A) (e : Error) :
  mapM f l = Err e -> exists x, In x l /\ f x = Err e.
Proof.
  induction l as [|x xs IH]; simpl; intros H; [discriminate|].
  destruct (f x) as [y|e'] eqn:Hf; simpl in H.
  - destruct (mapM f xs) as [ys|e''] eqn:Hm; simpl in H; [discriminate|].
    inversion H; subst. destruct IH as [z [Hz Hfz]]; auto. eauto.
  - inversion H; subst. eauto.
Qed.

Lemma mapM_all_Ok {A B} (f : A -> result B) (l : list A) :
  (forall x, In x l -> exists y, f x = Ok y) -> exists l', mapM f l = Ok l'.
Proof.
  induction l as [|x xs IH]; simpl; intros H; [eauto|].
  destruct (H x (or_introl eq_refl)) as [y Hy]. rewrite Hy; simpl.
  destruct IH as [ys Hys]; [intros z Hz; apply H; auto|]. rewrite Hys; simpl; eauto.
Qed.

Lemma mapM_first_bad {A B} (f : A -> result B) (P : Error -> Prop) l :
  (forall x, In x l -> (exists y, f x = Ok y) \/ (exists e, f x = Err e /\ P e)) ->
  (exists x e, In x l /\ f x = Err e /\ P e) ->
  exists e, mapM f l = Err e /\ P e.
Proof.
  induction l as [|x xs IH]; simpl; intros Hall [z [e [Hz [Hfz He]]]]; [contradiction|].
  destruct (Hall x (or_introl eq_refl)) as [[y Hy]|[e' [Hy He']]]; rewrite Hy; simpl.
  - destruct Hz as [<-|Hz]; [congruence|].
    destruct IH as [e'' [Hm He'']].
    { intros w Hw; apply Hall; auto. }
    { eauto 6. }
    rewrite Hm; simpl; eauto.
  - eauto.
Qed.

Lemma Forall2_nth_error_r {A B} (R : A -> B -> Prop) l1 l2 i y :
  Forall2 R l1 l2 -> nth_error l2 i = Some y -> exists x, nth_error l1 i = Some x /\ R x y.
Proof.
  intros HF; revert i; induction HF; intros [|i] Hy; simpl in *; try discriminate.
  - inversion Hy; subst; eauto.
  - eauto.
Qed.

Lemma Forall2_nth_error_l {A B} (R : A -> B -> Prop) l1 l2 i x :
  Forall2 R l1 l2 -> nth_error l1 i = Some x -> exists y, nth_error l2 i = Some y /\ R x y.
Proof.
  intros HF; revert i; induction HF; intros [|i] Hx; simpl in *; try discriminate.
  - inversion Hx; subst; eauto.
  - eauto.
Qed.

(** ** The widening loop *)

Lemma Equals_true a b : Equals a b = true <-> a = b.
Proof. unfold Equals; destruct (DataType_eq_dec a b); split; congruence. Qed.

Lemma Equals_refl a : Equals a a = true.
Proof. apply Equals_true; reflexivity. Qed.

Lemma Equals_false a b : a <> b -> Equals a b = false.
Proof. unfold Equals; destruct (DataType_eq_dec a b); congruence. Qed.

(** Each widening pass: the result jumps to [x] iff some later type is [x]. *)
Lemma widen_pass (x : DataType) (l : list DataType) (r : DataType) :
  fold_left (fun r t => if Equals t x then x else r) l r =
  if existsb (fun t => Equals t x) l then x else r.
Proof.
  revert r; induction l as [|t l IH]; intros r; simpl; [reflexivity|].
  rewrite IH. destruct (Equals t x) eqn:E; simpl; destruct (existsb _ l); reflexivity.
Qed.

Lemma existsb_Equals_In x l : existsb (fun t => Equals t x) l = true <-> In x l.
Proof.
  rewrite existsb_exists; split.
  - intros [t [Ht HE]]. apply Equals_true in HE; subst; auto.
  - intros H; exists x; split; auto; apply Equals_refl.
Qed.

Lemma existsb_Equals_notIn x l : existsb (fun t => Equals t x) l = false <-> ~ In x l.
Proof.
  rewrite <- existsb_Equals_In. destruct (existsb _ _); split; congruence.
Qed.

Ltac dt_simpl :=
  repeat match goal with
         | |- context [Equals ?a ?a] => rewrite Equals_refl
         | |- context [Equals ?a ?b] => rewrite (Equals_false a b) by discriminate
         end.

Lemma loosen_column_utf8_first ts : loosen_column (utf8 :: ts) = utf8.
Proof. simpl. dt_simpl. reflexivity. Qed.

Lemma loosen_column_numeric ts :
  ts <> [] -> Forall numeric ts ->
  loosen_column ts = if existsb (fun t => Equals t float64) ts then float64 else int64.
Proof.
  destruct ts as [|t0 rest]; [congruence|]; intros _ HF.
  inversion HF as [|? ? H0 Hrest]; subst.
  assert (Hnu : ~ In utf8 rest).
  { intros Hin. rewrite Forall_forall in Hrest.
    destruct (Hrest _ Hin) as [E|[E|E]]; discriminate. }
  unfold loosen_column; rewrite !widen_pass; simpl.
  destruct H0 as [ -> | [ -> | -> ]]; dt_simpl; simpl.
  - destruct (existsb _ rest) eqn:Ef; dt_simpl;
      [rewrite (proj2 (existsb_Equals_notIn _ _) Hnu)|]; reflexivity.
  - destruct (existsb _ rest) eqn:Ef; dt_simpl;
      [rewrite (proj2 (existsb_Equals_notIn _ _) Hnu)|]; reflexivity.
  - rewrite (proj2 (existsb_Equals_notIn _ _) Hnu); reflexivity.
Qed.

Lemma loosen_column_to_utf8 t0 ts :
  in_lattice t0 -> In float64 (t0 :: ts) -> In utf8 (t0 :: ts) ->
  loosen_column (t0 :: ts) = utf8.
Proof.
  intros Ht0 Hf Hu.
  destruct Ht0 as [[ -> | [ -> | -> ]] | -> ]; [| | |apply loosen_column_utf8_first];
    simpl in Hf, Hu; unfold loosen_column; rewrite !widen_pass; dt_simpl.
  - destruct Hf as [Hf|Hf]; [discriminate|]. destruct Hu as [Hu|Hu]; [discriminate|].
    rewrite (proj2 (existsb_Equals_In _ _) Hf); dt_simpl.
    rewrite (proj2 (existsb_Equals_In _ _) Hu); reflexivity.
  - destruct Hf as [Hf|Hf]; [discriminate|]. destruct Hu as [Hu|Hu]; [discriminate|].
    rewrite (proj2 (existsb_Equals_In _ _) Hf); dt_simpl.
    rewrite (proj2 (existsb_Equals_In _ _) Hu); reflexivity.
  - destruct Hu as [Hu|Hu]; [discriminate|].
    rewrite (proj2 (existsb_Equals_In _ _) Hu); reflexivity.
Qed.

Lemma loosen_column_other t0 ts :
  ~ in_lattice t0 -> loosen_column (t0 :: ts) = t0.
Proof.
  intros H. unfold loosen_column.
  rewrite (Equals_false t0 (timestamp SECOND)) by (intro; apply H; left; left; auto).
  rewrite (Equals_false t0 int64) by (intro; apply H; left; right; left; auto).
  rewrite (Equals_false t0 float64) by (intro; apply H; left; right; right; auto).
  reflexivity.
Qed.

Lemma loosen_column_not_timestamp ts : loosen_column ts <> timestamp SECOND.
Proof.
  destruct ts as [|t0 rest]; simpl; [discriminate|].
  rewrite !widen_pass.
  destruct (Equals t0 (timestamp SECOND)) eqn:E0; dt_simpl.
  - destruct (existsb (fun t => Equals t float64) rest); dt_simpl;
      [destruct (existsb (fun t => Equals t utf8) rest)|]; discriminate.
  - assert (t0 <> timestamp SECOND) by (intro; subst; rewrite Equals_refl in E0; discriminate).
    destruct (Equals t0 int64) eqn:E1.
    + apply Equals_true in E1; subst.
      destruct (existsb (fun t => Equals t float64) rest); dt_simpl;
        [destruct (existsb (fun t => Equals t utf8) rest)|]; discriminate.
    + destruct (Equals t0 float64) eqn:E2; [destruct (existsb _ rest); [discriminate|]|]; auto.
Qed.

(** ** [TypeLoosen] column by column *)

Lemma first_nonnull_nonnull l s :
  first_nonnull l = Some s -> exists rest, nonnull l = s :: rest.
Proof.
  induction l as [|[x|] l IH]; simpl; intros H; try discriminate; eauto.
  inversion H; subst; eauto.
Qed.

Lemma first_nonnull_in l s : first_nonnull l = Some s -> In s (nonnull l).
Proof. intros H; destruct (first_nonnull_nonnull l s H) as [r ->]; left; auto. Qed.

Lemma mapM_field_col (ss : list Schema) (i : nat) (col : list Field) :
  mapM (fun sc => field sc i) ss = Ok col ->
  map (fun sc => nth_error sc i) ss = map Some col.
Proof.
  intros H; apply mapM_Ok in H; induction H as [|sc f ss col Hf _ IH]; simpl; auto.
  unfold field in Hf; destruct (nth_error sc i) eqn:E; inversion Hf; subst.
  rewrite IH; reflexivity.
Qed.

Lemma TypeLoosen_Ok_field schemas s i f :
  TypeLoosen schemas = Ok s -> nth_error s i = Some f ->
  exists f0 rest,
    map (fun sc => nth_error sc i) (nonnull schemas) = map Some (f0 :: rest) /\
    f = WithType f0 (loosen_column (map ftype (f0 :: rest))).
Proof.
  unfold TypeLoosen; intros H Hi.
  destruct (Nat.eqb _ 0); [discriminate|].
  destruct (mapM _ (seq 0 _)) as [fields|e] eqn:Hf; simpl in H; [|discriminate].
  apply mapM_Ok in H. apply mapM_Ok in Hf.
  destruct (Forall2_nth_error_r _ _ _ _ _ H Hi) as [col [Hcol Hl]].
  destruct (Forall2_nth_error_r _ _ _ _ _ Hf Hcol) as [j [Hj Hm]].
  rewrite nth_error_seq in Hj. destruct (Nat.ltb i _); inversion Hj; subst j.
  apply mapM_field_col in Hm.
  destruct col as [|f0 rest]; simpl in Hl; [discriminate|].
  inversion Hl; subst. eauto.
Qed.

Lemma TypeLoosen_Ok_length schemas s :
  TypeLoosen schemas = Ok s ->
  exists s0, first_nonnull schemas = Some s0 /\ List.length s = List.length s0 /\ s0 <> [].
Proof.
  unfold TypeLoosen; intros H.
  destruct (first_nonnull schemas) as [s0|]; simpl in H; [|discriminate].
  destruct (Nat.eqb (List.length s0) 0) eqn:E; [discriminate|].
  destruct (mapM _ (seq 0 _)) as [fields|e] eqn:Hf; simpl in H; [|discriminate].
  apply mapM_Ok, Forall2_length in H. apply mapM_Ok, Forall2_length in Hf.
  rewrite length_seq in Hf. exists s0; repeat split; try lia.
  intros ->; discriminate.
Qed.

Lemma existsb_repeat_false {A} (g : A -> bool) x n :
  g x = false -> existsb g (repeat x n) = false.
Proof. intros H; induction n; simpl; [reflexivity|]; rewrite H, IHn; reflexivity. Qed.

Lemma loosen_column_repeat t n : loosen_column (repeat t (S n)) = promote t.
Proof.
  unfold loosen_column, promote; simpl; rewrite !widen_pass.
  destruct t as [| | | | | | |[]]; dt_simpl;
    rewrite ?existsb_repeat_false by (dt_simpl; reflexivity); dt_simpl; reflexivity.
Qed.

Lemma mapM_fields_repeat (s : Schema) (c : nat) (l : list Field) (k : nat) :
  (forall j f, nth_error l j = Some f -> nth_error s (k + j) = Some f) ->
  mapM (fun i => mapM (fun sc => field sc i) (repeat s c)) (seq k (List.length l)) =
  Ok (map (fun f => repeat f c) l).
Proof.
  revert k; induction l as [|f l IH]; intros k H; simpl; [reflexivity|].
  assert (Hf : nth_error s k = Some f) by (rewrite <- (Nat.add_0_r k); apply (H 0%nat); reflexivity).
  assert (Hc : mapM (fun sc => field sc k) (repeat s c) = Ok (repeat f c)).
  { clear IH H. induction c; simpl; [reflexivity|]. unfold field at 1; rewrite Hf, IHc; reflexivity. }
  rewrite Hc; simpl.
  rewrite IH; [reflexivity|]. intros j g Hj. replace (S k + j)%nat with (k + S j)%nat by lia. apply (H (S j)); auto.
Qed.

Lemma lossen_fields_repeat (l : list Field) (n : nat) :
  mapM lossen_field (map (fun f => repeat f (S n)) l) =
  Ok (map (fun f => WithType f (promote (ftype f))) l).
Proof.
  induction l as [|f l IH]; [reflexivity|].
  cbn [map mapM]. rewrite IH.
  assert (E : lossen_field (repeat f (S n)) = Ok (WithType f (promote (ftype f)))).
  { unfold lossen_field; cbn [repeat].
    change (f :: repeat f n) with (repeat f (S n)).
    rewrite map_repeat, loosen_column_repeat; reflexivity. }
  rewrite E; reflexivity.
Qed.

Lemma nonnull_repeat (s : Schema) (m : nat) :
  nonnull (repeat (Some s) m) = repeat s m.
Proof. induction m as [|m IH]; simpl; [reflexivity|]; rewrite IH; reflexivity. Qed.

Lemma TypeLoosen_copies (s : Schema) (n : nat) :
  s <> [] ->
  TypeLoosen (repeat (Some s) (S n)) = Ok (map promote_field s).
Proof.
  intros Hs. unfold TypeLoosen. rewrite nonnull_repeat.
  change (first_nonnull (repeat (Some s) (S n))) with (Some s). cbv iota.
  destruct (Nat.eqb (List.length s) 0) eqn:E.
  - destruct s; [congruence|discriminate].
  - rewrite (mapM_fields_repeat s (S n) s 0) by (intros j f Hj; exact Hj).
    apply lossen_fields_repeat.
Qed.

Lemma promote_field_id f : ftype f <> timestamp SECOND -> promote_field f = f.
Proof.
  intros H; unfold promote_field, promote; rewrite (Equals_false _ _ H).
  destruct f; reflexivity.
Qed.

Lemma map_fixed {A} (g : A -> A) (l : list A) :
  map g l = l <-> forall x, In x l -> g x = x.
Proof.
  split.
  - induction l as [|y l IH]; simpl; intros H x Hx; [contradiction|].
    inversion H. destruct Hx as [->|Hx]; auto.
  - intros H; induction l as [|y l IH]; simpl; [reflexivity|].
    rewrite H by (left; auto). rewrite IH; auto. intros x Hx; apply H; right; auto.
Qed.

Lemma TypeLoosen_Ok_no_timestamp schemas s :
  TypeLoosen schemas = Ok s -> forall f, In f s -> ftype f <> timestamp SECOND.
Proof.
  intros H f Hf. apply In_nth_error in Hf as [i Hi].
  destruct (TypeLoosen_Ok_field _ _ _ _ H Hi) as [f0 [rest [_ ->]]].
  unfold WithType; cbn [ftype]. apply loosen_column_not_timestamp.
Qed.

Lemma first_nonnull_gather_none tables :
  Forall (fun t => t = None) tables -> first_nonnull (GlobalAllGatherv tables) = None.
Proof. induction 1 as [|t l Ht _ IH]; subst; simpl; auto. Qed.

(** ** C1: the widening lattice of [TypeLoosen] *)

(** C1 (counterexample). The reconciled type is not the least upper bound
    of the contributed types: two timestamp[s] columns reconcile to int64,
    not to timestamp[s]. *)
Lemma TypeLoosen_not_lub :
  TypeLoosen [Some (one_column (timestamp SECOND)); Some (one_column (timestamp SECOND))] =
    Ok (one_column int64).
Proof. reflexivity. Qed.

(** C1 (amended). Each reconciled field is the first non-null schema's field
    retyped by [loosen_column] over the column's types in rank order; a
    leading utf8 stays utf8; over {timestamp[s], int64, double} the result is
    double if double occurs and int64 otherwise (timestamp[s] never
    survives); a lattice type followed somewhere by double and utf8 gives
    utf8; a first type outside the lattice is kept. Hence {int64, double},
    {timestamp[s], int64} and {int64, double, utf8} reconcile, in any order,
    to double, int64 and utf8. *)
Theorem TypeLoosen_widening :
  (forall schemas s i f,
     TypeLoosen schemas = Ok s -> nth_error s i = Some f ->
     exists f0 rest,
       map (fun sc => nth_error sc i) (nonnull schemas) = map Some (f0 :: rest) /\
       f = WithType f0 (loosen_column (map ftype (f0 :: rest)))) /\
  (forall ts, loosen_column (utf8 :: ts) = utf8) /\
  (forall ts, ts <> [] -> Forall numeric ts ->
     loosen_column ts = if existsb (fun t => Equals t float64) ts then float64 else int64) /\
  (forall t0 ts, in_lattice t0 -> In float64 (t0 :: ts) -> In utf8 (t0 :: ts) ->
     loosen_column (t0 :: ts) = utf8) /\
  (forall t0 ts, ~ in_lattice t0 -> loosen_column (t0 :: ts) = t0) /\
  (TypeLoosen [Some (one_column int64); Some (one_column float64)] = Ok (one_column float64) /\
   TypeLoosen [Some (one_column float64); Some (one_column int64)] = Ok (one_column float64)) /\
  (TypeLoosen [Some (one_column (timestamp SECOND)); Some (one_column int64)] = Ok (one_column int64) /\
   TypeLoosen [Some (one_column int64); Some (one_column (timestamp SECOND))] = Ok (one_column int64)) /\
  (forall a b c, Permutation [a; b; c] [int64; float64; utf8] ->
     TypeLoosen [Some (one_column a); Some (one_column b); Some (one_column c)] =
     Ok (one_column utf8)).
Proof.
  split; [exact TypeLoosen_Ok_field|].
  split; [exact loosen_column_utf8_first|].
  split; [exact loosen_column_numeric|].
  split; [exact loosen_column_to_utf8|].
  split; [exact loosen_column_other|].
  split; [split; reflexivity|].
  split; [split; reflexivity|].
  intros a b c HP.
  assert (Ha : In a [int64; float64; utf8]) by (apply (Permutation_in a HP); left; auto).
  assert (Hb : In b [int64; float64; utf8]) by (apply (Permutation_in b HP); right; left; auto).
  assert (Hc : In c [int64; float64; utf8]) by (apply (Permutation_in c HP); right; right; left; auto).
  assert (Hn : NoDup [a; b; c]).
  { apply (Permutation_NoDup (Permutation_sym HP)).
    repeat constructor; simpl; intuition discriminate. }
  simpl in Ha, Hb, Hc.
  destruct Ha as [<-|[<-|[<-|[]]]]; destruct Hb as [<-|[<-|[<-|[]]]];
    destruct Hc as [<-|[<-|[<-|[]]]]; try reflexivity;
    exfalso; inversion Hn as [|? ? Hn1 Hn2]; inversion Hn2 as [|? ? Hn3 _];
    simpl in *; intuition.
Qed.

Lemma promote_field_fixed f : promote_field f = f <-> ftype f <> timestamp SECOND.
Proof.
  split; [|apply promote_field_id].
  intros H E. assert (Ht : ftype (promote_field f) = ftype f) by (rewrite H; reflexivity).
  unfold promote_field, promote in Ht; rewrite E in Ht; simpl in Ht. discriminate.
Qed.

(** ** C9: reconciling a schema with itself *)

(** C9 (counterexample). Reconciling a schema with a timestamp[s] column
    with itself does not return it: the column becomes int64. *)
Lemma TypeLoosen_self_not_identity :
  TypeLoosen [Some (one_column (timestamp SECOND)); Some (one_column (timestamp SECOND))]
    <> Ok (one_column (timestamp SECOND)).
Proof. vm_compute; discriminate. Qed.

(** C9 (amended). A reconciled schema [S] is a fixed point: reconciling [S]
    alone, or with a copy of itself, returns [S]. Any non-empty schema
    reconciled alone or with copies of itself comes back with its
    timestamp[s] columns retyped to int64, which is the identity exactly
    when it has no timestamp[s] column. *)
Theorem TypeLoosen_idempotent :
  (forall schemas s, TypeLoosen schemas = Ok s ->
     TypeLoosen [Some s] = Ok s /\ TypeLoosen [Some s; Some s] = Ok s) /\
  (forall s n, s <> [] ->
     TypeLoosen (repeat (Some s) (S n)) = Ok (map promote_field s) /\
     (map promote_field s = s <-> forall f, In f s -> ftype f <> timestamp SECOND)).
Proof.
  assert (Hfix : forall s, map promote_field s = s <->
                           forall f, In f s -> ftype f <> timestamp SECOND).
  { intros s; rewrite map_fixed; split; intros H f Hf; apply promote_field_fixed; auto. }
  split.
  - intros schemas s H.
    destruct (TypeLoosen_Ok_length _ _ H) as [s0 [_ [Hl Hs0]]].
    assert (Hs : s <> []) by (destruct s, s0; simpl in Hl; congruence).
    assert (Hid : map promote_field s = s)
      by (apply Hfix; exact (TypeLoosen_Ok_no_timestamp _ _ H)).
    split.
    + pose proof (TypeLoosen_copies s 0 Hs) as E; rewrite Hid in E; exact E.
    + pose proof (TypeLoosen_copies s 1 Hs) as E; rewrite Hid in E; exact E.
  - intros s n Hs. split; [exact (TypeLoosen_copies s n Hs)|apply Hfix].
Qed.

Lemma TypeLoosen_idempotent_witness :
  TypeLoosen [Some (one_column int64); Some (one_column float64)] = Ok (one_column float64) /\
  TypeLoosen [Some (one_column float64); Some (one_column float64)] = Ok (one_column float64) /\
  TypeLoosen [Some (one_column (timestamp SECOND))] =
    Ok (map promote_field (one_column (timestamp SECOND))).
Proof.
  split; [reflexivity|]. split.
  - exact (proj2 (proj1 TypeLoosen_idempotent _ _ (eq_refl : TypeLoosen
      [Some (one_column int64); Some (one_column float64)] = Ok (one_column float64)))).
  - refine (proj1 (proj2 TypeLoosen_idempotent (one_column (timestamp SECOND)) 0%nat _)).
    discriminate.
Defined.

(** ** C10: every local table absent *)

(** C10. When every worker's local table is absent, reconciling the
    gathered schemas fails with InvalidOperation "Every schema is empty",
    and so does [SyncSchema] on every worker. *)
Theorem SyncSchema_all_null (tables : list (option Table)) :
  Forall (fun t => t = None) tables ->
  TypeLoosen (GlobalAllGatherv tables) =
    Err (GSError kInvalidOperationError "Every schema is empty") /\
  Forall (fun r => r = Err (GSError kInvalidOperationError "Every schema is empty"))
    (SyncSchema_group tables).
Proof.
  intros Hnone.
  assert (HT : TypeLoosen (GlobalAllGatherv tables) =
               Err (GSError kInvalidOperationError "Every schema is empty")).
  { unfold TypeLoosen. rewrite (first_nonnull_gather_none _ Hnone). reflexivity. }
  split; [exact HT|].
  unfold SyncSchema_group. apply Forall_map.
  apply Forall_forall; intros t _. unfold SyncSchema. rewrite HT. reflexivity.
Qed.

Lemma SyncSchema_all_null_witness :
  Forall (fun t : option Table => t = None) [None; None; None] /\
  TypeLoosen (GlobalAllGatherv [None; None; None]) =
    Err (GSError kInvalidOperationError "Every schema is empty").
Proof.
  split; [repeat constructor|].
  apply (proj1 (SyncSchema_all_null [None; None; None] ltac:(repeat constructor))).
Defined.

Lemma Forall2_Forall_r {A B} (R : A -> B -> Prop) (Q : B -> Prop) l l' :
  Forall2 R l l' -> (forall x y, R x y -> Q y) -> Forall Q l'.
Proof. induction 1; constructor; eauto. Qed.

Lemma lossen_fields_Ok (fields : list (list Field)) :
  Forall (fun c => c <> []) fields -> exists s, mapM lossen_field fields = Ok s.
Proof.
  intros H; apply mapM_all_Ok; intros c Hc.
  rewrite Forall_forall in H. specialize (H c Hc).
  destruct c; [congruence|simpl; eauto].
Qed.

(** [TypeLoosen] succeeds when the first non-null schema has a column and
    no non-null schema is shorter than it. *)
Lemma TypeLoosen_Ok_suff schemas s0 :
  first_nonnull schemas = Some s0 -> s0 <> [] ->
  (forall sc, In sc (nonnull schemas) -> (List.length s0 <= List.length sc)%nat) ->
  exists s, TypeLoosen schemas = Ok s.
Proof.
  intros Hf Hs0 Hlen. unfold TypeLoosen. rewrite Hf.
  destruct (Nat.eqb (List.length s0) 0) eqn:E.
  { destruct s0; [congruence|discriminate]. }
  destruct (first_nonnull_nonnull _ _ Hf) as [rest Hnn].
  destruct (mapM_all_Ok (fun i => mapM (fun s => field s i) (nonnull schemas))
              (seq 0 (List.length s0))) as [fields Hfields].
  { intros i Hi. apply in_seq in Hi. apply mapM_all_Ok. intros sc Hsc.
    unfold field. specialize (Hlen sc Hsc).
    destruct (nth_error sc i) eqn:En; eauto.
    apply nth_error_None in En. lia. }
  rewrite Hfields; simpl. apply lossen_fields_Ok.
  apply (Forall2_Forall_r _ _ _ _ (mapM_Ok _ _ _ Hfields)).
  intros i c Hc. rewrite Hnn in Hc; simpl in Hc.
  destruct (field s0 i); [|discriminate]; simpl in Hc.
  destruct (mapM (fun s => field s i) rest); simpl in Hc; inversion Hc; discriminate.
Qed.

Lemma EmptyTableBuilder_Build_spec schema :
  exists t, EmptyTableBuilder_Build schema = Ok t /\ tschema t = schema /\
    num_rows t = 0%nat /\ map ctype (tcolumns t) = map ftype schema.
Proof.
  eexists; split; [reflexivity|]. simpl. split; [reflexivity|]. split.
  - unfold num_rows; simpl. destruct schema as [|f s]; simpl; [reflexivity|].
    unfold column_length, array_length; simpl. destruct (ftype f); reflexivity.
  - rewrite map_map; reflexivity.
Qed.

(** ** C3: workers without a local table *)

(** C3 (counterexample). A non-null schema without columns does not let an
    absent table be synthesised: every worker fails with "Every schema is
    empty". *)
Lemma SyncSchema_absent_not_synthesised :
  SyncSchema_group [Some (mkTable [] [] []); None] =
    [Err (GSError kInvalidOperationError "Every schema is empty");
     Err (GSError kInvalidOperationError "Every schema is empty")].
Proof. reflexivity. Qed.

Lemma TypeLoosen_no_columns schemas :
  first_nonnull schemas = None \/ first_nonnull schemas = Some [] ->
  TypeLoosen schemas = Err (GSError kInvalidOperationError "Every schema is empty").
Proof. unfold TypeLoosen; intros [-> | ->]; reflexivity. Qed.

Lemma mapM_field_short ss i :
  (exists sc, In sc ss /\ (List.length sc <= i)%nat) ->
  mapM (fun s => field s i) ss = Err (UndefinedBehaviour "Schema::field index out of range").
Proof.
  intros [sc [Hsc Hlen]].
  destruct (mapM_first_bad (fun s => field s i)
              (fun e => e = UndefinedBehaviour "Schema::field index out of range") ss)
    as [e [He ->]]; [|exists sc, (UndefinedBehaviour "Schema::field index out of range")|].
  - intros x _. unfold field. destruct (nth_error x i); eauto.
  - split; [exact Hsc|]. split; [|reflexivity]. unfold field.
    rewrite (proj2 (nth_error_None sc i) Hlen). reflexivity.
  - exact He.
Qed.

Lemma TypeLoosen_short_later schemas s0 sc :
  first_nonnull schemas = Some s0 -> In sc (nonnull schemas) ->
  (List.length sc < List.length s0)%nat ->
  TypeLoosen schemas = Err (UndefinedBehaviour "Schema::field index out of range").
Proof.
  intros Hf Hsc Hlt. unfold TypeLoosen. rewrite Hf.
  destruct (Nat.eqb (List.length s0) 0) eqn:E; [apply Nat.eqb_eq in E; lia|].
  destruct (mapM_first_bad (fun i => mapM (fun s => field s i) (nonnull schemas))
              (fun e => e = UndefinedBehaviour "Schema::field index out of range")
              (seq 0 (List.length s0))) as [e [He ->]].
  - intros i _. destruct (mapM (fun s => field s i) (nonnull schemas)) as [l|e] eqn:Em;
      [left; eauto|right; exists e; split; [reflexivity|]].
    apply mapM_Err in Em as [x [_ Hx]]. unfold field in Hx.
    destruct (nth_error x i); inversion Hx; reflexivity.
  - exists (List.length sc), (UndefinedBehaviour "Schema::field index out of range").
    split; [apply in_seq; lia|]. split; [|reflexivity].
    apply mapM_field_short. exists sc; split; [exact Hsc|lia].
  - rewrite He. reflexivity.
Qed.

Lemma SyncSchema_group_Err tables e :
  TypeLoosen (GlobalAllGatherv tables) = Err e ->
  Forall (fun r => r = Err e) (SyncSchema_group tables).
Proof.
  intros H. unfold SyncSchema_group. apply Forall_forall. intros r Hr.
  apply in_map_iff in Hr as [t [<- _]]. unfold SyncSchema. rewrite H. reflexivity.
Qed.

(** C3 (amended). Modelled from the spec: [EmptyTableBuilder::Build]. If the
    first non-null gathered schema has at least one column and no non-null
    gathered schema has fewer columns, reconciliation succeeds and a worker
    whose local table is absent gets from [SyncSchema] a zero-row table
    whose schema is the reconciled one, its column types the reconciled
    types. If every gathered schema is null, or the first non-null one has
    no columns, every worker fails with InvalidOperation "Every schema is
    empty". If a later non-null schema has fewer columns than the first,
    the field read past its end is out of range (undefined behaviour) and
    no worker gets a table. *)
Theorem SyncSchema_absent_table :
  (forall (tables : list (option Table)) (j : nat) (s0 : Schema),
     nth_error tables j = Some None ->
     first_nonnull (GlobalAllGatherv tables) = Some s0 -> s0 <> [] ->
     (forall sc, In sc (nonnull (GlobalAllGatherv tables)) ->
        (List.length s0 <= List.length sc)%nat) ->
     exists s t, TypeLoosen (GlobalAllGatherv tables) = Ok s /\
       nth_error (SyncSchema_group tables) j = Some (Ok t) /\
       tschema t = s /\ num_rows t = 0%nat /\ map ctype (tcolumns t) = map ftype s) /\
  (forall (tables : list (option Table)),
     first_nonnull (GlobalAllGatherv tables) = None \/
     first_nonnull (GlobalAllGatherv tables) = Some [] ->
     Forall (fun r => r = Err (GSError kInvalidOperationError "Every schema is empty"))
            (SyncSchema_group tables)) /\
  (forall (tables : list (option Table)) (s0 sc : Schema),
     first_nonnull (GlobalAllGatherv tables) = Some s0 ->
     In sc (nonnull (GlobalAllGatherv tables)) -> (List.length sc < List.length s0)%nat ->
     Forall (fun r => r = Err (UndefinedBehaviour "Schema::field index out of range"))
            (SyncSchema_group tables)).
Proof.
  split; [|split].
  - intros tables j s0 Hj Hf Hs0 Hlen.
    destruct (TypeLoosen_Ok_suff _ _ Hf Hs0 Hlen) as [s Hs].
    destruct (EmptyTableBuilder_Build_spec s) as [t [Ht Hprops]].
    exists s, t. split; [exact Hs|]. split; [|exact Hprops].
    unfold SyncSchema_group. rewrite nth_error_map, Hj. simpl.
    unfold SyncSchema. rewrite Hs. simpl. rewrite Ht. reflexivity.
  - intros tables H. apply SyncSchema_group_Err, TypeLoosen_no_columns, H.
  - intros tables s0 sc Hf Hsc Hlt.
    apply SyncSchema_group_Err, (TypeLoosen_short_later _ _ _ Hf Hsc Hlt).
Qed.

Lemma SyncSchema_absent_table_witness :
  (SyncSchema_group [None; Some double_table] =
     [Ok (mkTable (one_column float64) [] [mkChunked float64 [mkArray float64 (DoubleData [])]]);
      Ok double_table] /\
   exists s t, TypeLoosen (GlobalAllGatherv [None; Some double_table]) = Ok s /\
     nth_error (SyncSchema_group [None; Some double_table]) 0 = Some (Ok t) /\
     tschema t = s /\ num_rows t = 0%nat /\ map ctype (tcolumns t) = map ftype s) /\
  Forall (fun r => r = Err (GSError kInvalidOperationError "Every schema is empty"))
         (SyncSchema_group [None; Some (mkTable [] [] []); Some double_table]) /\
  Forall (fun r => r = Err (UndefinedBehaviour "Schema::field index out of range"))
         (SyncSchema_group [Some double_table; Some (mkTable [] [] []); None]).
Proof.
  split; [split|split].
  - reflexivity.
  - apply (proj1 SyncSchema_absent_table _ 0%nat (one_column float64));
      [reflexivity|reflexivity|discriminate|].
    simpl; intros sc [<-|[]]; simpl; lia.
  - apply (proj1 (proj2 SyncSchema_absent_table)). right; reflexivity.
  - apply (proj2 (proj2 SyncSchema_absent_table) _ (one_column float64) []);
      [reflexivity|simpl; right; left; reflexivity|simpl; lia].
Defined.

Lemma columns_fit_nth fs cs :
  columns_fit fs cs = true ->
  List.length fs = List.length cs /\
  forall i f c, nth_error fs i = Some f -> nth_error cs i = Some c -> column_fits f c = true.
Proof.
  revert cs; induction fs as [|f fs IH]; intros [|c cs]; simpl; try discriminate.
  - split; [reflexivity|intros [|i]; discriminate].
  - intros H; apply andb_true_iff in H as [Hc H]. destruct (IH cs H) as [Hl Hn].
    split; [lia|]. intros [|i] f' c' Hf Hc'; simpl in *; eauto. congruence.
Qed.

Lemma cast_chunk_unsupported from to a :
  supported_cast from to = false ->
  exists msg, cast_chunk from to a = Err (GSError kDataTypeError msg).
Proof.
  unfold supported_cast, cast_chunk; intros H. apply orb_false_iff in H as [H1 H2].
  rewrite H1, H2; eauto.
Qed.

Lemma cast_chunk_supported from to a :
  supported_cast from to = true -> array_fits from a = true ->
  exists a', cast_chunk from to a = Ok a' /\ atype a' = to /\
    (from = int64 -> exists vs, adata a = IntData vs /\
                               adata a' = DoubleData (map int64_to_double vs)) /\
    (from = timestamp SECOND -> adata a' = adata a).
Proof.
  unfold supported_cast, array_fits; intros H Ha.
  apply andb_true_iff in Ha as [Ht Hd]. apply Equals_true in Ht.
  apply orb_true_iff in H as [H|H]; apply andb_true_iff in H as [H1 H2];
    apply Equals_true in H1, H2; subst; unfold cast_chunk; simpl.
  - unfold CastIntToDouble. rewrite Ht; simpl.
    destruct a as [ty [vs| | |]]; simpl in *; try discriminate.
    eexists; split; [reflexivity|]. split; [reflexivity|]. split; [eauto|discriminate].
  - unfold CastDateToInt. rewrite Ht; simpl.
    eexists; split; [reflexivity|]. split; [reflexivity|]. split; [discriminate|reflexivity].
Qed.

Lemma cast_column_eq t schema i f sf c :
  nth_error (tcolumns t) i = Some c -> nth_error (tschema t) i = Some f ->
  nth_error schema i = Some sf ->
  cast_column t schema i =
    if negb (Equals (ftype f) (ftype sf))
    then (cs <- mapM (cast_chunk (ftype f) (ftype sf)) (chunks c);;
          Ok (mkChunked (ftype sf) cs))
    else Ok c.
Proof. intros Hc Hf Hs; unfold cast_column, field; rewrite Hc, Hf, Hs; reflexivity. Qed.

(** One column of a well-formed table: its cast succeeds or fails with a
    data-type error. *)
Lemma cast_column_classify t schema i f sf c :
  wf_table t = true ->
  nth_error (tcolumns t) i = Some c -> nth_error (tschema t) i = Some f ->
  nth_error schema i = Some sf ->
  (Equals (ftype f) (ftype sf) = true -> cast_column t schema i = Ok c) /\
  (Equals (ftype f) (ftype sf) = false -> supported_cast (ftype f) (ftype sf) = true ->
   exists cs, cast_column t schema i = Ok (mkChunked (ftype sf) cs) /\
     Forall2 (fun a a' => cast_chunk (ftype f) (ftype sf) a = Ok a') (chunks c) cs) /\
  (Equals (ftype f) (ftype sf) = false -> supported_cast (ftype f) (ftype sf) = false ->
   chunks c = [] -> cast_column t schema i = Ok (mkChunked (ftype sf) [])) /\
  (Equals (ftype f) (ftype sf) = false -> supported_cast (ftype f) (ftype sf) = false ->
   chunks c <> [] -> exists msg, cast_column t schema i = Err (GSError kDataTypeError msg)).
Proof.
  intros Hwf Hc Hf Hs. rewrite (cast_column_eq t schema i f sf c Hc Hf Hs).
  destruct (columns_fit_nth _ _ Hwf) as [_ Hfit]. specialize (Hfit i f c Hf Hc).
  unfold column_fits in Hfit. apply andb_true_iff in Hfit as [_ Hfit].
  rewrite forallb_forall in Hfit.
  split; [intros E; rewrite E; reflexivity|]. split; [|split].
  - intros E Hsup; rewrite E; simpl.
    destruct (mapM_all_Ok (cast_chunk (ftype f) (ftype sf)) (chunks c)) as [cs Hcs].
    { intros a Ha. destruct (cast_chunk_supported _ _ a Hsup (Hfit a Ha)) as [a' [Ha' _]]; eauto. }
    rewrite Hcs; simpl. eexists; split; [reflexivity|]. apply mapM_Ok; exact Hcs.
  - intros E _ ->; rewrite E; reflexivity.
  - intros E Hsup Hne; rewrite E; simpl.
    destruct (chunks c) as [|a rest]; [congruence|]. simpl.
    destruct (cast_chunk_unsupported _ _ a Hsup) as [msg ->]. simpl; eauto.
Qed.

Lemma table_column_at (t : Table) (schema : Schema) (i : nat) :
  wf_table t = true -> List.length schema = List.length (tcolumns t) ->
  (i < List.length (tcolumns t))%nat ->
  exists f sf c, nth_error (tschema t) i = Some f /\ nth_error schema i = Some sf /\
                 nth_error (tcolumns t) i = Some c.
Proof.
  intros Hwf Hl Hi. destruct (columns_fit_nth _ _ Hwf) as [Hl' _].
  destruct (nth_error (tschema t) i) as [f|] eqn:Ef;
    [|apply nth_error_None in Ef; lia].
  destruct (nth_error schema i) as [sf|] eqn:Es; [|apply nth_error_None in Es; lia].
  destruct (nth_error (tcolumns t) i) as [c|] eqn:Ec; [eauto 7|apply nth_error_None in Ec; lia].
Qed.

Lemma cast_column_ok_or_datatype t schema i f sf c :
  wf_table t = true ->
  nth_error (tcolumns t) i = Some c -> nth_error (tschema t) i = Some f ->
  nth_error schema i = Some sf ->
  (exists y, cast_column t schema i = Ok y) \/
  (exists e, cast_column t schema i = Err e /\ exists msg, e = GSError kDataTypeError msg).
Proof.
  intros Hwf Hc Hf Hs.
  destruct (cast_column_classify t schema i f sf c Hwf Hc Hf Hs) as [H1 [H2 [H3 H4]]].
  destruct (Equals (ftype f) (ftype sf)) eqn:E; [left; eauto|].
  destruct (supported_cast (ftype f) (ftype sf)) eqn:S.
  - destruct (H2 eq_refl eq_refl) as [cs [-> _]]; left; eauto.
  - destruct (chunks c) eqn:Ch; [left; eauto|].
    destruct (H4 eq_refl eq_refl ltac:(discriminate)) as [msg ->]; right; eauto.
Qed.

(** ** C2: casting a local table to the reconciled schema *)

(** C2 (counterexample). A utf8 column without chunks is retyped to int64
    without any error, and the int64 value 2^53 + 1 becomes the double 2^53. *)
Lemma CastTableToSchema_not_exact_nor_fatal :
  CastTableToSchema (mkTable (one_column utf8) [] [mkChunked utf8 []]) (one_column int64) =
    Ok (mkTable (one_column int64) [] [mkChunked int64 []]) /\
  CastTableToSchema (mkTable (one_column int64) [] [mkChunked int64 [mkArray int64 (IntData [2 ^ 53 + 1])]])
    (one_column float64) =
    Ok (mkTable (one_column float64) []
          [mkChunked float64 [mkArray float64 (DoubleData [int64_to_double (2 ^ 53 + 1)])]]) /\
  double_Z_value (int64_to_double (2 ^ 53 + 1)) = Some (2 ^ 53).
Proof. split; [reflexivity|]. split; [reflexivity|]. vm_compute; reflexivity. Qed.

(** C2 (amended). For a well-formed table and a schema of as many fields,
    different from the table's: the mismatches cast are int64 to double,
    each element through [static_cast<double>] (round to nearest, exact only
    up to 2^53), and timestamp[s] to int64, the same buffer retyped; any
    other mismatch on a column with at least one chunk makes the cast fail
    with a data-type error, while a mismatched column without chunks is
    retyped without error. *)
Theorem CastTableToSchema_casts (t : Table) (schema : Schema) :
  wf_table t = true -> List.length schema = List.length (tcolumns t) ->
  SchemaEquals (tschema t) schema = false ->
  ((exists i f sf c, nth_error (tschema t) i = Some f /\ nth_error schema i = Some sf /\
      nth_error (tcolumns t) i = Some c /\ ftype f <> ftype sf /\
      supported_cast (ftype f) (ftype sf) = false /\ chunks c <> []) ->
   exists msg, CastTableToSchema t schema = Err (GSError kDataTypeError msg)) /\
  ((forall i f sf c, nth_error (tschema t) i = Some f -> nth_error schema i = Some sf ->
      nth_error (tcolumns t) i = Some c -> ftype f <> ftype sf -> chunks c <> [] ->
      supported_cast (ftype f) (ftype sf) = true) ->
   exists cols, CastTableToSchema t schema = Ok (mkTable schema [] cols) /\
   forall i f sf c, nth_error (tschema t) i = Some f -> nth_error schema i = Some sf ->
     nth_error (tcolumns t) i = Some c ->
     exists c', nth_error cols i = Some c' /\
       (ftype f = ftype sf -> c' = c) /\
       (ftype f <> ftype sf -> ctype c' = ftype sf /\
          Forall2 (fun a a' => atype a' = ftype sf /\
             (ftype f = int64 -> exists vs, adata a = IntData vs /\
                                 adata a' = DoubleData (map int64_to_double vs)) /\
             (ftype f = timestamp SECOND -> adata a' = adata a))
            (chunks c) (chunks c'))).
Proof.
  intros Hwf Hl Hneq. unfold CastTableToSchema. rewrite Hneq.
  rewrite <- Hl, Nat.eqb_refl; simpl. split.
  - intros [i [f [sf [c [Hf [Hs [Hc [Hd [Hsup Hne]]]]]]]]].
    destruct (mapM_first_bad (cast_column t schema)
                (fun e => exists msg, e = GSError kDataTypeError msg)
                (seq 0 (List.length schema))) as [e [Hm [msg ->]]].
    + intros x Hx. apply in_seq in Hx.
      destruct (table_column_at t schema x Hwf Hl ltac:(lia)) as [f' [sf' [c' [Hf' [Hs' Hc']]]]].
      exact (cast_column_ok_or_datatype t schema x f' sf' c' Hwf Hc' Hf' Hs').
    + destruct (cast_column_classify t schema i f sf c Hwf Hc Hf Hs) as [_ [_ [_ H4]]].
      destruct (H4 (Equals_false _ _ Hd) Hsup Hne) as [msg Hm].
      exists i, (GSError kDataTypeError msg). split; [|eauto].
      apply in_seq. split; [lia|]. rewrite Hl. apply nth_error_Some; congruence.
    + rewrite Hm; simpl; eauto.
  - intros Hsup.
    assert (Hcol : forall i, (i < List.length schema)%nat ->
              exists f sf c, nth_error (tschema t) i = Some f /\ nth_error schema i = Some sf /\
                nth_error (tcolumns t) i = Some c /\
                forall y, cast_column t schema i = Ok y ->
                  (ftype f = ftype sf -> y = c) /\
                  (ftype f <> ftype sf -> ctype y = ftype sf /\
                     Forall2 (fun a a' => cast_chunk (ftype f) (ftype sf) a = Ok a')
                       (chunks c) (chunks y))).
    { intros i Hi.
      destruct (table_column_at t schema i Hwf Hl ltac:(lia)) as [f [sf [c [Hf [Hs Hc]]]]].
      exists f, sf, c. split; [exact Hf|]. split; [exact Hs|]. split; [exact Hc|].
      intros y Hy.
      destruct (cast_column_classify t schema i f sf c Hwf Hc Hf Hs) as [H1 [H2 [H3 _]]].
      destruct (Equals (ftype f) (ftype sf)) eqn:E.
      - apply Equals_true in E. split; [intros _; rewrite (H1 eq_refl) in Hy; congruence|contradiction].
      - split; [intros E'; rewrite E', Equals_refl in E; discriminate|intros Hd].
        destruct (chunks c) as [|a rest] eqn:Ch.
        + destruct (supported_cast (ftype f) (ftype sf)) eqn:S.
          * destruct (H2 eq_refl eq_refl) as [cs [Hcs HF]]. rewrite Hy in Hcs.
            inversion Hcs; subst; simpl. inversion HF; auto.
          * rewrite (H3 eq_refl eq_refl eq_refl) in Hy. inversion Hy; subst; simpl; auto.
        + assert (S : supported_cast (ftype f) (ftype sf) = true)
            by (apply (Hsup i f sf c Hf Hs Hc Hd); congruence).
          destruct (H2 eq_refl S) as [cs [Hcs HF]]. rewrite Hy in Hcs.
          inversion Hcs; subst; simpl. split; [reflexivity|exact HF]. }
    destruct (mapM_all_Ok (cast_column t schema) (seq 0 (List.length schema))) as [cols Hcols].
    { intros x Hx. apply in_seq in Hx.
      destruct (table_column_at t schema x Hwf Hl ltac:(lia)) as [f [sf [c [Hf [Hs Hc]]]]].
      destruct (cast_column_ok_or_datatype t schema x f sf c Hwf Hc Hf Hs) as [Ok'|[e [He _]]];
        [exact Ok'|].
      destruct (cast_column_classify t schema x f sf c Hwf Hc Hf Hs) as [H1 [H2 [H3 _]]].
      destruct (Equals (ftype f) (ftype sf)) eqn:E; [rewrite (H1 eq_refl) in He; discriminate|].
      destruct (supported_cast (ftype f) (ftype sf)) eqn:S.
      - destruct (H2 eq_refl eq_refl) as [cs [Hcs _]]; congruence.
      - destruct (chunks c) eqn:Ch; [rewrite (H3 eq_refl eq_refl eq_refl) in He; discriminate|].
        assert (Hd : ftype f <> ftype sf) by (intros E'; rewrite E', Equals_refl in E; discriminate).
        rewrite (Hsup x f sf c Hf Hs Hc Hd ltac:(congruence)) in S; discriminate. }
    rewrite Hcols; simpl. exists cols. split; [reflexivity|].
    intros i f sf c Hf Hs Hc.
    assert (Hi : (i < List.length schema)%nat) by (apply nth_error_Some; congruence).
    destruct (Forall2_nth_error_l _ _ _ i i (mapM_Ok _ _ _ Hcols))
      as [c' [Hc' Hcast]]; [rewrite nth_error_seq; apply Nat.ltb_lt in Hi; rewrite Hi; reflexivity|].
    destruct (Hcol i Hi) as [f0 [sf0 [c0 [Hf0 [Hs0 [Hc0 Hprop]]]]]].
    rewrite Hf in Hf0; rewrite Hs in Hs0; rewrite Hc in Hc0.
    inversion Hf0; inversion Hs0; inversion Hc0; subst f0 sf0 c0.
    destruct (Hprop c' Hcast) as [P1 P2].
    exists c'. split; [exact Hc'|]. split; [exact P1|].
    intros Hd. destruct (P2 Hd) as [Pt PF]. split; [exact Pt|].
    destruct (columns_fit_nth _ _ Hwf) as [_ Hfit]. specialize (Hfit i f c Hf Hc).
    unfold column_fits in Hfit. apply andb_true_iff in Hfit as [_ Hfit].
    rewrite forallb_forall in Hfit.
    assert (Hsup' : chunks c <> [] -> supported_cast (ftype f) (ftype sf) = true)
      by (apply (Hsup i f sf c Hf Hs Hc Hd)).
    clear -PF Hfit Hsup'.
    induction PF as [|a a' l l' Ha HF IH]; constructor.
    + destruct (cast_chunk_supported _ _ a (Hsup' ltac:(discriminate)) (Hfit a (or_introl eq_refl)))
        as [a'' [Ha'' [T [I D]]]].
      rewrite Ha in Ha''; inversion Ha''; subst a''. auto.
    + apply IH; [intros x Hx; apply Hfit; right; exact Hx|intros _; apply Hsup'; discriminate].
Qed.

Lemma CastTableToSchema_casts_witness :
  exists msg, CastTableToSchema string_table (one_column int64) =
              Err (GSError kDataTypeError msg).
Proof.
  refine (proj1 (CastTableToSchema_casts string_table (one_column int64)
                   eq_refl eq_refl eq_refl) _).
  exists 0%nat, (mkField "x" utf8 true), (mkField "x" int64 true),
    (mkChunked utf8 [mkArray utf8 (StrData ["7"])]).
  split; [reflexivity|]. split; [reflexivity|]. split; [reflexivity|].
  split; [discriminate|]. split; [reflexivity|discriminate].
Defined.

Lemma update_nth_length {A} n (x : A) l : List.length (update_nth n x l) = List.length l.
Proof. revert n; induction l as [|y l IH]; intros [|n]; simpl; auto. Qed.

Lemma update_nth_same {A} n (x : A) l :
  (n < List.length l)%nat -> nth_error (update_nth n x l) n = Some x.
Proof. revert n; induction l as [|y l IH]; intros [|n] H; simpl in *; try lia; auto; apply IH; lia. Qed.

Lemma update_nth_other {A} n m (x : A) l :
  n <> m -> nth_error (update_nth n x l) m = nth_error l m.
Proof.
  revert n m; induction l as [|y l IH]; intros [|n] [|m] H; simpl; auto; congruence.
Qed.

Lemma vec_at_nat {A} (l : list A) i : 0 <= i -> vec_at l i = nth_error l (Z.to_nat i).
Proof. intros H; unfold vec_at. destruct (i <? 0) eqn:E; [lia|reflexivity]. Qed.

Lemma fill_label_list_ok kind pairs num bitset names :
  List.length bitset = Z.to_nat num -> List.length names = Z.to_nat num ->
  Forall (fun p => 0 <= snd p < num) pairs -> NoDup (map snd pairs) ->
  (forall p, In p pairs -> nth_error bitset (Z.to_nat (snd p)) = Some false) ->
  exists names', fill_label_list kind pairs num bitset names = Ok names' /\
    List.length names' = Z.to_nat num /\
    (forall p, In p pairs -> nth_error names' (Z.to_nat (snd p)) = Some (fst p)) /\
    (forall i, (forall p, In p pairs -> Z.to_nat (snd p) <> i) ->
               nth_error names' i = nth_error names i).
Proof.
  revert bitset names; induction pairs as [|[name idx] rest IH];
    intros bitset names Hb Hn Hr Hd Hfree; simpl.
  - exists names; repeat split; auto; intros p [].
  - inversion Hr as [|? ? [H0 H1] Hr']; subst; simpl in *.
    inversion Hd as [|? ? Hnotin Hd']; subst.
    destruct (idx >? num) eqn:E; [lia|].
    rewrite vec_at_nat by lia. rewrite (Hfree (name, idx) (or_introl eq_refl) : nth_error bitset (Z.to_nat idx) = Some false).
    destruct (IH (update_nth (Z.to_nat idx) true bitset) (update_nth (Z.to_nat idx) name names))
      as [names' [Hf [Hl [Hin Hframe]]]]; auto; try (rewrite update_nth_length; auto).
    { intros p Hp. rewrite update_nth_other; [apply Hfree; auto|].
      intros Heq. apply Hnotin. rewrite Forall_forall in Hr'. specialize (Hr' p Hp).
      replace idx with (snd p) by lia. apply in_map; auto. }
    exists names'. split; [exact Hf|]. split; [exact Hl|]. split.
    + intros p [<-|Hp]; [|auto]. simpl. rewrite Hframe.
      * apply update_nth_same. lia.
      * intros p Hp Heq. apply Hnotin. rewrite Forall_forall in Hr'. specialize (Hr' p Hp).
        replace idx with (snd p) by lia. apply in_map; auto.
    + intros i Hi. rewrite Hframe by auto. apply update_nth_other.
      intros Heq; apply (Hi (name, idx)); auto.
Qed.

Lemma fill_label_list_err kind pairs num bitset names :
  List.length bitset = Z.to_nat num ->
  Forall (fun p => 0 <= snd p /\ snd p <> num) pairs ->
  ~ (Forall (fun p => snd p < num) pairs /\ NoDup (map snd pairs) /\
     (forall p, In p pairs -> nth_error bitset (Z.to_nat (snd p)) = Some false)) ->
  exists msg, fill_label_list kind pairs num bitset names = Err (GSError kIOError msg).
Proof.
  revert bitset names; induction pairs as [|[name idx] rest IH];
    intros bitset names Hb Hr Hbad; simpl.
  - exfalso; apply Hbad; repeat split; auto; [constructor|intros p []].
  - inversion Hr as [|? ? [H0 H1] Hr']; subst; simpl in *.
    destruct (idx >? num) eqn:E; [eauto|].
    rewrite vec_at_nat by lia.
    destruct (nth_error bitset (Z.to_nat idx)) as [[|]|] eqn:Eb; [eauto| |].
    + apply IH; [rewrite update_nth_length; auto|auto|].
      intros [Hlt [Hd Hfree]]. apply Hbad. split; [constructor; [simpl; lia|exact Hlt]|]. split.
      * constructor; auto. intros Hin. apply in_map_iff in Hin as [p [Hp Hin]].
        specialize (Hfree p Hin). rewrite Hp, update_nth_same in Hfree; [discriminate|].
        apply nth_error_Some; congruence.
      * intros p [<-|Hp]; [exact Eb|]. specialize (Hfree p Hp).
        rewrite update_nth_other in Hfree; [exact Hfree|].
        intros Heq. rewrite <- Heq, update_nth_same in Hfree; [discriminate|].
        apply nth_error_Some; congruence.
    + apply nth_error_None in Eb. lia.
Qed.

Lemma nth_error_repeat' {A} (x : A) n i : (i < n)%nat -> nth_error (repeat x n) i = Some x.
Proof. revert i; induction n as [|n IH]; intros [|i] H; simpl; auto; try lia. apply IH; lia. Qed.

(** ** C7: the label-to-index checks of [shuffleAndBuild] *)

(** The checks pass over a prefix of in-range, pairwise distinct indices:
    its indices get marked in the bitset, the other marks are kept, and the
    loop goes on with the rest of the map. *)
Lemma fill_label_list_prefix kind pre post num bitset names :
  List.length bitset = Z.to_nat num ->
  Forall (fun p => 0 <= snd p < num) pre -> NoDup (map snd pre) ->
  (forall p, In p pre -> nth_error bitset (Z.to_nat (snd p)) = Some false) ->
  exists bitset' names',
    List.length bitset' = Z.to_nat num /\
    (forall p, In p pre -> nth_error bitset' (Z.to_nat (snd p)) = Some true) /\
    (forall i, (forall p, In p pre -> Z.to_nat (snd p) <> i) ->
               nth_error bitset' i = nth_error bitset i) /\
    fill_label_list kind (app pre post) num bitset names =
      fill_label_list kind post num bitset' names'.
Proof.
  revert bitset names; induction pre as [|[name idx] rest IH];
    intros bitset names Hb Hr Hd Hfree; simpl.
  - exists bitset, names. split; [exact Hb|]. split; [intros p []|].
    split; [reflexivity|reflexivity].
  - inversion Hr as [|? ? [H0 H1] Hr']; subst; simpl in *.
    inversion Hd as [|? ? Hnotin Hd']; subst.
    destruct (idx >? num) eqn:E; [lia|].
    rewrite vec_at_nat by lia.
    rewrite (Hfree (name, idx) (or_introl eq_refl) : nth_error bitset (Z.to_nat idx) = Some false).
    assert (Hne : forall p, In p rest -> Z.to_nat (snd p) <> Z.to_nat idx).
    { intros p Hp Heq. apply Hnotin. rewrite Forall_forall in Hr'. specialize (Hr' p Hp).
      replace idx with (snd p) by lia. apply in_map; auto. }
    destruct (IH (update_nth (Z.to_nat idx) true bitset) (update_nth (Z.to_nat idx) name names))
      as [bitset' [names' [Hl [Hset [Hframe Hf]]]]]; auto.
    { rewrite update_nth_length; auto. }
    { intros p Hp. rewrite update_nth_other; [apply Hfree; auto|].
      intros Heq; apply (Hne p Hp); auto. }
    exists bitset', names'. split; [exact Hl|]. split; [|split; [|exact Hf]].
    + intros p [<-|Hp]; [|auto]. simpl.
      rewrite Hframe by (intros p Hp Heq; apply (Hne p Hp); auto).
      apply update_nth_same; lia.
    + intros i Hi. rewrite Hframe by (intros p Hp; apply Hi; auto).
      apply update_nth_other. intros Heq; apply (Hi (name, idx)); auto.
Qed.

Lemma label_list_prefix kind pre post num :
  0 <= num -> Forall (fun p => 0 <= snd p < num) pre -> NoDup (map snd pre) ->
  exists bitset' names',
    List.length bitset' = Z.to_nat num /\
    (forall p, In p pre -> nth_error bitset' (Z.to_nat (snd p)) = Some true) /\
    label_list kind (app pre post) num = fill_label_list kind post num bitset' names'.
Proof.
  intros Hnum Hr Hd. unfold label_list.
  destruct (fill_label_list_prefix kind pre post num (repeat false (Z.to_nat num))
              (repeat EmptyString (Z.to_nat num))) as [b [n [Hl [Hset [_ Hf]]]]];
    [rewrite repeat_length; reflexivity|exact Hr|exact Hd| |eauto].
  intros p Hp. rewrite Forall_forall in Hr. specialize (Hr p Hp).
  apply nth_error_repeat'. lia.
Qed.

(** C7 (code bug). The range check is [index > count]: a label mapped to
    the index equal to the label count passes it and indexes the bitset out
    of range. *)
Lemma label_list_slip :
  label_list "vertex" [("a", 1)] 1 =
    Err (UndefinedBehaviour "std::vector<bool> index out of range").
Proof. reflexivity. Qed.

(** C7 (code bug). The label list of [shuffleAndBuild], for any label-to-index
    map and label count [num >= 0]. When every index is in [0, num) and no
    two labels share one, the list is built, each label at its index.
    Otherwise let [(name, idx)] be the first pair of the map (in its key
    order) that breaks this, after a prefix [pre] that keeps it: an index
    above the count fails with IOError "Failed to map ... label to index";
    an index equal to the count, or a negative one, passes the range check
    and indexes the bitset out of range (undefined behaviour), with no
    error reported; an index already taken fails with IOError "Multiple ...
    labels are mapped to one index.". No check reports
    InternalConsistencyError. *)
Theorem label_list_checks :
  (forall kind pairs num, 0 <= num ->
     Forall (fun p => 0 <= snd p < num) pairs -> NoDup (map snd pairs) ->
     exists names, label_list kind pairs num = Ok names /\
       List.length names = Z.to_nat num /\
       forall p, In p pairs -> nth_error names (Z.to_nat (snd p)) = Some (fst p)) /\
  (forall kind pre name idx rest num, 0 <= num ->
     Forall (fun p => 0 <= snd p < num) pre -> NoDup (map snd pre) ->
     num < idx ->
     label_list kind (app pre ((name, idx) :: rest)) num =
       Err (GSError kIOError ("Failed to map " ++ kind ++ " label to index"))) /\
  (forall kind pre name idx rest num, 0 <= num ->
     Forall (fun p => 0 <= snd p < num) pre -> NoDup (map snd pre) ->
     idx = num \/ idx < 0 ->
     label_list kind (app pre ((name, idx) :: rest)) num =
       Err (UndefinedBehaviour "std::vector<bool> index out of range")) /\
  (forall kind pre name idx rest num, 0 <= num ->
     Forall (fun p => 0 <= snd p < num) pre -> NoDup (map snd pre) ->
     In idx (map snd pre) ->
     label_list kind (app pre ((name, idx) :: rest)) num =
       Err (GSError kIOError ("Multiple " ++ kind ++ " labels are mapped to one index."))).
Proof.
  split; [|split; [|split]].
  - intros kind pairs num Hnum Hr Hd. unfold label_list.
    destruct (fill_label_list_ok kind pairs num (repeat false (Z.to_nat num))
                (repeat EmptyString (Z.to_nat num))) as [names [Hf [Hl [Hin _]]]];
      try rewrite repeat_length; auto.
    + intros p Hp. rewrite Forall_forall in Hr. specialize (Hr p Hp).
      apply nth_error_repeat'. lia.
    + eauto.
  - intros kind pre name idx rest num Hnum Hr Hd Hgt.
    destruct (label_list_prefix kind pre ((name, idx) :: rest) num Hnum Hr Hd)
      as [b [n [_ [_ ->]]]].
    simpl. destruct (idx >? num) eqn:E; [reflexivity|lia].
  - intros kind pre name idx rest num Hnum Hr Hd Hbad.
    destruct (label_list_prefix kind pre ((name, idx) :: rest) num Hnum Hr Hd)
      as [b [n [Hl [_ ->]]]].
    simpl. destruct (idx >? num) eqn:E; [lia|].
    unfold vec_at. destruct (idx <? 0) eqn:Eneg; [reflexivity|].
    destruct Hbad as [->|Hbad]; [|lia].
    rewrite (proj2 (nth_error_None b (Z.to_nat num))) by lia. reflexivity.
  - intros kind pre name idx rest num Hnum Hr Hd Hin.
    destruct (label_list_prefix kind pre ((name, idx) :: rest) num Hnum Hr Hd)
      as [b [n [_ [Hset ->]]]].
    apply in_map_iff in Hin as [p [Hp Hin]].
    assert (Hrange : 0 <= idx < num)
      by (rewrite Forall_forall in Hr; specialize (Hr p Hin); lia).
    simpl. destruct (idx >? num) eqn:E; [lia|].
    rewrite vec_at_nat by lia. rewrite <- Hp, (Hset p Hin). reflexivity.
Qed.

Lemma label_list_checks_witness :
  label_list "edge" [("a", 0); ("b", 2); ("c", 3)] 2 =
    Err (UndefinedBehaviour "std::vector<bool> index out of range") /\
  label_list "vertex" [("a", 0); ("b", 3)] 2 =
    Err (GSError kIOError "Failed to map vertex label to index") /\
  label_list "vertex" [("a", 1); ("b", 1)] 2 =
    Err (GSError kIOError "Multiple vertex labels are mapped to one index.") /\
  exists names, label_list "edge" [("b", 1); ("a", 0)] 2 = Ok names /\
    List.length names = 2%nat /\
    forall p, In p [("b", 1); ("a", 0)] -> nth_error names (Z.to_nat (snd p)) = Some (fst p).
Proof.
  split; [|split; [|split]].
  - apply (proj1 (proj2 (proj2 label_list_checks)) "edge" [("a", 0)] "b" 2 [("c", 3)] 2);
      [lia|repeat constructor; simpl; lia|repeat constructor; simpl; tauto|left; reflexivity].
  - apply (proj1 (proj2 label_list_checks) "vertex" [("a", 0)] "b" 3 [] 2);
      [lia|repeat constructor; simpl; lia|repeat constructor; simpl; tauto|lia].
  - apply (proj2 (proj2 (proj2 label_list_checks)) "vertex" [("a", 1)] "b" 1 [] 2);
      [lia|repeat constructor; simpl; lia|repeat constructor; simpl; tauto|left; reflexivity].
  - apply (proj1 label_list_checks "edge" [("b", 1); ("a", 0)] 2);
      [lia|repeat constructor; simpl; lia|].
    repeat constructor; simpl; [intros [H|[]]; discriminate|tauto].
Defined.

Lemma add_fragments_from (cs : CommSpec) (workers : list (ObjectID * Z)) (s n : nat) :
  (forall i, (s <= i < s + n)%nat -> (FragToWorker cs i < List.length workers)%nat) ->
  exists frags,
    mapM (fun i => o <- vec_get (map fst workers) (FragToWorker cs i);;
                   m <- vec_get (map snd workers) (FragToWorker cs i);;
                   Ok (i, (o, m))) (seq s n) = Ok frags /\
    forall i, (s <= i < s + n)%nat -> fragment_of i frags = nth_error workers (FragToWorker cs i).
Proof.
  revert s; induction n as [|n IH]; intros s Hw; simpl.
  - exists []; split; [reflexivity|intros i Hi; lia].
  - destruct (nth_error workers (FragToWorker cs s)) as [[o m]|] eqn:Ew;
      [|apply nth_error_None in Ew; specialize (Hw s ltac:(lia)); lia].
    assert (E1 : vec_get (map fst workers) (FragToWorker cs s) = Ok o)
      by (unfold vec_get; rewrite nth_error_map, Ew; reflexivity).
    assert (E2 : vec_get (map snd workers) (FragToWorker cs s) = Ok m)
      by (unfold vec_get; rewrite nth_error_map, Ew; reflexivity).
    rewrite E1; simpl; rewrite E2; simpl.
    destruct (IH (S s)) as [frags [Hm Hf]]; [intros i Hi; apply Hw; lia|].
    rewrite Hm; simpl. eexists; split; [reflexivity|].
    intros i Hi. simpl. destruct (Nat.eqb s i) eqn:E.
    + apply Nat.eqb_eq in E; subst; auto.
    + apply Nat.eqb_neq in E. apply Hf. lia.
Qed.

Lemma sealed_lookup_app_fresh id g l :
  Forall (fun p => fst p < id) l -> sealed_lookup id (app l [(id, g)]) = Some g.
Proof.
  induction 1 as [|[i g'] l Hi _ IH]; simpl in *.
  - rewrite Z.eqb_refl; reflexivity.
  - destruct (i =? id) eqn:E; [apply Z.eqb_eq in E; lia|exact IH].
Qed.

(** ** C8: the fragment group *)

(** C8. When [client.Persist] succeeds, on a store whose sealed objects
    all have ids below the next fresh id, and with every partition owned by
    an existing worker: every worker returns the same group object id; that
    id names a sealed group whose total fragment count is the partition
    count, which records the label counts and maps each partition id [i] to
    the (fragment id, instance id) pair of worker [FragToWorker i]; and the
    group is persisted. *)
Theorem constructFragmentGroup_registry (cs : CommSpec) (workers : list (ObjectID * Z))
  (v_label_num e_label_num : Z) (store : Store) :
  Forall (fun p => fst p < next_id store) (sealed store) ->
  (forall i, (i < fnum cs)%nat -> (FragToWorker cs i < List.length workers)%nat) ->
  exists gid g store',
    constructFragmentGroup cs workers v_label_num e_label_num (Ok tt) store =
      (map (fun _ => Returned (Ok gid)) workers, store') /\
    sealed_lookup gid (sealed store') = Some g /\
    total_frag_num g = fnum cs /\
    group_vertex_label_num g = v_label_num /\ group_edge_label_num g = e_label_num /\
    (forall i, (i < fnum cs)%nat -> fragment_of i (fragments g) = nth_error workers (FragToWorker cs i)) /\
    In gid (persisted store').
Proof.
  intros Hfresh Hw.
  destruct (add_fragments_from cs workers 0 (fnum cs)) as [frags [Hm Hf]];
    [intros i Hi; apply Hw; lia|].
  unfold constructFragmentGroup, add_fragments. rewrite Hm. simpl.
  do 3 eexists. split; [reflexivity|]. simpl.
  split; [apply sealed_lookup_app_fresh; exact Hfresh|].
  split; [reflexivity|]. split; [reflexivity|]. split; [reflexivity|]. split.
  - intros i Hi. apply Hf. lia.
  - apply in_or_app; right; left; reflexivity.
Qed.

Lemma constructFragmentGroup_registry_witness :
  exists gid g store',
    constructFragmentGroup (mkCommSpec 2 (fun i => i)) [(100, 7); (200, 8)] 1 1 (Ok tt)
      (mkStore 5 [] []) = ([Returned (Ok gid); Returned (Ok gid)], store') /\
    sealed_lookup gid (sealed store') = Some g /\
    total_frag_num g = 2%nat /\
    group_vertex_label_num g = 1 /\ group_edge_label_num g = 1 /\
    (forall i, (i < 2)%nat -> fragment_of i (fragments g) = nth_error [(100, 7); (200, 8)] i) /\
    In gid (persisted store').
Proof.
  apply (constructFragmentGroup_registry (mkCommSpec 2 (fun i => i)) [(100, 7); (200, 8)] 1 1
           (mkStore 5 [] [])).
  - constructor.
  - simpl; intros i Hi; lia.
Defined.

Lemma never_invalid_bind {A B} (m : M A) (k : A -> M B) :
  never_invalid m -> (forall a, never_invalid (k a)) -> never_invalid (mbind m k).
Proof.
  intros Hm Hk st msg. unfold mbind. specialize (Hm st msg).
  destruct (m st) as [[a|e] st'] eqn:E; simpl in *; [apply Hk|intros H; inversion H; subst; apply Hm; reflexivity].
Qed.

Lemma never_invalid_ret {A} (a : A) : never_invalid (mret a).
Proof. intros st msg; discriminate. Qed.

Lemma never_invalid_modify f : never_invalid (modify f).
Proof. intros st msg; discriminate. Qed.

Lemma never_invalid_require_meta k meta msg : never_invalid (require_meta k meta msg).
Proof. intros st m; unfold require_meta; destruct (meta_find k meta); discriminate. Qed.

Lemma never_invalid_vertex_label_at name : never_invalid (vertex_label_at name).
Proof. intros st m; unfold vertex_label_at; destruct (map_find _ _); discriminate. Qed.

Lemma never_invalid_add_edge_vertex_label e s d : never_invalid (add_edge_vertex_label e s d).
Proof. apply never_invalid_modify. Qed.

Lemma never_invalid_sync_gs_error {A} c (r : result A) :
  (forall msg, r <> Err (GSError kInvalidValueError msg)) -> never_invalid (sync_gs_error c r).
Proof. intros H st msg; apply H. Qed.

Create HintDb noinv.
#[local] Hint Resolve never_invalid_bind never_invalid_ret never_invalid_modify
  never_invalid_require_meta never_invalid_vertex_label_at
  never_invalid_add_edge_vertex_label never_invalid_sync_gs_error : noinv.

Section NoConsistencyCheck.

Variable read_procedure : SubSource -> result (option Table).
Variable sync_schema_procedure : SubSource -> option Table -> result Table.
Hypothesis read_not_invalid :
  forall sub msg, read_procedure sub <> Err (GSError kInvalidValueError msg).
Hypothesis sync_not_invalid :
  forall sub t msg, sync_schema_procedure sub t <> Err (GSError kInvalidValueError msg).

Lemma never_invalid_acquire sub :
  never_invalid (acquire read_procedure sync_schema_procedure sub).
Proof. unfold acquire; eauto with noinv. Qed.

#[local] Hint Resolve never_invalid_acquire : noinv.

Lemma never_invalid_load_edge_subs label_id n subs :
  never_invalid (load_edge_subs read_procedure sync_schema_procedure label_id n subs).
Proof. induction subs as [|sub rest IH]; simpl; eauto 15 with noinv. Qed.

#[local] Hint Resolve never_invalid_load_edge_subs : noinv.

Lemma never_invalid_loadEdgeTables files :
  never_invalid (loadEdgeTables read_procedure sync_schema_procedure files).
Proof.
  unfold loadEdgeTables. generalize 0.
  induction files as [|subs rest IH]; intros label_id; simpl; eauto with noinv.
Qed.

End NoConsistencyCheck.

(** ** C6: edge label indices across sub-sources *)

(** C6. [loadEdgeTables] has no edge-label consistency check: when neither
    the read nor the schema synchronisation of a sub-source fails with
    InvalidValue, it never fails with InvalidValue; on two edge files
    sharing the label [e] it succeeds and leaves [e] mapped to the later
    file's index 1, while [loadEVTablesFromEFiles] rejects the same files
    with "Edge label is not consistent, e: 1 vs 0". *)
Theorem loadEdgeTables_edge_label_overwritten :
  (forall read_procedure sync_schema_procedure files st msg,
     (forall sub m, read_procedure sub <> Err (GSError kInvalidValueError m)) ->
     (forall sub t m, sync_schema_procedure sub t <> Err (GSError kInvalidValueError m)) ->
     fst (loadEdgeTables read_procedure sync_schema_procedure files st) <>
       Err (GSError kInvalidValueError msg)) /\
  is_ok (fst (loadEdgeTables read_sample sync_single two_edge_files vertex_state)) = true /\
  edge_label_to_index_ (snd (loadEdgeTables read_sample sync_single two_edge_files vertex_state)) =
    [("e", 1)] /\
  fst (loadEVTablesFromEFiles read_sample sync_single two_edge_files empty_state) =
    Err (GSError kInvalidValueError "Edge label is not consistent, e: 1 vs 0").
Proof.
  split; [intros rp sp files st msg Hr Hs; exact (never_invalid_loadEdgeTables rp sp Hr Hs files st msg)|].
  split; [vm_compute; reflexivity|]. split; vm_compute; reflexivity.
Qed.

Lemma loadEdgeTables_edge_label_overwritten_witness :
  fst (loadEdgeTables read_sample (fun _ _ => Ok edge_table_sample) two_edge_files vertex_state)
    <> Err (GSError kInvalidValueError EmptyString).
Proof.
  apply (proj1 loadEdgeTables_edge_label_overwritten); intros; discriminate.
Defined.

Lemma mbind_Ok_inv {A B} (m : M A) (k : A -> M B) st b st' :
  mbind m k st = (Ok b, st') -> exists a s1, m st = (Ok a, s1) /\ k a s1 = (Ok b, st').
Proof.
  unfold mbind. destruct (m st) as [[a|e] s1]; intros H; [eauto|discriminate].
Qed.

Lemma lockstep_bind {A B} (m : M A) (k : A -> M B) :
  lockstep m -> (forall a, lockstep (k a)) -> lockstep (mbind m k).
Proof.
  intros Hm Hk st1 st2 Hst. unfold mbind.
  destruct (Hm st1 st2 Hst) as [Hr [Hmem [ext [T1 T2]]]].
  destruct (m st1) as [r1 s1], (m st2) as [r2 s2]; simpl in *; subst r2.
  destruct r1 as [a|e].
  - destruct (Hk a s1 s2 Hmem) as [Hr' [Hmem' [ext' [T1' T2']]]].
    split; [exact Hr'|]. split; [exact Hmem'|].
    exists (app ext ext'). rewrite T1', T2', T1, T2, !app_assoc. split; reflexivity.
  - simpl. split; [reflexivity|]. split; [exact Hmem|]. eauto.
Qed.

Lemma lockstep_pure {A} (r : result A) : lockstep (fun st => (r, st)).
Proof.
  intros st1 st2 H; simpl. split; [reflexivity|]. split; [exact H|].
  exists []; rewrite !app_nil_r; split; reflexivity.
Qed.

Lemma lockstep_ret {A} (a : A) : lockstep (mret a).
Proof. apply lockstep_pure. Qed.

Lemma lockstep_raise {A} (e : Error) : lockstep (@raise A e).
Proof. apply lockstep_pure. Qed.

Lemma lockstep_lift {A} (r : result A) : lockstep (lift r).
Proof. apply lockstep_pure. Qed.

Lemma lockstep_sync_gs_error {A} c (r : result A) : lockstep (sync_gs_error c r).
Proof.
  intros st1 st2 H; simpl. split; [reflexivity|].
  split; [destruct st1, st2; exact H|]. exists [c]; split; reflexivity.
Qed.

Lemma lockstep_modify f :
  (forall st1 st2, members st1 = members st2 -> members (f st1) = members (f st2)) ->
  (forall st, trace (f st) = trace st) ->
  lockstep (modify f).
Proof.
  intros Hf Ht st1 st2 H; simpl. split; [reflexivity|]. split; [auto|].
  exists []; rewrite !app_nil_r, !Ht; split; reflexivity.
Qed.

Ltac members_tac :=
  intros [? ? ? ? ?] [? ? ? ? ?] H; unfold members in *; simpl in *;
  inversion H; subst; reflexivity.

Lemma lockstep_require_meta k meta msg : lockstep (require_meta k meta msg).
Proof. unfold require_meta; destruct (meta_find k meta); apply lockstep_pure. Qed.

Lemma lockstep_vertex_label_at name : lockstep (vertex_label_at name).
Proof.
  intros st1 st2 H. unfold vertex_label_at.
  assert (E : vertex_label_to_index_ st1 = vertex_label_to_index_ st2)
    by (unfold members in H; inversion H; reflexivity).
  rewrite E. destruct (map_find name (vertex_label_to_index_ st2));
    (split; [reflexivity|]); (split; [exact H|]); exists []; rewrite !app_nil_r; auto.
Qed.

Lemma lockstep_add_edge_vertex_label e s d : lockstep (add_edge_vertex_label e s d).
Proof. apply lockstep_modify; [members_tac|reflexivity]. Qed.

Lemma lockstep_set_edge_label name id :
  lockstep (modify (fun st => set_edge_label_to_index
                                (map_set name id (edge_label_to_index_ st)) st)).
Proof. apply lockstep_modify; [members_tac|reflexivity]. Qed.

Lemma lockstep_check_edge_label name id : lockstep (check_edge_label name id).
Proof.
  intros st1 st2 H. unfold check_edge_label.
  assert (E : edge_label_to_index_ st1 = edge_label_to_index_ st2)
    by (unfold members in H; inversion H; reflexivity).
  rewrite E. destruct (map_find name (edge_label_to_index_ st2)) as [v|].
  - destruct (v =? id); (split; [reflexivity|]); (split; [exact H|]);
      exists []; rewrite !app_nil_r; auto.
  - split; [reflexivity|]. split.
    + revert H E; destruct st1, st2; unfold members; simpl; intros H E.
      inversion H; subst; reflexivity.
    + exists []; rewrite !app_nil_r; split; reflexivity.
Qed.

Lemma lockstep_column t i : lockstep (column t i).
Proof. unfold column; destruct (nth_error _ _); apply lockstep_pure. Qed.

Lemma lockstep_oids_batch_insert oids id col : lockstep (oids_batch_insert oids id col).
Proof.
  unfold oids_batch_insert; destruct (nth_error _ _);
    [apply lockstep_bind; [apply lockstep_lift|intros; apply lockstep_ret]|apply lockstep_pure].
Qed.

Lemma lockstep_set_vertex_labels names :
  lockstep (modify (fun st =>
    set_vertex_labels (number_labels names 0 (vertex_label_to_index_ st))
                      (Z.of_nat (List.length names)) st)).
Proof. apply lockstep_modify; [members_tac|reflexivity]. Qed.

Create HintDb lockstep.
#[local] Hint Resolve lockstep_ret lockstep_raise lockstep_lift lockstep_sync_gs_error
  lockstep_require_meta lockstep_vertex_label_at lockstep_add_edge_vertex_label
  lockstep_set_edge_label lockstep_check_edge_label lockstep_column
  lockstep_oids_batch_insert lockstep_set_vertex_labels : lockstep.

Lemma mbind_Ok_step {A B} (m : M A) (k : A -> M B) st a s1 :
  m st = (Ok a, s1) -> mbind m k st = k a s1.
Proof. unfold mbind; intros ->; reflexivity. Qed.

Lemma mbind_Err_step {A B} (m : M A) (k : A -> M B) st e s1 :
  m st = (Err e, s1) -> mbind m k st = (Err e, s1).
Proof. unfold mbind; intros ->; reflexivity. Qed.

(** Peel the successful steps of a run [H] off the goal, as long as the
    goal runs the same steps. *)
Ltac run_same_steps H :=
  repeat (let Ha := fresh "Ha" in
          apply mbind_Ok_inv in H as [?a [?s [Ha H]]];
          erewrite (mbind_Ok_step _ _ _ _ _ Ha); cbv beta zeta).

Lemma lockstep2_bind {A A' B B'} (R : A -> A' -> Prop) (S : B -> B' -> Prop)
  (m1 : M A) (m2 : M A') (k1 : A -> M B) (k2 : A' -> M B') :
  lockstep2 R m1 m2 -> (forall a1 a2, R a1 a2 -> lockstep2 S (k1 a1) (k2 a2)) ->
  lockstep2 S (mbind m1 k1) (mbind m2 k2).
Proof.
  intros Hm Hk st1 st2 Hst. unfold mbind.
  destruct (Hm st1 st2 Hst) as [Hr [Hmem [ext [T1 T2]]]].
  destruct (m1 st1) as [r1 s1], (m2 st2) as [r2 s2]; simpl in *.
  destruct r1 as [a1|e1], r2 as [a2|e2]; simpl in Hr; try contradiction.
  - destruct (Hk a1 a2 Hr s1 s2 Hmem) as [Hr' [Hmem' [ext' [T1' T2']]]].
    split; [exact Hr'|]. split; [exact Hmem'|].
    exists (app ext ext'). rewrite T1', T2', T1, T2, !app_assoc. split; reflexivity.
  - subst e2. simpl. split; [reflexivity|]. split; [exact Hmem|]. eauto.
Qed.

Lemma lockstep2_of_lockstep {A} (m : M A) : lockstep m -> lockstep2 eq m m.
Proof.
  intros Hm st1 st2 Hst. destruct (Hm st1 st2 Hst) as [Hr Hrest].
  split; [|exact Hrest]. rewrite Hr. destruct (fst (m st2)); reflexivity.
Qed.

Lemma lockstep2_ret {A B} (R : A -> B -> Prop) a1 a2 :
  R a1 a2 -> lockstep2 R (mret a1) (mret a2).
Proof.
  intros HR st1 st2 H; simpl. split; [exact HR|]. split; [exact H|].
  exists []; rewrite !app_nil_r; split; reflexivity.
Qed.

Lemma lockstep2_acquire rp1 rp2 sp1 sp2 sub :
  agreed_outcomes rp1 rp2 sp1 sp2 ->
  lockstep2 (fun _ _ => True) (acquire rp1 sp1 sub) (acquire rp2 sp2 sub).
Proof.
  intros [Hr Hs] st1 st2 H. unfold acquire, mbind, sync_gs_error.
  specialize (Hr sub). specialize (Hs sub).
  destruct (rp1 sub) as [t1|e1] eqn:E1, (rp2 sub) as [t2|e2] eqn:E2;
    simpl in Hr; try contradiction.
  - specialize (Hs t1 t2 eq_refl eq_refl).
    destruct (sp1 sub t1) as [u1|f1], (sp2 sub t2) as [u2|f2];
      simpl in Hs |- *; try contradiction;
      (split; [exact Hs|]); (split; [destruct st1, st2; exact H|]);
      exists [CollRead (sub_path sub); CollSchema (sub_path sub)];
      rewrite <- !app_assoc; split; reflexivity.
  - subst e2. simpl. split; [reflexivity|]. split; [destruct st1, st2; exact H|].
    exists [CollRead (sub_path sub)]; split; reflexivity.
Qed.

Ltac lockstep2_steps :=
  repeat first
    [ solve [apply lockstep2_ret; exact I]
    | apply lockstep2_bind with (R := eq);
        [solve [apply lockstep2_of_lockstep; eauto with lockstep] | intros ? ? <-]
    | eapply lockstep2_bind; [solve [eauto] | intros ? ? _] ].

Lemma lockstep2_load_edge_subs rp1 rp2 sp1 sp2 label_id n subs :
  agreed_outcomes rp1 rp2 sp1 sp2 ->
  lockstep2 (fun _ _ => True) (load_edge_subs rp1 sp1 label_id n subs)
                              (load_edge_subs rp2 sp2 label_id n subs).
Proof.
  intros Hag. induction subs as [|sub rest IH]; simpl;
    [apply lockstep2_ret; exact I|].
  eapply lockstep2_bind; [apply lockstep2_acquire, Hag|intros ? ? _].
  lockstep2_steps.
Qed.

Lemma lockstep2_loadEdgeTables rp1 rp2 sp1 sp2 files :
  agreed_outcomes rp1 rp2 sp1 sp2 ->
  lockstep2 (fun _ _ => True) (loadEdgeTables rp1 sp1 files) (loadEdgeTables rp2 sp2 files).
Proof.
  intros Hag. unfold loadEdgeTables. generalize 0.
  induction files as [|subs rest IH]; intros label_id; simpl;
    [apply lockstep2_ret; exact I|].
  eapply lockstep2_bind; [apply lockstep2_load_edge_subs, Hag|intros ? ? _].
  eapply lockstep2_bind; [apply IH|intros ? ? _].
  apply lockstep2_ret; exact I.
Qed.

Lemma load_edge_subs_app_Err rp sp label_id n pre post st ts st1 e st2 :
  load_edge_subs rp sp label_id n pre st = (Ok ts, st1) ->
  load_edge_subs rp sp label_id n post st1 = (Err e, st2) ->
  load_edge_subs rp sp label_id n (app pre post) st = (Err e, st2).
Proof.
  revert st ts; induction pre as [|sub pre IH]; intros st ts H1 H2; simpl in *.
  - unfold mret in H1. injection H1 as <- <-. exact H2.
  - run_same_steps H1.
    apply mbind_Ok_inv in H1 as [tables [s' [Hrec H1]]].
    unfold mret in H1; injection H1 as _ <-.
    apply mbind_Err_step, (IH _ _ Hrec H2).
Qed.

Lemma load_edge_files_app_Err rp sp label_id pre post st tbls st1 e st2 :
  load_edge_files rp sp label_id pre st = (Ok tbls, st1) ->
  load_edge_files rp sp (label_id + Z.of_nat (List.length pre)) post st1 = (Err e, st2) ->
  load_edge_files rp sp label_id (app pre post) st = (Err e, st2).
Proof.
  revert label_id st tbls; induction pre as [|subs pre IH]; intros label_id st tbls H1 H2;
    simpl in *.
  - unfold mret in H1. injection H1 as <- <-. rewrite Z.add_0_r in H2. exact H2.
  - apply mbind_Ok_inv in H1 as [tables [s1 [Hsubs H1]]].
    apply mbind_Ok_inv in H1 as [others [s2 [Hrest H1]]].
    unfold mret in H1; injection H1 as _ <-.
    rewrite (mbind_Ok_step _ _ _ _ _ Hsubs). apply mbind_Err_step.
    apply (IH _ _ _ Hrest).
    replace (label_id + 1 + Z.of_nat (List.length pre))
      with (label_id + Z.of_nat (S (List.length pre))) by lia.
    exact H2.
Qed.

Lemma load_edge_subs_missing_src rp sp label_id n sub subs st t t' :
  meta_find LABEL_TAG (sub_meta sub) <> None ->
  meta_find SRC_LABEL_TAG (sub_meta sub) = None ->
  rp sub = Ok t -> sp sub t = Ok t' ->
  load_edge_subs rp sp label_id n (sub :: subs) st =
    (Err (GSError kIOError "Metadata of input edge files should contain src label name"),
     log (CollSchema (sub_path sub)) (log (CollRead (sub_path sub)) st)).
Proof.
  intros Hl Hs Hr Hsp. simpl. unfold mbind, acquire, sync_gs_error, require_meta.
  rewrite Hr; simpl; rewrite Hsp; simpl.
  destruct (meta_find LABEL_TAG (sub_meta sub)); [|congruence].
  simpl; rewrite Hs; reflexivity.
Qed.

Lemma load_edge_subs_missing_dst rp sp label_id n sub subs st t t' src :
  meta_find LABEL_TAG (sub_meta sub) <> None ->
  meta_find SRC_LABEL_TAG (sub_meta sub) = Some src ->
  map_find src (vertex_label_to_index_ st) <> None ->
  meta_find DST_LABEL_TAG (sub_meta sub) = None ->
  rp sub = Ok t -> sp sub t = Ok t' ->
  load_edge_subs rp sp label_id n (sub :: subs) st =
    (Err (GSError kIOError "Metadata of input edge files should contain dst label name"),
     log (CollSchema (sub_path sub)) (log (CollRead (sub_path sub)) st)).
Proof.
  intros Hl Hs Hv Hd Hr Hsp. simpl.
  unfold mbind, acquire, sync_gs_error, require_meta, vertex_label_at.
  rewrite Hr; simpl; rewrite Hsp; simpl.
  destruct (meta_find LABEL_TAG (sub_meta sub)); [|congruence].
  simpl; rewrite Hs; simpl.
  destruct (map_find src (vertex_label_to_index_ _)) eqn:E; [|simpl in E; congruence].
  simpl; rewrite Hd; reflexivity.
Qed.

(** A failure in the sub-source [sub] of the file after [pre_files], past the
    sub-sources [pre_subs] of that file, is the failure of the whole load. *)
Lemma loadEdgeTables_Err_at rp sp pre_files pre_subs sub subs rest st tbls st1 ts st2 e st3 :
  load_edge_files rp sp 0 pre_files st = (Ok tbls, st1) ->
  load_edge_subs rp sp (Z.of_nat (List.length pre_files))
    (List.length (app pre_subs (sub :: subs))) pre_subs st1 = (Ok ts, st2) ->
  load_edge_subs rp sp (Z.of_nat (List.length pre_files))
    (List.length (app pre_subs (sub :: subs))) (sub :: subs) st2 = (Err e, st3) ->
  loadEdgeTables rp sp (app pre_files (app pre_subs (sub :: subs) :: rest)) st = (Err e, st3).
Proof.
  intros Hf Hp He. unfold loadEdgeTables.
  apply (load_edge_files_app_Err _ _ _ _ _ _ _ _ _ _ Hf). simpl.
  apply mbind_Err_step. apply (load_edge_subs_app_Err _ _ _ _ _ _ _ _ _ _ _ Hp He).
Qed.

Lemma discover_subs_cases subs acc :
  (exists r, discover_subs subs acc = Ok r) \/
  discover_subs subs acc =
    Err (GSError kIOError "Metadata of input edge files should contain label name").
Proof.
  revert acc; induction subs as [|sub rest IH]; intros acc; simpl; [eauto|].
  destruct (meta_find SRC_LABEL_TAG (sub_meta sub)), (meta_find DST_LABEL_TAG (sub_meta sub));
    auto.
Qed.

Lemma discover_subs_missing subs acc :
  (exists sub, In sub subs /\ missing_endpoint_label sub) ->
  discover_subs subs acc =
    Err (GSError kIOError "Metadata of input edge files should contain label name").
Proof.
  revert acc; induction subs as [|sub' rest IH]; intros acc [sub [Hin Hm]]; simpl in *;
    [contradiction|].
  destruct Hin as [->|Hin].
  - destruct Hm as [ -> | -> ]; [reflexivity|].
    destruct (meta_find SRC_LABEL_TAG (sub_meta sub)); reflexivity.
  - destruct (meta_find SRC_LABEL_TAG (sub_meta sub')), (meta_find DST_LABEL_TAG (sub_meta sub'));
      eauto.
Qed.

Lemma discover_files_missing efiles acc :
  (exists subs sub, In subs efiles /\ In sub subs /\ missing_endpoint_label sub) ->
  discover_files efiles acc =
    Err (GSError kIOError "Metadata of input edge files should contain label name").
Proof.
  revert acc; induction efiles as [|subs' rest IH]; intros acc [subs [sub [Hin [Hs Hm]]]];
    simpl in *; [contradiction|].
  destruct Hin as [->|Hin].
  - rewrite (discover_subs_missing subs acc) by eauto. reflexivity.
  - destruct (discover_subs_cases subs' acc) as [[r ->] | -> ]; simpl; [|reflexivity].
    apply IH; eauto.
Qed.

(** ** C4: edge sub-sources without endpoint labels *)

(** C4 (counterexample). [loadEdgeTables] on an edge sub-source without
    [src_label] fails with IOError only after the partial read and the
    schema synchronisation, two collective steps, have run. *)
Lemma loadEdgeTables_missing_src_after_collectives :
  loadEdgeTables read_sample sync_single [[no_src_sub "/data/e0"]] vertex_state =
    (Err (GSError kIOError "Metadata of input edge files should contain src label name"),
     mkLoaderState [("v", 0)] [] [] 1 [CollRead "/data/e0"; CollSchema "/data/e0"]).
Proof. vm_compute; reflexivity. Qed.

(** C4 (amended). A sub-source without [src_label] (or, past a known
    [src_label], without [dst_label]) makes [loadEdgeTables] fail with
    IOError right after that sub-source's partial read and schema
    synchronisation collectives, wherever it sits: in any file, after any
    sub-sources that loaded. In the vertex-less mode,
    [loadEVTablesFromEFiles] scans the metadata first and fails with IOError
    before any collective step, its state untouched, whatever the worker's
    slices. Two workers running [loadEdgeTables] on the same files, each on
    its own slices, from agreeing members, whose partial reads and schema
    synchronisations agree on success or failure (which [sync_gs_error]
    ensures), enter the same collective steps and both succeed or both fail
    with the same error: no peer is left waiting. *)
Theorem edge_endpoint_label_missing :
  (forall read_procedure sync_schema_procedure pre_files pre_subs sub subs rest st
          tbls st1 ts st2 t t',
     load_edge_files read_procedure sync_schema_procedure 0 pre_files st = (Ok tbls, st1) ->
     load_edge_subs read_procedure sync_schema_procedure (Z.of_nat (List.length pre_files))
       (List.length (app pre_subs (sub :: subs))) pre_subs st1 = (Ok ts, st2) ->
     meta_find LABEL_TAG (sub_meta sub) <> None ->
     meta_find SRC_LABEL_TAG (sub_meta sub) = None ->
     read_procedure sub = Ok t -> sync_schema_procedure sub t = Ok t' ->
     loadEdgeTables read_procedure sync_schema_procedure
       (app pre_files (app pre_subs (sub :: subs) :: rest)) st =
       (Err (GSError kIOError "Metadata of input edge files should contain src label name"),
        log (CollSchema (sub_path sub)) (log (CollRead (sub_path sub)) st2))) /\
  (forall read_procedure sync_schema_procedure pre_files pre_subs sub subs rest st
          tbls st1 ts st2 t t' src,
     load_edge_files read_procedure sync_schema_procedure 0 pre_files st = (Ok tbls, st1) ->
     load_edge_subs read_procedure sync_schema_procedure (Z.of_nat (List.length pre_files))
       (List.length (app pre_subs (sub :: subs))) pre_subs st1 = (Ok ts, st2) ->
     meta_find LABEL_TAG (sub_meta sub) <> None ->
     meta_find SRC_LABEL_TAG (sub_meta sub) = Some src ->
     map_find src (vertex_label_to_index_ st2) <> None ->
     meta_find DST_LABEL_TAG (sub_meta sub) = None ->
     read_procedure sub = Ok t -> sync_schema_procedure sub t = Ok t' ->
     loadEdgeTables read_procedure sync_schema_procedure
       (app pre_files (app pre_subs (sub :: subs) :: rest)) st =
       (Err (GSError kIOError "Metadata of input edge files should contain dst label name"),
        log (CollSchema (sub_path sub)) (log (CollRead (sub_path sub)) st2))) /\
  (forall read_procedure sync_schema_procedure efiles st,
     (exists subs sub, In subs efiles /\ In sub subs /\ missing_endpoint_label sub) ->
     loadEVTablesFromEFiles read_procedure sync_schema_procedure efiles st =
       (Err (GSError kIOError "Metadata of input edge files should contain label name"), st)) /\
  (forall rp1 rp2 sp1 sp2 files,
     agreed_outcomes rp1 rp2 sp1 sp2 ->
     lockstep2 (fun _ _ => True) (loadEdgeTables rp1 sp1 files) (loadEdgeTables rp2 sp2 files)).
Proof.
  split; [|split; [|split]].
  - intros rp sp pre_files pre_subs sub subs rest st tbls st1 ts st2 t t' Hf Hp Hl Hs Hr Hsp.
    eapply loadEdgeTables_Err_at; [exact Hf|exact Hp|].
    eapply load_edge_subs_missing_src; eauto.
  - intros rp sp pre_files pre_subs sub subs rest st tbls st1 ts st2 t t' src
      Hf Hp Hl Hs Hv Hd Hr Hsp.
    eapply loadEdgeTables_Err_at; [exact Hf|exact Hp|].
    eapply load_edge_subs_missing_dst; eauto.
  - intros rp sp efiles st H. unfold loadEVTablesFromEFiles, mbind, lift.
    rewrite (discover_files_missing efiles [] H). reflexivity.
  - intros rp1 rp2 sp1 sp2 files Hag. apply lockstep2_loadEdgeTables, Hag.
Qed.

Lemma edge_endpoint_label_missing_witness :
  loadEdgeTables read_sample sync_single
    [[e_sub "/data/e0"]; [e_sub "/data/e1"; no_src_sub "/data/e2"]] vertex_state =
    (Err (GSError kIOError "Metadata of input edge files should contain src label name"),
     log (CollSchema "/data/e2") (log (CollRead "/data/e2")
       (mkLoaderState [("v", 0)] [("e", 1)] [("e", [("v", "v")])] 1
          [CollRead "/data/e0"; CollSchema "/data/e0";
           CollRead "/data/e1"; CollSchema "/data/e1"]))) /\
  loadEVTablesFromEFiles read_sample sync_single [[e_sub "/data/e0"; no_src_sub "/data/e1"]]
    empty_state =
    (Err (GSError kIOError "Metadata of input edge files should contain label name"),
     empty_state) /\
  lockstep2 (fun _ _ => True)
    (loadEdgeTables read_sample sync_pair
       [[e_sub "/data/e0"]; [e_sub "/data/e1"; no_src_sub "/data/e2"]])
    (loadEdgeTables read_none sync_pair
       [[e_sub "/data/e0"]; [e_sub "/data/e1"; no_src_sub "/data/e2"]]).
Proof.
  split; [|split].
  - apply (proj1 edge_endpoint_label_missing read_sample sync_single
             [[e_sub "/data/e0"]] [e_sub "/data/e1"] (no_src_sub "/data/e2") [] []
             vertex_state
             [[ReplaceSchemaMetadata edge_table_sample (edge_meta 1 "e" 0 0)]]
             (mkLoaderState [("v", 0)] [("e", 0)] [("e", [("v", "v")])] 1
                [CollRead "/data/e0"; CollSchema "/data/e0"])
             [ReplaceSchemaMetadata edge_table_sample (edge_meta 2 "e" 0 0)]
             (mkLoaderState [("v", 0)] [("e", 1)] [("e", [("v", "v")])] 1
                [CollRead "/data/e0"; CollSchema "/data/e0";
                 CollRead "/data/e1"; CollSchema "/data/e1"])
             (Some edge_table_sample) edge_table_sample);
      vm_compute; first [reflexivity | discriminate].
  - apply (proj1 (proj2 (proj2 edge_endpoint_label_missing))).
    exists [e_sub "/data/e0"; no_src_sub "/data/e1"], (no_src_sub "/data/e1").
    split; [left; reflexivity|]. split; [right; left; reflexivity|]. left; reflexivity.
  - apply (proj2 (proj2 (proj2 edge_endpoint_label_missing))).
    split; [intros sub; exact I|].
    intros sub t1 t2 H1 H2. injection H1 as <-. injection H2 as <-.
    vm_compute; exact I.
Defined.

(** ** The label-name set of the vertex-less mode *)

Lemma ascii_compare_lt_trans a b c :
  Ascii.compare a b = Lt -> Ascii.compare b c = Lt -> Ascii.compare a c = Lt.
Proof.
  unfold Ascii.compare; rewrite !N.compare_lt_iff; lia.
Qed.

Lemma str_lt_trans a b c : str_lt a b -> str_lt b c -> str_lt a c.
Proof.
  unfold str_lt; revert b c; induction a as [|x a IH]; intros [|y b] [|z c]; simpl;
    try congruence.
  destruct (Ascii.compare x y) eqn:Exy; try discriminate;
    destruct (Ascii.compare y z) eqn:Eyz; try discriminate; intros H1 H2.
  - apply Ascii.compare_eq_iff in Exy, Eyz; subst.
    assert (Ez : Ascii.compare z z = Eq) by (unfold Ascii.compare; apply N.compare_refl).
    rewrite Ez; eauto.
  - apply Ascii.compare_eq_iff in Exy; subst. rewrite Eyz; reflexivity.
  - apply Ascii.compare_eq_iff in Eyz; subst. rewrite Exy; reflexivity.
  - rewrite (ascii_compare_lt_trans _ _ _ Exy Eyz); reflexivity.
Qed.

Lemma str_lt_irrefl a : ~ str_lt a a.
Proof.
  unfold str_lt; intros H. pose proof (String.compare_antisym a a) as E.
  rewrite H in E; discriminate.
Qed.

Lemma str_compare_Gt a b : String.compare a b = Gt -> str_lt b a.
Proof. unfold str_lt; intros H; rewrite String.compare_antisym, H; reflexivity. Qed.

Lemma set_insert_In x s z : In z (set_insert x s) <-> z = x \/ In z s.
Proof.
  induction s as [|y s IH]; simpl; [intuition congruence|].
  destruct (String.compare x y) eqn:E; simpl.
  - apply String.compare_eq_iff in E; subst; intuition congruence.
  - intuition congruence.
  - rewrite IH; intuition congruence.
Qed.

Lemma set_insert_sorted x s : Sorted str_lt s -> Sorted str_lt (set_insert x s).
Proof.
  induction 1 as [|y s Hs IH Hhd]; simpl; [repeat constructor|].
  destruct (String.compare x y) eqn:E.
  - constructor; assumption.
  - constructor; [constructor; assumption|constructor; exact E].
  - constructor; [exact IH|].
    destruct s as [|z s]; simpl; [constructor; apply str_compare_Gt; exact E|].
    inversion Hhd; subst.
    destruct (String.compare x z); constructor; auto; apply str_compare_Gt; auto.
Qed.

Lemma sorted_NoDup s : Sorted str_lt s -> NoDup s.
Proof.
  intros H. apply Sorted_StronglySorted in H; [|exact str_lt_trans].
  induction H as [|y s Hs IH Hall]; constructor; auto.
  intros Hin. rewrite Forall_forall in Hall. apply (str_lt_irrefl y), Hall, Hin.
Qed.

Lemma discover_subs_Ok subs acc r :
  discover_subs subs acc = Ok r ->
  (Sorted str_lt acc -> Sorted str_lt r) /\
  (forall z, In z r <-> In z acc \/ exists sub, In sub subs /\ endpoint_label sub z) /\
  (forall sub, In sub subs -> meta_find SRC_LABEL_TAG (sub_meta sub) <> None /\
                              meta_find DST_LABEL_TAG (sub_meta sub) <> None).
Proof.
  revert acc; induction subs as [|sub rest IH]; intros acc H; simpl in H.
  - inversion H; subst. split; [auto|]. split; [|intros ? []].
    intros z; split; [auto|intros [Hz|[sub [[] _]]]; auto].
  - destruct (meta_find SRC_LABEL_TAG (sub_meta sub)) as [sl|] eqn:Es; [|discriminate].
    destruct (meta_find DST_LABEL_TAG (sub_meta sub)) as [dl|] eqn:Ed; [|discriminate].
    destruct (IH _ H) as [Hs [Hm Hmeta]]. split; [|split].
    + intros Hacc; apply Hs, set_insert_sorted, set_insert_sorted, Hacc.
    + intros z. rewrite Hm, !set_insert_In. unfold endpoint_label. split.
      * intros [[Hz|[Hz|Hz]]|[sub' [Hin Hl]]]; subst; eauto 6 using in_eq, in_cons.
      * intros [Hz|[sub' [[<-|Hin] Hl]]]; [tauto| |eauto].
        rewrite Es, Ed in Hl. destruct Hl as [Hl|Hl]; inversion Hl; tauto.
    + intros sub' [<-|Hin]; [rewrite Es, Ed; split; discriminate|auto].
Qed.

Lemma discover_files_Ok efiles acc r :
  discover_files efiles acc = Ok r ->
  (Sorted str_lt acc -> Sorted str_lt r) /\
  (forall z, In z r <-> In z acc \/
     exists subs sub, In subs efiles /\ In sub subs /\ endpoint_label sub z) /\
  (forall subs sub, In subs efiles -> In sub subs ->
     meta_find SRC_LABEL_TAG (sub_meta sub) <> None /\
     meta_find DST_LABEL_TAG (sub_meta sub) <> None).
Proof.
  revert acc; induction efiles as [|subs rest IH]; intros acc H; simpl in H.
  - inversion H; subst. split; [auto|]. split; [|intros ? ? []].
    intros z; split; [auto|intros [Hz|[? [? [[] _]]]]; auto].
  - destruct (discover_subs subs acc) as [acc'|e] eqn:E; simpl in H; [|discriminate].
    destruct (discover_subs_Ok _ _ _ E) as [Hs1 [Hm1 Hmeta1]].
    destruct (IH _ H) as [Hs2 [Hm2 Hmeta2]]. split; [|split].
    + auto.
    + intros z; rewrite Hm2, Hm1. split.
      * intros [[Hz|[sub [Hin Hl]]]|[subs' [sub [Hin [Hin' Hl]]]]]; eauto 8 using in_eq, in_cons.
      * intros [Hz|[subs' [sub [[<-|Hin] [Hin' Hl]]]]]; eauto 8.
    + intros subs' sub [<-|Hin] Hin'; eauto.
Qed.

Lemma str_compare_refl a : String.compare a a = Eq.
Proof.
  pose proof (String.compare_antisym a a) as E.
  destruct (String.compare a a); simpl in E; congruence.
Qed.

Lemma map_find_set_same {V} k (v : V) m : map_find k (map_set k v m) = Some v.
Proof.
  induction m as [|[k' v'] m IH]; simpl; [rewrite String.eqb_refl; reflexivity|].
  destruct (String.compare k k') eqn:C; simpl; try (rewrite String.eqb_refl; reflexivity).
  destruct (String.eqb_spec k k'); [subst; rewrite str_compare_refl in C; discriminate|exact IH].
Qed.

Lemma map_find_set_other {V} k k' (v : V) m :
  k <> k' -> map_find k' (map_set k v m) = map_find k' m.
Proof.
  intros Hne. induction m as [|[k0 v0] m IH]; simpl.
  - destruct (String.eqb_spec k' k); [congruence|reflexivity].
  - destruct (String.compare k k0) eqn:C; simpl.
    + apply String.compare_eq_iff in C; subst.
      destruct (String.eqb_spec k' k0); [congruence|reflexivity].
    + destruct (String.eqb_spec k' k); [congruence|reflexivity].
    + destruct (String.eqb k' k0); [reflexivity|exact IH].
Qed.

Lemma number_labels_other names i m x :
  ~ In x names -> map_find x (number_labels names i m) = map_find x m.
Proof.
  revert i m; induction names as [|n rest IH]; intros i m Hx; simpl; [reflexivity|].
  rewrite IH by (intros H; apply Hx; right; exact H).
  apply map_find_set_other. intros ->; apply Hx; left; reflexivity.
Qed.

Lemma number_labels_nth names i m k L :
  NoDup names -> nth_error names k = Some L ->
  map_find L (number_labels names i m) = Some (i + Z.of_nat k).
Proof.
  revert i m k; induction names as [|n rest IH]; intros i m k Hd Hk; [destruct k; discriminate|].
  inversion Hd as [|? ? Hn Hd']; subst. destruct k as [|k]; simpl in Hk |- *.
  - inversion Hk; subst. rewrite number_labels_other by exact Hn.
    rewrite map_find_set_same. f_equal; lia.
  - rewrite (IH (i + 1) _ k Hd' Hk). f_equal; lia.
Qed.

(** ** The OID sets of the vertex-less mode *)

Lemma oidset_insert_In o s z : In z (oidset_insert o s) <-> z = o \/ In z s.
Proof.
  unfold oidset_insert. destruct (existsb (Z.eqb o) s) eqn:E.
  - apply existsb_exists in E as [y [Hy Ho]]. apply Z.eqb_eq in Ho; subst.
    intuition congruence.
  - rewrite in_app_iff; simpl; intuition congruence.
Qed.

Lemma oidset_insert_NoDup o s : NoDup s -> NoDup (oidset_insert o s).
Proof.
  intros H. unfold oidset_insert. destruct (existsb (Z.eqb o) s) eqn:E; [exact H|].
  apply (Permutation_NoDup (Permutation_cons_append s o)). constructor; [|exact H].
  intros Hin. assert (existsb (Z.eqb o) s = true) by (apply existsb_exists; exists o;
    split; [exact Hin|apply Z.eqb_refl]). congruence.
Qed.

Lemma fold_insert_spec vs s :
  (forall z, In z (fold_left (fun s0 o => oidset_insert o s0) vs s) <-> In z s \/ In z vs) /\
  (NoDup s -> NoDup (fold_left (fun s0 o => oidset_insert o s0) vs s)).
Proof.
  revert s; induction vs as [|v vs IH]; intros s; simpl.
  - split; [intros z; tauto|auto].
  - destruct (IH (oidset_insert v s)) as [Hin Hnd]. split.
    + intros z. rewrite Hin, oidset_insert_In. intuition congruence.
    + intros H; apply Hnd, oidset_insert_NoDup, H.
Qed.

Lemma fold_batch_err (l : list Array) e :
  fold_left (fun acc a =>
               s' <- acc;;
               match a with
               | {| atype := int64; adata := IntData vs |} =>
                   Ok (fold_left (fun s0 o => oidset_insert o s0) vs s')
               | _ => Err (UndefinedBehaviour "chunk is not an oid array")
               end) l (Err e) = Err e.
Proof. induction l; simpl; auto. Qed.

Lemma BatchInsert_spec col s s' :
  BatchInsert col s = Ok s' ->
  (forall z, In z s' <-> In z s \/ In z (column_oids col)) /\ (NoDup s -> NoDup s').
Proof.
  unfold BatchInsert, column_oids. destruct col as [ct cs]; simpl.
  revert s; induction cs as [|a cs IH]; intros s H; simpl in *.
  - inversion H; subst. split; [intros z; tauto|auto].
  - destruct a as [ty d].
    destruct ty; destruct d; simpl in H; try (rewrite fold_batch_err in H; discriminate).
    destruct (IH _ H) as [Hin Hnd]. destruct (fold_insert_spec vs s) as [Hin' Hnd'].
    split.
    + intros z. rewrite Hin, Hin', in_app_iff. tauto.
    + auto.
Qed.

Lemma acquire_Ok rp sp sub st t s1 :
  acquire rp sp sub st = (Ok t, s1) ->
  acquired rp sp sub = Some t /\ vertex_label_to_index_ s1 = vertex_label_to_index_ st.
Proof.
  unfold acquire, acquired, mbind, sync_gs_error.
  destruct (rp sub) as [tb|e]; [|discriminate].
  destruct (sp sub tb) as [t'|e]; intros H; inversion H; subst; auto.
Qed.

Lemma require_meta_Ok k meta msg st v s1 :
  require_meta k meta msg st = (Ok v, s1) -> meta_find k meta = Some v /\ s1 = st.
Proof.
  unfold require_meta, mret, raise. destruct (meta_find k meta);
    intros H; inversion H; subst; auto.
Qed.

Lemma vertex_label_at_Ok x st v s1 :
  vertex_label_at x st = (Ok v, s1) ->
  map_find x (vertex_label_to_index_ st) = Some v /\ s1 = st.
Proof.
  unfold vertex_label_at. destruct (map_find x (vertex_label_to_index_ st));
    intros H; inversion H; subst; auto.
Qed.

Lemma add_edge_vertex_label_Ok e sl dl st u s1 :
  add_edge_vertex_label e sl dl st = (Ok u, s1) ->
  vertex_label_to_index_ s1 = vertex_label_to_index_ st.
Proof. unfold add_edge_vertex_label, modify; intros H; inversion H; reflexivity. Qed.

Lemma check_edge_label_Ok name id st u s1 :
  check_edge_label name id st = (Ok u, s1) ->
  vertex_label_to_index_ s1 = vertex_label_to_index_ st.
Proof.
  unfold check_edge_label. destruct (map_find name (edge_label_to_index_ st)).
  - destruct (_ =? id); intros H; inversion H; reflexivity.
  - intros H; inversion H; reflexivity.
Qed.

Lemma column_Ok t i st c s1 :
  column t i st = (Ok c, s1) -> nth_error (tcolumns t) (Z.to_nat i) = Some c /\ s1 = st.
Proof.
  unfold column, mret, raise. destruct (nth_error (tcolumns t) (Z.to_nat i));
    intros H; inversion H; subst; auto.
Qed.

Lemma oids_batch_insert_Ok oids id col st oids1 s1 :
  oids_batch_insert oids id col st = (Ok oids1, s1) ->
  s1 = st /\ exists s s', nth_error oids (Z.to_nat id) = Some s /\
    BatchInsert col s = Ok s' /\ oids1 = update_nth (Z.to_nat id) s' oids.
Proof.
  unfold oids_batch_insert, mbind, lift, mret, raise.
  destruct (nth_error oids (Z.to_nat id)) as [s|]; [|discriminate].
  destruct (BatchInsert col s) as [s'|e] eqn:E; intros H; inversion H; subst.
  split; [reflexivity|]. exists s, s'. auto.
Qed.

Lemma oids_hold_iff names oids (P Q : string -> Z -> Prop) :
  (forall L o, P L o <-> Q L o) -> oids_hold names oids P -> oids_hold names oids Q.
Proof.
  intros HPQ [Hlen Hh]. split; [exact Hlen|]. intros j L Hj.
  destruct (Hh _ _ Hj) as [s [Hs [Hnd Hm]]]. exists s. split; [exact Hs|].
  split; [exact Hnd|]. intros o. rewrite Hm. apply HPQ.
Qed.

Lemma oids_hold_insert names oids P V L0 id col oids1 :
  NoDup names ->
  (forall k L, nth_error names k = Some L -> map_find L V = Some (Z.of_nat k)) ->
  In L0 names -> map_find L0 V = Some id ->
  oids_hold names oids P ->
  (exists s s', nth_error oids (Z.to_nat id) = Some s /\ BatchInsert col s = Ok s' /\
     oids1 = update_nth (Z.to_nat id) s' oids) ->
  oids_hold names oids1 (fun L o => P L o \/ (L = L0 /\ In o (column_oids col))).
Proof.
  intros Hnd HV Hin Hid [Hlen Hh] [s [s' [Hs [Hb ->]]]].
  apply In_nth_error in Hin as [k0 Hk0].
  pose proof (HV _ _ Hk0) as Hv. rewrite Hid in Hv. inversion Hv; subst id.
  rewrite Nat2Z.id in *.
  destruct (BatchInsert_spec _ _ _ Hb) as [Hbin Hbnd].
  split; [rewrite update_nth_length; exact Hlen|].
  intros j L Hj. destruct (Nat.eq_dec j k0) as [->|Hne].
  - rewrite Hk0 in Hj; inversion Hj; subst L.
    destruct (Hh _ _ Hk0) as [s0 [Hs0 [Hnd0 Hm0]]]. rewrite Hs in Hs0; inversion Hs0; subst s0.
    exists s'. split; [apply update_nth_same, nth_error_Some; congruence|].
    split; [auto|]. intros o. rewrite Hbin, Hm0. intuition auto.
  - destruct (Hh _ _ Hj) as [s0 [Hs0 [Hnd0 Hm0]]]. exists s0.
    rewrite update_nth_other by congruence. split; [exact Hs0|split; [exact Hnd0|]].
    intros o. rewrite Hm0. split; [tauto|]. intros [HP|[-> _]]; [exact HP|].
    exfalso. apply Hne. apply (proj1 (NoDup_nth_error names) Hnd);
      [apply nth_error_Some; congruence|congruence].
Qed.

Lemma ev_load_subs_hold rp sp names e n subs :
  NoDup names ->
  forall oids st P tables oids' st',
  (forall k L, nth_error names k = Some L ->
     map_find L (vertex_label_to_index_ st) = Some (Z.of_nat k)) ->
  (forall sub L, In sub subs -> endpoint_label sub L -> In L names) ->
  oids_hold names oids P ->
  ev_load_subs rp sp e n subs oids st = (Ok (tables, oids'), st') ->
  vertex_label_to_index_ st' = vertex_label_to_index_ st /\
  oids_hold names oids'
    (fun L o => P L o \/ exists sub, In sub subs /\ endpoint_of rp sp sub L o).
Proof.
  intros Hnd. induction subs as [|sub rest IH];
    intros oids st P tables oids' st' HV Hlab Hh H; simpl in H.
  - unfold mret in H; inversion H; subst. split; [reflexivity|].
    eapply oids_hold_iff; [|exact Hh]. intros L o; simpl. firstorder.
  - apply mbind_Ok_inv in H as [t [s1 [Ha H]]]. apply acquire_Ok in Ha as [Hacq HV1].
    apply mbind_Ok_inv in H as [lbl [s2 [Hm H]]]. apply require_meta_Ok in Hm as [Hlbl ->].
    apply mbind_Ok_inv in H as [src [s3 [Hm H]]]. apply require_meta_Ok in Hm as [Hsrc ->].
    apply mbind_Ok_inv in H as [sid [s4 [Hm H]]]. apply vertex_label_at_Ok in Hm as [Hsid ->].
    apply mbind_Ok_inv in H as [dst [s5 [Hm H]]]. apply require_meta_Ok in Hm as [Hdst ->].
    apply mbind_Ok_inv in H as [did [s6 [Hm H]]]. apply vertex_label_at_Ok in Hm as [Hdid ->].
    apply mbind_Ok_inv in H as [u1 [s7 [Hm7 H]]]. apply add_edge_vertex_label_Ok in Hm7 as HV7.
    apply mbind_Ok_inv in H as [u2 [s8 [Hm8 H]]]. apply check_edge_label_Ok in Hm8 as HV8.
    apply mbind_Ok_inv in H as [c1 [s9 [Hm H]]]. apply column_Ok in Hm as [Hc1 ->].
    apply mbind_Ok_inv in H as [o1 [s10 [Hm H]]]. apply oids_batch_insert_Ok in Hm as [-> Hi1].
    apply mbind_Ok_inv in H as [c2 [s11 [Hm H]]]. apply column_Ok in Hm as [Hc2 ->].
    apply mbind_Ok_inv in H as [o2 [s12 [Hm H]]]. apply oids_batch_insert_Ok in Hm as [-> Hi2].
    apply mbind_Ok_inv in H as [[tb o3] [s13 [Hrec H]]].
    simpl in H. unfold mret in H. inversion H; subst s13 o3.
    change (tcolumns (ReplaceSchemaMetadata t ?m)) with (tcolumns t) in Hc1, Hc2.
    rewrite HV1 in Hsid, Hdid.
    assert (HVs : vertex_label_to_index_ s8 = vertex_label_to_index_ st) by congruence.
    assert (Hsrc_in : In src names) by (apply (Hlab sub); [left; reflexivity|left; exact Hsrc]).
    assert (Hdst_in : In dst names) by (apply (Hlab sub); [left; reflexivity|right; exact Hdst]).
    pose proof (oids_hold_insert _ _ _ _ _ _ _ _ Hnd HV Hsrc_in Hsid Hh Hi1) as Hh1.
    pose proof (oids_hold_insert _ _ _ _ _ _ _ _ Hnd HV Hdst_in Hdid Hh1 Hi2) as Hh2.
    destruct (IH _ _ _ _ _ _ (eq_ind_r (fun V => forall k L, nth_error names k = Some L ->
                 map_find L V = Some (Z.of_nat k)) HV HVs)
                (fun sub' L Hin => Hlab sub' L (or_intror Hin)) Hh2 Hrec) as [HVr Hhr].
    split; [congruence|].
    eapply oids_hold_iff; [|exact Hhr]. intros L o. split.
    + intros [[[HP|[-> Ho]]|[-> Ho]]|[sub' [Hin' He]]].
      * left; exact HP.
      * right. exists sub. split; [left; reflexivity|].
        exists t. split; [exact Hacq|]. left. split; [exact Hsrc|]. exists c1; auto.
      * right. exists sub. split; [left; reflexivity|].
        exists t. split; [exact Hacq|]. right. split; [exact Hdst|]. exists c2; auto.
      * right. exists sub'. split; [right; exact Hin'|exact He].
    + intros [HP|[sub' [[<-|Hin'] He]]].
      * left; left; left; exact HP.
      * destruct He as [t' [Hacq' [[Hs' [c [Hc Ho]]]|[Hd' [c [Hc Ho]]]]]];
          rewrite Hacq in Hacq'; inversion Hacq'; subst t'.
        -- rewrite Hsrc in Hs'; inversion Hs'; subst L.
           left; left; right. split; [reflexivity|congruence].
        -- rewrite Hdst in Hd'; inversion Hd'; subst L.
           left; right. split; [reflexivity|congruence].
      * right. exists sub'. auto.
Qed.

Lemma ev_load_files_hold rp sp names :
  NoDup names ->
  forall efiles e oids st P tables oids' st',
  (forall k L, nth_error names k = Some L ->
     map_find L (vertex_label_to_index_ st) = Some (Z.of_nat k)) ->
  (forall subs sub L, In subs efiles -> In sub subs -> endpoint_label sub L -> In L names) ->
  oids_hold names oids P ->
  ev_load_files rp sp e efiles oids st = (Ok (tables, oids'), st') ->
  vertex_label_to_index_ st' = vertex_label_to_index_ st /\
  oids_hold names oids' (fun L o => P L o \/
    exists subs sub, In subs efiles /\ In sub subs /\ endpoint_of rp sp sub L o).
Proof.
  intros Hnd efiles. induction efiles as [|subs rest IH];
    intros e oids st P tables oids' st' HV Hlab Hh H; simpl in H.
  - unfold mret in H; inversion H; subst. split; [reflexivity|].
    eapply oids_hold_iff; [|exact Hh]. intros L o; simpl. firstorder.
  - apply mbind_Ok_inv in H as [[tb o1] [s1 [Hs H]]]. simpl in H.
    apply mbind_Ok_inv in H as [[ot o2] [s2 [Hr H]]]. simpl in H.
    unfold mret in H. inversion H; subst s2 o2.
    destruct (ev_load_subs_hold _ _ _ _ _ _ Hnd _ _ _ _ _ _ HV
                (fun sub L Hin => Hlab subs sub L (or_introl eq_refl) Hin) Hh Hs) as [HV1 Hh1].
    destruct (IH _ _ _ _ _ _ _ (eq_ind_r (fun V => forall k L, nth_error names k = Some L ->
                 map_find L V = Some (Z.of_nat k)) HV HV1)
                (fun subs' sub L Hin => Hlab subs' sub L (or_intror Hin)) Hh1 Hr) as [HV2 Hh2].
    split; [congruence|].
    eapply oids_hold_iff; [|exact Hh2]. intros L o. split.
    + intros [[HP|[sub [Hin He]]]|[subs' [sub [Hin [Hin' He]]]]].
      * left; exact HP.
      * right. exists subs, sub. split; [left; reflexivity|auto].
      * right. exists subs', sub. split; [right; exact Hin|auto].
    + intros [HP|[subs' [sub [[<-|Hin] [Hin' He]]]]].
      * left; left; exact HP.
      * left; right. exists sub; auto.
      * right. exists subs', sub; auto.
Qed.

Lemma build_vtables_Ok names : forall oids v vts,
  build_vtables names oids v = Ok vts ->
  List.length vts = List.length names /\
  forall i L, nth_error names i = Some L ->
    exists s, nth_error oids i = Some s /\
      nth_error vts i = Some (vertex_table L (v + Z.of_nat i) (mkArray int64 (IntData s))).
Proof.
  induction names as [|n rest IH]; intros oids v vts H; simpl in H.
  - inversion H; subst. split; [reflexivity|]. intros [|i] L Hi; discriminate.
  - destruct oids as [|s oids]; [discriminate|]. unfold ToArrowArray in H. simpl in H.
    destruct (build_vtables rest oids (v + 1)) as [vs|err] eqn:E; simpl in H; [|discriminate].
    inversion H; subst. destruct (IH _ _ _ E) as [Hl Hn]. split; [simpl; congruence|].
    intros [|i] L Hi; simpl in Hi.
    + inversion Hi; subst. exists s. split; [reflexivity|]. simpl. rewrite Z.add_0_r. reflexivity.
    + destruct (Hn _ _ Hi) as [s' [Hs Hv]]. exists s'. split; [exact Hs|].
      change (nth_error vs i =
        Some (vertex_table L (v + Z.of_nat (S i)) (mkArray int64 (IntData s')))).
      rewrite Hv. replace (v + Z.of_nat (S i)) with (v + 1 + Z.of_nat i) by lia.
      reflexivity.
Qed.

(** ** C5: the synthetic vertex tables of the vertex-less mode *)

(** C5. In vertex-less mode, when [loadEVTablesFromEFiles] succeeds, the
    vertex label names are those discovered from the edge sub-sources'
    src/dst labels, kept as a strictly sorted (lexicographic, duplicate-free)
    set that depends only on the edge files; the i-th name gets label index i;
    and the i-th returned vertex table is the single-column table of that
    label holding a duplicate-free OID array whose elements are exactly the
    OIDs occurring under that label in the src or dst column of a scanned
    edge sub-source. *)
Theorem loadEVTablesFromEFiles_vertex_tables rp sp efiles st vt et st' :
  loadEVTablesFromEFiles rp sp efiles st = (Ok (vt, et), st') ->
  exists names,
    discover_files efiles [] = Ok names /\
    Sorted str_lt names /\ NoDup names /\
    (forall L, In L names <->
       exists subs sub, In subs efiles /\ In sub subs /\ endpoint_label sub L) /\
    (forall i L, nth_error names i = Some L ->
       map_find L (vertex_label_to_index_ st') = Some (Z.of_nat i)) /\
    List.length vt = List.length names /\
    (forall i L, nth_error names i = Some L ->
       exists oids,
         nth_error vt i = Some (vertex_table L (Z.of_nat i) (mkArray int64 (IntData oids))) /\
         NoDup oids /\
         forall o, In o oids <->
           exists subs sub, In subs efiles /\ In sub subs /\ endpoint_of rp sp sub L o).
Proof.
  intros H. unfold loadEVTablesFromEFiles in H.
  apply mbind_Ok_inv in H as [names [s1 [Hd H]]]. unfold lift in Hd.
  injection Hd as Hd <-.
  apply mbind_Ok_inv in H as [u [s2 [Hm H]]]. unfold modify in Hm.
  injection Hm as _ <-.
  apply mbind_Ok_inv in H as [[etables oids] [s3 [He H]]]. simpl in H.
  apply mbind_Ok_inv in H as [vts [s4 [Hb H]]]. unfold lift in Hb.
  injection Hb as Hb <-.
  unfold mret in H. inversion H; subst vts etables st'. clear H.
  destruct (discover_files_Ok _ _ _ Hd) as [Hsort [Hmem _]].
  assert (Hs : Sorted str_lt names) by (apply Hsort; constructor).
  assert (Hnd : NoDup names) by (apply sorted_NoDup, Hs).
  assert (Hlab : forall subs sub L, In subs efiles -> In sub subs -> endpoint_label sub L ->
                   In L names) by (intros subs sub L H1 H2 H3; apply Hmem; right; eauto).
  assert (HV0 : forall k L, nth_error names k = Some L ->
            map_find L (vertex_label_to_index_
              (set_vertex_labels (number_labels names 0 (vertex_label_to_index_ st))
                 (Z.of_nat (List.length names)) st)) = Some (Z.of_nat k)).
  { intros k L Hk. simpl. rewrite (number_labels_nth _ _ _ _ _ Hnd Hk). reflexivity. }
  assert (Hh0 : oids_hold names (repeat [] (List.length names)) (fun _ _ => False)).
  { split; [apply repeat_length|]. intros j L Hj. exists []. split.
    - apply nth_error_repeat', nth_error_Some. congruence.
    - split; [constructor|]. intros o; simpl; tauto. }
  destruct (ev_load_files_hold _ _ _ Hnd _ _ _ _ _ _ _ _ HV0 Hlab Hh0 He) as [HV3 [_ Hh]].
  destruct (build_vtables_Ok _ _ _ _ Hb) as [Hl Hbv].
  exists names. split; [exact Hd|]. split; [exact Hs|]. split; [exact Hnd|].
  split; [intros L; rewrite Hmem; simpl; tauto|].
  split; [intros i L Hi; rewrite HV3; apply HV0, Hi|].
  split; [exact Hl|].
  intros i L Hi. destruct (Hbv _ _ Hi) as [s [Hsi Hvt]].
  destruct (Hh _ _ Hi) as [s' [Hsi' [Hnds Hms]]]. rewrite Hsi in Hsi'.
  injection Hsi' as <-. exists s. split; [exact Hvt|]. split; [exact Hnds|].
  intros o. rewrite Hms. tauto.
Qed.

Lemma loadEVTablesFromEFiles_vertex_tables_witness :
  exists et st',
    loadEVTablesFromEFiles read_sample sync_single buy_files empty_state =
      (Ok ([vertex_table "item" 0 (mkArray int64 (IntData [2; 3]));
            vertex_table "person" 1 (mkArray int64 (IntData [1; 2]))], et), st') /\
  exists names,
    discover_files buy_files [] = Ok names /\
    Sorted str_lt names /\ NoDup names /\
    (forall L, In L names <->
       exists subs sub, In subs buy_files /\ In sub subs /\ endpoint_label sub L) /\
    (forall i L, nth_error names i = Some L ->
       map_find L (vertex_label_to_index_ st') = Some (Z.of_nat i)) /\
    List.length [vertex_table "item" 0 (mkArray int64 (IntData [2; 3]));
                 vertex_table "person" 1 (mkArray int64 (IntData [1; 2]))]
      = List.length names /\
    (forall i L, nth_error names i = Some L ->
       exists oids,
         nth_error [vertex_table "item" 0 (mkArray int64 (IntData [2; 3]));
                    vertex_table "person" 1 (mkArray int64 (IntData [1; 2]))] i
           = Some (vertex_table L (Z.of_nat i) (mkArray int64 (IntData oids))) /\
         NoDup oids /\
         forall o, In o oids <->
           exists subs sub, In subs buy_files /\ In sub subs /\
             endpoint_of read_sample sync_single sub L o).
Proof.
  eexists. eexists. split.
  - reflexivity.
  - eapply (loadEVTablesFromEFiles_vertex_tables read_sample sync_single buy_files
      empty_state). reflexivity.
Defined.

(** ** [swapColumn] *)

Lemma remove_nth_app {A} r (xs : list A) :
  remove_nth r xs = app (firstn r xs) (skipn (S r) xs).
Proof.
  revert r; induction xs as [|y ys IH]; intros [|r]; simpl; auto. f_equal; apply IH.
Qed.

Lemma remove_nth_length {A} r (xs : list A) :
  (r < List.length xs)%nat -> List.length (remove_nth r xs) = Nat.pred (List.length xs).
Proof.
  revert r; induction xs as [|y ys IH]; intros [|r] H; simpl in *; try lia.
  rewrite IH by lia. destruct ys; simpl in *; lia.
Qed.

Lemma insert_remove_move {A} l r (x : A) xs :
  (l < r)%nat -> (r < List.length xs)%nat ->
  insert_nth l x (remove_nth r xs) = move_to l r x xs.
Proof.
  revert l r; induction xs as [|y ys IH]; intros l r Hlr Hr; simpl in Hr; [lia|].
  destruct r as [|r]; [lia|]. destruct l as [|l].
  - unfold move_to. rewrite remove_nth_app. reflexivity.
  - simpl. rewrite IH by lia. reflexivity.
Qed.

(** X1. For a well-formed table whose columns all have the table's row
    count, and indices [0 <= lhs] and [0 <= rhs < num_columns]:
    with [lhs < rhs], [swapColumn] returns OK and sets [*out] to the table
    whose column (and field) [rhs] is moved to index [lhs], the columns
    from [lhs] to [rhs - 1] moving up by one (a rotation, not a swap: the
    old column [lhs] does not go to [rhs]); with [lhs = rhs] it returns OK
    but leaves [*out] as it was; with [lhs > rhs] it returns Invalid and
    leaves [*out] as it was. *)
Theorem swapColumn_moves_column in_ lhs rhs out :
  wf_table in_ = true -> same_rows in_ = true ->
  0 <= lhs -> 0 <= rhs < Z.of_nat (List.length (tschema in_)) ->
  exists f c,
    nth_error (tschema in_) (Z.to_nat rhs) = Some f /\
    nth_error (tcolumns in_) (Z.to_nat rhs) = Some c /\
    swapColumn in_ lhs rhs out =
      if lhs <? rhs then
        Ok (ArrowOK, Some (mkTable (move_to (Z.to_nat lhs) (Z.to_nat rhs) f (tschema in_))
                                   (tmeta in_)
                                   (move_to (Z.to_nat lhs) (Z.to_nat rhs) c (tcolumns in_))))
      else if lhs =? rhs then Ok (ArrowOK, out)
      else Ok (ArrowInvalid "lhs index must smaller than rhs index.", out).
Proof.
  intros Hwf Hrows Hl Hr.
  destruct (columns_fit_nth _ _ Hwf) as [Hlen Hfit].
  destruct (nth_error (tschema in_) (Z.to_nat rhs)) as [f|] eqn:Hf;
    [|apply nth_error_None in Hf; lia].
  destruct (nth_error (tcolumns in_) (Z.to_nat rhs)) as [c|] eqn:Hc;
    [|apply nth_error_None in Hc; lia].
  exists f, c. split; [reflexivity|]. split; [reflexivity|].
  unfold swapColumn. destruct (Z.ltb_spec lhs rhs) as [Hlt|Hge].
  - rewrite (proj2 (Z.eqb_neq lhs rhs)) by lia.
    rewrite Z.gtb_ltb. replace (rhs <? lhs) with false by (symmetry; apply Z.ltb_ge; lia).
    unfold vec_at. replace (rhs <? 0) with false by (symmetry; apply Z.ltb_ge; lia).
    rewrite Hf, Hc. unfold RemoveColumn.
    replace ((0 <=? rhs) && (rhs <? Z.of_nat (List.length (tschema in_)))) with true
      by (symmetry; apply andb_true_iff; split; [apply Z.leb_le|apply Z.ltb_lt]; lia).
    simpl check_arrow. cbn [rbind]. unfold AddColumn. cbn [tschema tcolumns tmeta].
    assert (Hcl : column_length c = num_rows in_).
    { unfold same_rows in Hrows. rewrite forallb_forall in Hrows.
      apply Nat.eqb_eq, Hrows. eapply nth_error_In; exact Hc. }
    rewrite Hcl, Nat.eqb_refl. cbn [negb].
    pose proof (Hfit _ _ _ Hf Hc) as Hcf. unfold column_fits in Hcf.
    apply andb_true_iff in Hcf as [Hty _]. apply Equals_true in Hty. rewrite Hty, Equals_refl.
    cbn [negb].
    rewrite remove_nth_length by lia.
    replace ((0 <=? lhs) && (lhs <=? Z.of_nat (Nat.pred (List.length (tschema in_))))) with true
      by (symmetry; apply andb_true_iff; split; [apply Z.leb_le|apply Z.leb_le]; lia).
    simpl check_arrow. cbn [rbind].
    rewrite !insert_remove_move by lia. reflexivity.
  - destruct (Z.eqb_spec lhs rhs) as [->|Hne]; [reflexivity|].
    rewrite Z.gtb_ltb. replace (rhs <? lhs) with true by (symmetry; apply Z.ltb_lt; lia).
    reflexivity.
Qed.

Lemma swapColumn_moves_column_witness :
  wf_table three_columns = true /\ same_rows three_columns = true /\
  exists f c,
    nth_error (tschema three_columns) (Z.to_nat 2) = Some f /\
    nth_error (tcolumns three_columns) (Z.to_nat 2) = Some c /\
    swapColumn three_columns 0 2 None =
      if 0 <? 2 then
        Ok (ArrowOK, Some (mkTable (move_to (Z.to_nat 0) (Z.to_nat 2) f (tschema three_columns))
                                   (tmeta three_columns)
                                   (move_to (Z.to_nat 0) (Z.to_nat 2) c (tcolumns three_columns))))
      else if 0 =? 2 then Ok (ArrowOK, None)
      else Ok (ArrowInvalid "lhs index must smaller than rhs index.", None).
Proof.
  split; [reflexivity|]. split; [reflexivity|].
  apply swapColumn_moves_column; [reflexivity|reflexivity|lia|simpl; lia].
Defined.

(** X2. [ObjectMeta.get] is [__getitem__] with a default. Where the key is
    absent, [__getitem__] raises its KeyError and [get] returns the default.
    Where it is present, both give the same result: the member's metadata,
    the leaf's string, or, for a leaf whose bytes are not UTF-8 (as
    [__setitem__] with [bytes] can store), the same UnicodeDecodeError.
    [__getitem__] raises nothing else, and [get] only that
    UnicodeDecodeError. *)
Theorem meta_get_is_getitem_with_default {MM MO : Type}
    (GetMemberMeta : ptree -> string -> MM) (tree : ptree) (key : string)
    (default_value : PyValue MM MO) :
  (ptree_find tree key = None ->
     meta_getitem (MemberObject := MO) GetMemberMeta tree key =
       PyRaise (KeyError ("key '" ++ key ++ "' does not exist")) /\
     meta_get GetMemberMeta tree key default_value = PyOk default_value) /\
  (ptree_find tree key <> None ->
     meta_get GetMemberMeta tree key default_value = meta_getitem GetMemberMeta tree key) /\
  (forall e, meta_getitem (MemberObject := MO) GetMemberMeta tree key = PyRaise e ->
     e = KeyError ("key '" ++ key ++ "' does not exist") \/
     exists node, ptree_find tree key = Some node /\ ptree_empty node = true /\
       utf8_valid (string_bytes (ptree_data node)) = false /\
       e = UnicodeDecodeError (ptree_data node)) /\
  (forall e, meta_get GetMemberMeta tree key default_value = PyRaise e ->
     exists d, e = UnicodeDecodeError d).
Proof.
  unfold meta_getitem, meta_get, py_cast_string.
  destruct (ptree_find tree key) as [node|] eqn:Ef;
    [|split; [split; reflexivity|split; [congruence|split; intros e H;
        [left; congruence|discriminate]]]].
  split; [discriminate|]. split; [reflexivity|].
  destruct (ptree_empty node) eqn:Ee; [|split; intros e H; discriminate].
  destruct (utf8_valid (string_bytes (ptree_data node))) eqn:Eu;
    [split; intros e H; discriminate|].
  split; intros e H; injection H as <-; [right; eauto 7|eauto].
Qed.

(** X3. [ObjectMeta.get_member] returns [None] exactly when [__getitem__]
    raises its KeyError for a missing key; it fails its assertion exactly
    when the key names a leaf, where [__getitem__] gives a string or, for
    bytes that are not UTF-8, raises UnicodeDecodeError; and it returns the
    member object exactly when [__getitem__] gives a member's metadata. *)
Theorem meta_get_member_vs_getitem {MM MO : Type}
    (GetMemberMeta : ptree -> string -> MM) (GetMember : ptree -> string -> MO)
    (tree : ptree) (key : string) :
  (meta_get_member (MemberMeta := MM) GetMember tree key = PyOk PyNone <->
     meta_getitem (MemberObject := MO) GetMemberMeta tree key =
       PyRaise (KeyError ("key '" ++ key ++ "' does not exist"))) /\
  (meta_get_member (MemberMeta := MM) GetMember tree key =
     PyRaise (AssertionFailed "The value is not a member, but a meta") <->
     (exists s, meta_getitem (MemberObject := MO) GetMemberMeta tree key = PyOk (PyStr s)) \/
     (exists d, meta_getitem (MemberObject := MO) GetMemberMeta tree key =
                  PyRaise (UnicodeDecodeError d))) /\
  (meta_get_member (MemberMeta := MM) GetMember tree key = PyOk (PyObject (GetMember tree key)) <->
     meta_getitem (MemberObject := MO) GetMemberMeta tree key =
       PyOk (PyMeta (GetMemberMeta tree key))).
Proof.
  unfold meta_get_member, meta_getitem, py_cast_string.
  destruct (ptree_find tree key) as [node|];
    [destruct (ptree_empty node); [destruct (utf8_valid (string_bytes (ptree_data node)))|]|];
    cbn [negb]; repeat split; intros H;
    first [discriminate | (destruct H as [[? H]|[? H]]; discriminate) | reflexivity
          | eauto | (destruct H as [[? H]|[? H]]; reflexivity)].
Qed.

Lemma meta_get_is_getitem_with_default_witness :
  meta_get (fun (_ : ptree) (_ : string) => tt) byte_leaves "raw" (@PyNone unit unit) =
    meta_getitem (fun (_ : ptree) (_ : string) => tt) byte_leaves "raw" /\
  meta_getitem (MemberObject := unit) (fun (_ : ptree) (_ : string) => tt) byte_leaves "raw" =
    PyRaise (UnicodeDecodeError (String (ascii_of_nat 255) EmptyString)) /\
  meta_get (fun (_ : ptree) (_ : string) => tt) byte_leaves "name" (@PyNone unit unit) =
    meta_getitem (fun (_ : ptree) (_ : string) => tt) byte_leaves "name" /\
  meta_getitem (MemberObject := unit) (fun (_ : ptree) (_ : string) => tt) byte_leaves "name" =
    PyOk (PyStr (String (ascii_of_nat 195) (String (ascii_of_nat 169) EmptyString))) /\
  meta_get (fun (_ : ptree) (_ : string) => tt) byte_leaves "missing" (@PyNone unit unit) =
    PyOk PyNone.
Proof.
  split; [apply (proj1 (proj2 (meta_get_is_getitem_with_default _ _ _ _))); discriminate|].
  split; [reflexivity|].
  split; [apply (proj1 (proj2 (meta_get_is_getitem_with_default _ _ _ _))); discriminate|].
  split; [reflexivity|].
  apply (proj1 (meta_get_is_getitem_with_default _ _ _ _)). reflexivity.
Defined.

Lemma replace_nth_split {A} (n : nat) (x : A) (l : list A) :
  (n < List.length l)%nat ->
  replace_nth n x l = app (firstn n l) (x :: skipn (S n) l).
Proof.
  revert n; induction l as [|y l IH]; intros n Hn; [simpl in Hn; lia|].
  destruct n as [|n]; [reflexivity|].
  simpl. rewrite IH by (simpl in Hn; lia). reflexivity.
Qed.

(** The list the in-bounds [memcpy] leaves, read index by index. *)
Lemma splice_nth {A} (data bs : list A) (o : nat) (j : nat) :
  (o + List.length bs <= List.length data)%nat ->
  List.length (app (firstn o data) (app bs (skipn (o + List.length bs) data)))
    = List.length data /\
  nth_error (app (firstn o data) (app bs (skipn (o + List.length bs) data))) j =
    if Nat.ltb j o then nth_error data j
    else if Nat.ltb j (o + List.length bs) then nth_error bs (j - o)
    else nth_error data j.
Proof.
  intros Hle.
  assert (Hf : List.length (firstn o data) = o) by (apply firstn_length_le; lia).
  split.
  { rewrite !length_app, Hf, length_skipn. lia. }
  destruct (Nat.ltb_spec j o) as [Hj|Hj].
  - rewrite nth_error_app1 by lia.
    rewrite <- (firstn_skipn o data) at 2. rewrite nth_error_app1 by lia. reflexivity.
  - rewrite nth_error_app2 by lia. rewrite Hf.
    destruct (Nat.ltb_spec j (o + List.length bs)) as [Hj'|Hj'].
    + rewrite nth_error_app1 by lia. reflexivity.
    + rewrite nth_error_app2 by lia. rewrite nth_error_skipn. f_equal. lia.
Qed.

(** X4. [BlobWriter.copy(offset, bytes)] within the blob (offset plus the
    byte count at most its size): it succeeds, keeps the size, afterwards
    [__getitem__(offset + i)] gives the [i]-th copied byte, and every index
    outside the copied range reads as before. *)
Theorem blob_copy_in_bounds (data : list Z) (offset : Z) (bs : list Z) :
  0 <= offset ->
  offset + Z.of_nat (List.length bs) <= Z.of_nat (List.length data) ->
  Z.of_nat (List.length data) < size_t_modulus ->
  exists data',
    blob_copy data offset bs = Ok data' /\
    List.length data' = List.length data /\
    (forall i, (i < List.length bs)%nat ->
       blob_getitem data' (offset + Z.of_nat i) = Ok (nth i bs 0)) /\
    (forall j, 0 <= j -> j < offset \/ offset + Z.of_nat (List.length bs) <= j ->
       blob_getitem data' j = blob_getitem data j).
Proof.
  intros Ho Hin Hsz.
  unfold blob_copy, size_t_modulus in *.
  rewrite Z.mod_small by lia.
  replace (offset + Z.of_nat (List.length bs) <=? Z.of_nat (List.length data)) with true
    by (symmetry; apply Z.leb_le; lia).
  replace (Z.to_nat (offset + Z.of_nat (List.length bs)))
    with (Z.to_nat offset + List.length bs)%nat by lia.
  eexists; split; [reflexivity|].
  assert (Hle : (Z.to_nat offset + List.length bs <= List.length data)%nat) by lia.
  split; [apply (splice_nth data bs (Z.to_nat offset) 0 Hle)|].
  split.
  - intros i Hi. unfold blob_getitem.
    rewrite (proj2 (splice_nth data bs (Z.to_nat offset) _ Hle)).
    replace (Z.to_nat (offset + Z.of_nat i)) with (Z.to_nat offset + i)%nat by lia.
    replace (Nat.ltb (Z.to_nat offset + i) (Z.to_nat offset)) with false
      by (symmetry; apply Nat.ltb_ge; lia).
    replace (Nat.ltb (Z.to_nat offset + i) (Z.to_nat offset + List.length bs)) with true
      by (symmetry; apply Nat.ltb_lt; lia).
    replace (Z.to_nat offset + i - Z.to_nat offset)%nat with i by lia.
    rewrite (nth_error_nth' bs 0) by lia. reflexivity.
  - intros j Hj Hout. unfold blob_getitem.
    rewrite (proj2 (splice_nth data bs (Z.to_nat offset) _ Hle)).
    destruct (Nat.ltb_spec (Z.to_nat j) (Z.to_nat offset)); [reflexivity|].
    replace (Nat.ltb (Z.to_nat j) (Z.to_nat offset + List.length bs)) with false
      by (symmetry; apply Nat.ltb_ge; lia).
    reflexivity.
Qed.

(** X5. The assertion of [BlobWriter.copy] is on the [size_t] sum
    [offset + ss.size()]: for an offset in [size_t], a sum past the size
    but below 2^64 is caught, while a sum that wraps past 2^64 to at most
    the size passes the assertion and the [memcpy] writes past the blob. *)
Theorem blob_copy_assert_wraps (data : list Z) (offset : Z) (bs : list Z) :
  0 <= offset < size_t_modulus ->
  Z.of_nat (List.length data) < size_t_modulus ->
  (Z.of_nat (List.length data) < offset + Z.of_nat (List.length bs) < size_t_modulus ->
     blob_copy data offset bs = Err (CheckFailed "offset + ss.size() <= self->size()")) /\
  (size_t_modulus <= offset + Z.of_nat (List.length bs)
                  <= size_t_modulus + Z.of_nat (List.length data) ->
     blob_copy data offset bs = Err (UndefinedBehaviour "memcpy beyond the blob")).
Proof.
  intros Ho Hsz. unfold blob_copy. split; intros Hn.
  - rewrite Z.mod_small by lia.
    replace (offset + Z.of_nat (List.length bs) <=? Z.of_nat (List.length data)) with false
      by (symmetry; apply Z.leb_gt; lia).
    reflexivity.
  - assert (Hm : (offset + Z.of_nat (List.length bs)) mod size_t_modulus
                 = offset + Z.of_nat (List.length bs) - size_t_modulus).
    { rewrite <- (Z.mod_small (offset + Z.of_nat (List.length bs) - size_t_modulus)
                    size_t_modulus) by (unfold size_t_modulus in *; lia).
      replace (offset + Z.of_nat (List.length bs))
        with ((offset + Z.of_nat (List.length bs) - size_t_modulus) + 1 * size_t_modulus)
        at 1 by lia.
      apply Z_mod_plus_full. }
    rewrite Hm.
    replace (offset + Z.of_nat (List.length bs) - size_t_modulus
               <=? Z.of_nat (List.length data)) with true
      by (symmetry; apply Z.leb_le; lia).
    replace (offset + Z.of_nat (List.length bs) <=? Z.of_nat (List.length data)) with false
      by (symmetry; apply Z.leb_gt; unfold size_t_modulus in *; lia).
    reflexivity.
Qed.

(** X6. [BlobWriter.__setitem__] of an [int8_t] value within the blob
    writes one byte: [__getitem__] then reads it at that index and the old
    byte elsewhere; and [copy] of a one-byte string at that offset leaves
    the same blob. A value outside [-128, 127] raises TypeError and writes
    nothing. *)
Theorem blob_setitem_get_and_copy (data : list Z) (index value : Z) :
  0 <= index < Z.of_nat (List.length data) ->
  Z.of_nat (List.length data) < size_t_modulus ->
  (value < -128 \/ 127 < value ->
   blob_setitem data index value = Err (PyTypeError "__setitem__(): incompatible function arguments")) /\
  (-128 <= value <= 127 ->
  exists data',
    blob_setitem data index value = Ok data' /\
    blob_getitem data' index = Ok value /\
    (forall j, 0 <= j -> j <> index -> blob_getitem data' j = blob_getitem data j) /\
    blob_copy data index [value] = Ok data').
Proof.
  intros Hi Hsz. split.
  { intros Hv. unfold blob_setitem.
    replace ((0 <=? index) && (index <? size_t_modulus) && (-128 <=? value) && (value <=? 127))
      with false; [reflexivity|].
    destruct Hv as [Hv|Hv];
      [replace (-128 <=? value) with false by (symmetry; apply Z.leb_gt; lia)
      |replace (value <=? 127) with false by (symmetry; apply Z.leb_gt; lia)];
      rewrite ?andb_false_r; reflexivity. }
  intros Hv.
  assert (Hsplit : replace_nth (Z.to_nat index) value data
                   = app (firstn (Z.to_nat index) data)
                         (app [value] (skipn (Z.to_nat index + List.length [value]) data))).
  { rewrite replace_nth_split by lia.
    replace (Z.to_nat index + List.length [value])%nat with (S (Z.to_nat index))
      by (simpl; lia).
    reflexivity. }
  assert (Hle : (Z.to_nat index + List.length [value] <= List.length data)%nat)
    by (simpl; lia).
  exists (replace_nth (Z.to_nat index) value data).
  split.
  { unfold blob_setitem.
    replace ((0 <=? index) && (index <? size_t_modulus) && (-128 <=? value) && (value <=? 127))
      with true by (symmetry; rewrite !andb_true_iff, !Z.leb_le, Z.ltb_lt; lia).
    rewrite (proj2 (Nat.ltb_lt _ _)) by lia. reflexivity. }
  split; [|split].
  - unfold blob_getitem. rewrite Hsplit, (proj2 (splice_nth _ _ _ _ Hle)).
    rewrite Nat.ltb_irrefl.
    replace (Nat.ltb (Z.to_nat index) (Z.to_nat index + List.length [value])) with true
      by (symmetry; apply Nat.ltb_lt; simpl; lia).
    rewrite Nat.sub_diag. reflexivity.
  - intros j Hj Hne. unfold blob_getitem. rewrite Hsplit, (proj2 (splice_nth _ _ _ _ Hle)).
    destruct (Nat.ltb_spec (Z.to_nat j) (Z.to_nat index)); [reflexivity|].
    replace (Nat.ltb (Z.to_nat j) (Z.to_nat index + List.length [value])) with false
      by (symmetry; apply Nat.ltb_ge; simpl; lia).
    reflexivity.
  - unfold blob_copy. rewrite Z.mod_small by (unfold size_t_modulus in *; simpl; lia).
    replace (index + Z.of_nat (List.length [value]) <=? Z.of_nat (List.length data)) with true
      by (symmetry; apply Z.leb_le; simpl; lia).
    rewrite Hsplit.
    replace (Z.to_nat (index + Z.of_nat (List.length [value])))
      with (Z.to_nat index + List.length [value])%nat by (simpl; lia).
    reflexivity.
Qed.

Lemma blob_copy_in_bounds_witness :
  (0 <= 1 /\ 1 + Z.of_nat (List.length [7; 8]) <= Z.of_nat (List.length [0; 0; 0; 0]) /\
   Z.of_nat (List.length [0; 0; 0; 0]) < size_t_modulus) /\
  exists data',
    blob_copy [0; 0; 0; 0] 1 [7; 8] = Ok data' /\
    List.length data' = List.length [0; 0; 0; 0] /\
    (forall i, (i < List.length [7; 8])%nat ->
       blob_getitem data' (1 + Z.of_nat i) = Ok (nth i [7; 8] 0)) /\
    (forall j, 0 <= j -> j < 1 \/ 1 + Z.of_nat (List.length [7; 8]) <= j ->
       blob_getitem data' j = blob_getitem [0; 0; 0; 0] j).
Proof.
  split; [unfold size_t_modulus; simpl; lia|].
  apply blob_copy_in_bounds; unfold size_t_modulus; simpl; lia.
Defined.

Lemma blob_copy_assert_wraps_witness :
  (0 <= size_t_modulus - 1 < size_t_modulus /\
   Z.of_nat (List.length [0; 0]) < size_t_modulus) /\
  (Z.of_nat (List.length [0; 0]) < 2 + Z.of_nat (List.length [5]) < size_t_modulus /\
   blob_copy [0; 0] 2 [5] = Err (CheckFailed "offset + ss.size() <= self->size()")) /\
  (size_t_modulus <= size_t_modulus - 1 + Z.of_nat (List.length [5])
                  <= size_t_modulus + Z.of_nat (List.length [0; 0]) /\
   blob_copy [0; 0] (size_t_modulus - 1) [5] = Err (UndefinedBehaviour "memcpy beyond the blob")).
Proof.
  split; [unfold size_t_modulus; simpl; lia|].
  split; split; try (unfold size_t_modulus; simpl; lia).
  - apply (blob_copy_assert_wraps [0; 0] 2 [5]); unfold size_t_modulus; simpl; lia.
  - apply (blob_copy_assert_wraps [0; 0] (size_t_modulus - 1) [5]);
      unfold size_t_modulus; simpl; lia.
Defined.

Lemma blob_setitem_get_and_copy_witness :
  (0 <= 2 < Z.of_nat (List.length [0; 0; 0]) /\
   Z.of_nat (List.length [0; 0; 0]) < size_t_modulus) /\
  (exists data',
    blob_setitem [0; 0; 0] 2 (-9) = Ok data' /\
    blob_getitem data' 2 = Ok (-9) /\
    (forall j, 0 <= j -> j <> 2 -> blob_getitem data' j = blob_getitem [0; 0; 0] j) /\
    blob_copy [0; 0; 0] 2 [-9] = Ok data') /\
  blob_setitem [0; 0; 0] 2 200 =
    Err (PyTypeError "__setitem__(): incompatible function arguments").
Proof.
  split; [unfold size_t_modulus; simpl; lia|].
  split.
  - apply (proj2 (blob_setitem_get_and_copy [0; 0; 0] 2 (-9)
                    ltac:(simpl; lia) ltac:(unfold size_t_modulus; simpl; lia))).
    lia.
  - apply (proj1 (blob_setitem_get_and_copy [0; 0; 0] 2 200
                    ltac:(simpl; lia) ltac:(unfold size_t_modulus; simpl; lia))).
    lia.
Defined.

(** X7. A schema sent through a fresh archive with [<<] is received by [>>]
    whenever Arrow's serialisation is non-empty and read back as the same
    schema; a null schema adds no bytes, and the receiving side then keeps
    whatever schema it held. *)
Theorem archive_schema_round_trip
    (SerializeSchema : Schema -> result (list Byte.byte))
    (ReadSchema : list Byte.byte -> result Schema)
    (s : Schema) (bs : list Byte.byte) (target : option Schema) :
  SerializeSchema s = Ok bs -> bs <> [] -> ReadSchema bs = Ok s ->
  (exists archive,
     archive_schema_in SerializeSchema [] (Some s) = Ok archive /\
     archive_schema_out ReadSchema archive target = Ok (Some s)) /\
  (exists archive,
     archive_schema_in SerializeSchema [] None = Ok archive /\
     archive_schema_out ReadSchema archive target = Ok target).
Proof.
  intros Hser Hne Hread. split.
  - exists bs. unfold archive_schema_in, archive_schema_out.
    rewrite Hser. cbn [check_arrow rbind app]. split; [reflexivity|].
    destruct bs as [|b bs']; [contradiction|].
    rewrite Hread. reflexivity.
  - exists []. split; reflexivity.
Qed.

Lemma archive_schema_round_trip_witness :
  let ser : Schema -> result (list Byte.byte) := fun _ => Ok [Byte.x01] in
  let rd : list Byte.byte -> result Schema := fun _ => Ok (one_column int64) in
  (ser (one_column int64) = Ok [Byte.x01] /\ [Byte.x01] <> [] /\
   rd [Byte.x01] = Ok (one_column int64)) /\
  (exists archive,
     archive_schema_in ser [] (Some (one_column int64)) = Ok archive /\
     archive_schema_out rd archive (Some (one_column float64)) = Ok (Some (one_column int64))) /\
  (exists archive,
     archive_schema_in ser [] None = Ok archive /\
     archive_schema_out rd archive (Some (one_column float64)) = Ok (Some (one_column float64))).
Proof.
  intros ser rd.
  split; [split; [reflexivity | split; [discriminate | reflexivity]]|].
  apply (archive_schema_round_trip ser rd (one_column int64) [Byte.x01]);
    [reflexivity | discriminate | reflexivity].
Defined.

Section GatherStreams.

Variable GetParallelStream : ObjectID -> option (list StreamObject).
Variable VYObjectIDToString : ObjectID -> string.
Variable worker_id worker_num : Z.

Lemma gather_v_spec (vstreams : list ObjectID) (label_id : Z) (st : LoaderState) :
  let reads := map (readTableFromVineyard GetParallelStream VYObjectIDToString
                      worker_id worker_num) vstreams in
  (forall t, In (Ok t) reads -> meta_find LABEL_TAG (gathered_vertex_meta t) <> None) ->
  exists st',
    gather_v GetParallelStream VYObjectIDToString worker_id worker_num label_id vstreams st
      = (Ok (map (fun t => ReplaceSchemaMetadata t (gathered_vertex_meta t)) (ok_tables reads)),
         st') /\
    st' = set_vertex_labels (vertex_label_to_index_ st') (vertex_label_num_ st) st /\
    (forall name, (forall t, In (Ok t) reads ->
                     meta_find LABEL_TAG (gathered_vertex_meta t) <> Some name) ->
       map_find name (vertex_label_to_index_ st') = map_find name (vertex_label_to_index_ st)) /\
    (forall k t name,
       nth_error reads k = Some (Ok t) ->
       meta_find LABEL_TAG (gathered_vertex_meta t) = Some name ->
       (forall k' t', (k < k')%nat -> nth_error reads k' = Some (Ok t') ->
          meta_find LABEL_TAG (gathered_vertex_meta t') <> Some name) ->
       map_find name (vertex_label_to_index_ st') = Some (label_id + Z.of_nat k)).
Proof.
  revert label_id st.
  induction vstreams as [|v vs IH]; intros label_id st reads Hlab; subst reads.
  - exists st. split; [reflexivity|]. split; [destruct st; reflexivity|].
    split; [reflexivity|]. intros k t name Hk. destruct k; discriminate.
  - cbn [map] in *. cbn [gather_v].
    destruct (readTableFromVineyard GetParallelStream VYObjectIDToString worker_id worker_num v)
      as [t|e] eqn:Hr.
    + destruct (meta_find LABEL_TAG (gathered_vertex_meta t)) as [n0|] eqn:Hn0;
        [|exfalso; apply (Hlab t); [left; reflexivity | exact Hn0]].
      destruct (IH (label_id + 1)
                  (set_vertex_labels (map_set n0 label_id (vertex_label_to_index_ st))
                                     (vertex_label_num_ st) st))
        as [st' [Hrun [Hst [Hother Hpos]]]];
        [intros t' Ht'; apply Hlab; right; exact Ht'|].
      exists st'. unfold mbind, vy_assert_find, modify, mret. rewrite Hn0.
      cbn beta iota. rewrite Hrun. split; [reflexivity|].
      split; [rewrite Hst at 1; reflexivity|]. split.
      * intros name Hnot. rewrite Hother.
        -- cbn [vertex_label_to_index_ set_vertex_labels]. apply map_find_set_other.
           intros <-. apply (Hnot t); [left; reflexivity | exact Hn0].
        -- intros t' Ht'. apply Hnot. right. exact Ht'.
      * intros [|k] t0 name Hk Hname Hlater.
        -- cbn in Hk. injection Hk as <-. rewrite Hname in Hn0. injection Hn0 as ->.
           rewrite Hother.
           ++ cbn [vertex_label_to_index_ set_vertex_labels]. rewrite map_find_set_same.
              f_equal. lia.
           ++ intros t' Ht'. apply In_nth_error in Ht' as [k' Hk'].
              apply (Hlater (S k') t'); [lia | exact Hk'].
        -- rewrite (Hpos k t0 name Hk Hname).
           ++ f_equal. lia.
           ++ intros k' t' Hkk' Hk'. apply (Hlater (S k') t'); [lia | exact Hk'].
    + destruct (IH (label_id + 1) st) as [st' [Hrun [Hst [Hother Hpos]]]];
        [intros t' Ht'; apply Hlab; right; exact Ht'|].
      exists st'. rewrite Hrun. split; [reflexivity|]. split; [exact Hst|]. split.
      * intros name Hnot. apply Hother. intros t' Ht'. apply Hnot. right. exact Ht'.
      * intros [|k] t0 name Hk Hname Hlater; [discriminate|].
        rewrite (Hpos k t0 name Hk Hname).
        -- f_equal. lia.
        -- intros k' t' Hkk' Hk'. apply (Hlater (S k') t'); [lia | exact Hk'].
Qed.

Lemma gather_v_missing_label (vstreams : list ObjectID) (label_id : Z) (st : LoaderState)
    (t : Table) :
  In (Ok t) (map (readTableFromVineyard GetParallelStream VYObjectIDToString
                    worker_id worker_num) vstreams) ->
  meta_find LABEL_TAG (gathered_vertex_meta t) = None ->
  exists st',
    gather_v GetParallelStream VYObjectIDToString worker_id worker_num label_id vstreams st
      = (Err (CheckFailed "Metadata of input vertex files should contain label name"), st').
Proof.
  revert label_id st.
  induction vstreams as [|v vs IH]; intros label_id st Hin Hnone; [contradiction|].
  cbn [map gather_v] in *.
  destruct (readTableFromVineyard GetParallelStream VYObjectIDToString worker_id worker_num v)
    as [t0|e] eqn:Hr.
  - unfold mbind at 1, vy_assert_find.
    destruct (meta_find LABEL_TAG (gathered_vertex_meta t0)) as [n0|] eqn:Hn0.
    + destruct Hin as [Heq|Hin]; [injection Heq as ->; congruence|].
      unfold mbind at 1, mret, modify. cbn beta iota.
      destruct (IH (label_id + 1)
                  (set_vertex_labels (map_set n0 label_id (vertex_label_to_index_ st))
                                     (vertex_label_num_ st) st) Hin Hnone) as [st' Hrun].
      exists st'. unfold mbind at 1. rewrite Hrun. reflexivity.
    + exists st. reflexivity.
  - destruct Hin as [Heq|Hin]; [discriminate|].
    exact (IH (label_id + 1) st Hin Hnone).
Qed.

(** X9. When every stream read that succeeds carries a label,
    [gatherVTables] returns exactly the successfully read tables, in
    order, with the loader keys appended to their metadata, and changes
    only [vertex_label_to_index_]. A label maps to the position of its
    last successful stream among all streams, failed ones included, not
    to its position among the returned tables. Other labels keep their
    previous entries. *)
Theorem gatherVTables_skips_failed_streams (vstreams : list ObjectID) (st : LoaderState) :
  let reads := map (readTableFromVineyard GetParallelStream VYObjectIDToString
                      worker_id worker_num) vstreams in
  (forall t, In (Ok t) reads -> meta_find LABEL_TAG (gathered_vertex_meta t) <> None) ->
  exists st',
    gatherVTables GetParallelStream VYObjectIDToString worker_id worker_num vstreams st
      = (Ok (map (fun t => ReplaceSchemaMetadata t (gathered_vertex_meta t)) (ok_tables reads)),
         st') /\
    st' = set_vertex_labels (vertex_label_to_index_ st') (vertex_label_num_ st) st /\
    (forall name, (forall t, In (Ok t) reads ->
                     meta_find LABEL_TAG (gathered_vertex_meta t) <> Some name) ->
       map_find name (vertex_label_to_index_ st') = map_find name (vertex_label_to_index_ st)) /\
    (forall k t name,
       nth_error reads k = Some (Ok t) ->
       meta_find LABEL_TAG (gathered_vertex_meta t) = Some name ->
       (forall k' t', (k < k')%nat -> nth_error reads k' = Some (Ok t') ->
          meta_find LABEL_TAG (gathered_vertex_meta t') <> Some name) ->
       map_find name (vertex_label_to_index_ st') = Some (Z.of_nat k)).
Proof.
  intros reads Hlab.
  destruct (gather_v_spec vstreams 0 st Hlab) as [st' [Hrun [Hst [Hother Hpos]]]].
  exists st'. split; [exact Hrun|]. split; [exact Hst|]. split; [exact Hother|].
  intros k t name Hk Hname Hlater. rewrite (Hpos k t name Hk Hname Hlater). reflexivity.
Qed.

(** X10. If a stream is read but its table has no label, [gatherVTables]
    fails the assertion on the label, whatever the other streams hold. *)
Theorem gatherVTables_unlabelled_fails (vstreams : list ObjectID) (st : LoaderState)
    (t : Table) :
  In (Ok t) (map (readTableFromVineyard GetParallelStream VYObjectIDToString
                    worker_id worker_num) vstreams) ->
  meta_find LABEL_TAG (gathered_vertex_meta t) = None ->
  exists st',
    gatherVTables GetParallelStream VYObjectIDToString worker_id worker_num vstreams st
      = (Err (CheckFailed "Metadata of input vertex files should contain label name"), st').
Proof.
  intros Hin Hnone. exact (gather_v_missing_label vstreams 0 st t Hin Hnone).
Qed.

Lemma vy_assert_find_Ok k meta msg st v s1 :
  vy_assert_find k meta msg st = (Ok v, s1) -> meta_find k meta = Some v /\ s1 = st.
Proof.
  unfold vy_assert_find, mret, raise.
  destruct (meta_find k meta); intros H; inversion H; auto.
Qed.

Lemma vertex_label_at_uncaught_Ok name st v s1 :
  vertex_label_at_uncaught name st = (Ok v, s1) -> s1 = st.
Proof.
  unfold vertex_label_at_uncaught.
  destruct (map_find name (vertex_label_to_index_ st)); intros H; inversion H; auto.
Qed.

Lemma meta_find_app k m e :
  meta_find k (app m e) = match meta_find k m with Some v => Some v | None => meta_find k e end.
Proof.
  induction m as [|[k' v'] m IH]; [reflexivity|].
  cbn [app meta_find]. destruct (String.eqb k k'); [reflexivity | exact IH].
Qed.

Lemma gathered_edge_meta_label t n :
  meta_find LABEL_TAG (gathered_edge_meta t n) = meta_find LABEL_TAG (tmeta t).
Proof.
  unfold gathered_edge_meta. rewrite meta_find_app.
  destruct (meta_find LABEL_TAG (tmeta t)); reflexivity.
Qed.

(** Whether a successful read among [reads] is labelled [name]. *)
Lemma labelled_read_dec (reads : list (result Table)) (name : string) :
  (exists t, In (Ok t) reads /\ meta_find LABEL_TAG (tmeta t) = Some name) \/
  (forall t, In (Ok t) reads -> meta_find LABEL_TAG (tmeta t) <> Some name).
Proof.
  induction reads as [|r reads IH]; [right; intros t []|].
  destruct IH as [[t [Hin Ht]]|Hnone]; [left; exists t; split; [right|]; assumption|].
  destruct r as [t|e].
  - destruct (meta_find LABEL_TAG (tmeta t)) as [n|] eqn:Hn;
      [destruct (String.eqb_spec n name) as [->|Hne]|].
    + left. exists t. split; [left; reflexivity | exact Hn].
    + right. intros t' [Heq|Hin]; [injection Heq as <-; congruence | exact (Hnone t' Hin)].
    + right. intros t' [Heq|Hin]; [injection Heq as <-; congruence | exact (Hnone t' Hin)].
  - right. intros t' [Heq|Hin]; [discriminate | exact (Hnone t' Hin)].
Qed.

Lemma gather_e_subs_Ok (sub_label_num : nat) (label_id : Z) (esubstreams : list ObjectID)
    (st : LoaderState) (subtables : list Table) (st1 : LoaderState) :
  let reads := map (readTableFromVineyard GetParallelStream VYObjectIDToString
                      worker_id worker_num) esubstreams in
  gather_e_subs GetParallelStream VYObjectIDToString worker_id worker_num
    sub_label_num label_id esubstreams st = (Ok subtables, st1) ->
  map tcolumns subtables = map tcolumns (ok_tables reads) /\
  vertex_label_to_index_ st1 = vertex_label_to_index_ st /\
  (forall name, (forall t, In (Ok t) reads -> meta_find LABEL_TAG (tmeta t) <> Some name) ->
     map_find name (edge_label_to_index_ st1) = map_find name (edge_label_to_index_ st)) /\
  (forall t name, In (Ok t) reads -> meta_find LABEL_TAG (tmeta t) = Some name ->
     map_find name (edge_label_to_index_ st1) = Some label_id).
Proof.
  revert st subtables.
  induction esubstreams as [|v vs IH]; intros st subtables reads H; subst reads.
  - cbn in H. injection H as <- <-.
    split; [reflexivity|]. split; [reflexivity|]. split; [reflexivity|].
    intros t name [].
  - cbn [map gather_e_subs] in *.
    destruct (readTableFromVineyard GetParallelStream VYObjectIDToString worker_id worker_num v)
      as [t|e] eqn:Hr.
    + apply mbind_Ok_inv in H as [en [s1 [H1 H]]].
      apply vy_assert_find_Ok in H1 as [Hen ->].
      rewrite gathered_edge_meta_label in Hen.
      apply mbind_Ok_inv in H as [sn [s2 [H2 H]]]. apply vy_assert_find_Ok in H2 as [_ ->].
      apply mbind_Ok_inv in H as [dn [s3 [H3 H]]]. apply vy_assert_find_Ok in H3 as [_ ->].
      apply mbind_Ok_inv in H as [sid [s4 [H4 H]]]. apply vertex_label_at_uncaught_Ok in H4 as ->.
      apply mbind_Ok_inv in H as [did [s5 [H5 H]]]. apply vertex_label_at_uncaught_Ok in H5 as ->.
      apply mbind_Ok_inv in H as [u [s6 [H6 H]]].
      unfold add_edge_vertex_label, modify in H6. injection H6 as _ <-.
      apply mbind_Ok_inv in H as [u' [s7 [H7 H]]].
      unfold modify in H7. injection H7 as _ <-.
      apply mbind_Ok_inv in H as [tables [s8 [H8 H]]].
      unfold mret in H. injection H as <- <-.
      destruct (IH _ _ H8) as [Hcols [HV [Hother Hsame]]].
      cbn [set_edge_label_to_index set_edge_vertex_label edge_label_to_index_
           vertex_label_to_index_] in *.
      split; [cbn [map ok_tables]; rewrite Hcols; reflexivity|].
      split; [exact HV|]. split.
      * intros name Hnot. rewrite Hother.
        -- apply map_find_set_other. intros <-. apply (Hnot t); [left; reflexivity | exact Hen].
        -- intros t' Ht'. apply Hnot. right. exact Ht'.
      * intros t0 name Hin Hname.
        destruct (labelled_read_dec
                    (map (readTableFromVineyard GetParallelStream VYObjectIDToString
                            worker_id worker_num) vs) name) as [[t' [Hin' Ht']]|Hnone].
        -- exact (Hsame t' name Hin' Ht').
        -- rewrite (Hother name Hnone).
           destruct Hin as [Heq|Hin]; [|exfalso; exact (Hnone t0 Hin Hname)].
           injection Heq as ->. rewrite Hname in Hen. injection Hen as ->.
           apply map_find_set_same.
    + destruct (IH _ _ H) as [Hcols [HV [Hother Hsame]]].
      split; [exact Hcols|]. split; [exact HV|]. split.
      * intros name Hnot. apply Hother. intros t' Ht'. apply Hnot. right. exact Ht'.
      * intros t0 name [Heq|Hin] Hname; [discriminate | exact (Hsame t0 name Hin Hname)].
Qed.

Lemma gather_e_Ok (label_id : Z) (estreams : list (list ObjectID)) (st : LoaderState)
    (tables : list (list Table)) (st1 : LoaderState) :
  let reads := map (readTableFromVineyard GetParallelStream VYObjectIDToString
                      worker_id worker_num) in
  gather_e GetParallelStream VYObjectIDToString worker_id worker_num label_id estreams st
    = (Ok tables, st1) ->
  map (map tcolumns) tables =
    filter (fun l => negb (Nat.eqb (List.length l) 0))
           (map (fun g => map tcolumns (ok_tables (reads g))) estreams) /\
  vertex_label_to_index_ st1 = vertex_label_to_index_ st /\
  (forall name, (forall g t, In g estreams -> In (Ok t) (reads g) ->
                   meta_find LABEL_TAG (tmeta t) <> Some name) ->
     map_find name (edge_label_to_index_ st1) = map_find name (edge_label_to_index_ st)) /\
  (forall k g t name,
     nth_error estreams k = Some g -> In (Ok t) (reads g) ->
     meta_find LABEL_TAG (tmeta t) = Some name ->
     (forall k' g' t', (k < k')%nat -> nth_error estreams k' = Some g' ->
        In (Ok t') (reads g') -> meta_find LABEL_TAG (tmeta t') <> Some name) ->
     map_find name (edge_label_to_index_ st1) = Some (label_id + Z.of_nat k)).
Proof.
  revert label_id st tables.
  induction estreams as [|g gs IH]; intros label_id st tables reads H; subst reads.
  - cbn in H. injection H as <- <-.
    split; [reflexivity|]. split; [reflexivity|]. split; [reflexivity|].
    intros [|k] g t name Hk; discriminate.
  - cbn [gather_e] in H.
    apply mbind_Ok_inv in H as [subtables [s1 [H1 H]]].
    apply mbind_Ok_inv in H as [rest [s2 [H2 H]]].
    unfold mret in H. injection H as <- <-.
    destruct (gather_e_subs_Ok _ _ _ _ _ _ H1) as [Scols [SV [Sother Ssame]]].
    destruct (IH _ _ _ H2) as [Hcols [HV [Hother Hpos]]].
    split; [|split; [rewrite HV; exact SV|split]].
    + cbn [map filter]. rewrite <- Scols, <- Hcols.
      destruct subtables; reflexivity.
    + intros name Hnot. rewrite Hother, Sother.
      * reflexivity.
      * intros t Ht. apply (Hnot g t); [left; reflexivity | exact Ht].
      * intros g' t Hg' Ht. apply (Hnot g' t); [right; exact Hg' | exact Ht].
    + intros [|k] g0 t name Hk Hin Hname Hlater.
      * cbn in Hk. injection Hk as <-. rewrite Hother.
        -- rewrite (Ssame t name Hin Hname). f_equal. lia.
        -- intros g' t' Hg' Ht'. apply In_nth_error in Hg' as [k' Hk'].
           apply (Hlater (S k') g' t'); [lia | exact Hk' | exact Ht'].
      * rewrite (Hpos k g0 t name Hk Hin Hname).
        -- f_equal. lia.
        -- intros k' g' t' Hkk' Hk' Ht'. apply (Hlater (S k') g' t'); [lia | exact Hk' | exact Ht'].
Qed.

(** X11. When [gatherETables] succeeds, it returns, label by label, the
    tables of the sub-streams that could be read, in order, and drops a
    label none of whose sub-streams could be read. It leaves
    [vertex_label_to_index_] as it was. An edge label maps to the position
    of its last label group among all groups, dropped ones included. Edge
    labels read from no stream keep their previous entries. *)
Theorem gatherETables_groups (estreams : list (list ObjectID)) (st : LoaderState)
    (tables : list (list Table)) (st1 : LoaderState) :
  let reads := map (readTableFromVineyard GetParallelStream VYObjectIDToString
                      worker_id worker_num) in
  gatherETables GetParallelStream VYObjectIDToString worker_id worker_num estreams st
    = (Ok tables, st1) ->
  map (map tcolumns) tables =
    filter (fun l => negb (Nat.eqb (List.length l) 0))
           (map (fun g => map tcolumns (ok_tables (reads g))) estreams) /\
  vertex_label_to_index_ st1 = vertex_label_to_index_ st /\
  (forall name, (forall g t, In g estreams -> In (Ok t) (reads g) ->
                   meta_find LABEL_TAG (tmeta t) <> Some name) ->
     map_find name (edge_label_to_index_ st1) = map_find name (edge_label_to_index_ st)) /\
  (forall k g t name,
     nth_error estreams k = Some g -> In (Ok t) (reads g) ->
     meta_find LABEL_TAG (tmeta t) = Some name ->
     (forall k' g' t', (k < k')%nat -> nth_error estreams k' = Some g' ->
        In (Ok t') (reads g') -> meta_find LABEL_TAG (tmeta t') <> Some name) ->
     map_find name (edge_label_to_index_ st1) = Some (Z.of_nat k)).
Proof.
  intros reads H.
  destruct (gather_e_Ok 0 estreams st tables st1 H) as [Hcols [HV [Hother Hpos]]].
  split; [exact Hcols|]. split; [exact HV|]. split; [exact Hother|].
  intros k g t name Hk Hin Hname Hlater. exact (Hpos k g t name Hk Hin Hname Hlater).
Qed.

End GatherStreams.

Lemma gatherVTables_skips_failed_streams_witness :
  exists st',
    gatherVTables sample_parallel_stream (fun _ => "o") 0 1 [0; 1; 2] empty_state
      = (Ok [ReplaceSchemaMetadata double_table
               (gathered_vertex_meta (ReplaceSchemaMetadata double_table [("label", "person")]));
             ReplaceSchemaMetadata string_table
               (gathered_vertex_meta (ReplaceSchemaMetadata string_table [("label", "item")]))],
         st') /\
    map_find "person" (vertex_label_to_index_ st') = Some 1 /\
    map_find "item" (vertex_label_to_index_ st') = Some 2.
Proof.
  edestruct (gatherVTables_skips_failed_streams sample_parallel_stream (fun _ => "o") 0 1
               [0; 1; 2] empty_state) as [st' [Hrun [_ [_ Hpos]]]].
  { intros t Ht. vm_compute in Ht.
    destruct Ht as [H|[H|[H|[]]]]; try discriminate; injection H as <-; vm_compute;
      discriminate. }
  exists st'. split; [rewrite Hrun; reflexivity|]. split.
  - apply (Hpos 1%nat (ReplaceSchemaMetadata double_table [("label", "person")])).
    + reflexivity.
    + reflexivity.
    + intros k' t' Hk' H. destruct k' as [|[|[|[|k']]]]; try lia; vm_compute in H;
        try discriminate.
      injection H as <-. vm_compute. discriminate.
  - apply (Hpos 2%nat (ReplaceSchemaMetadata string_table [("label", "item")])).
    + reflexivity.
    + reflexivity.
    + intros k' t' Hk' H. destruct k' as [|[|[|[|k']]]]; try lia; vm_compute in H;
        discriminate.
Defined.

Lemma gatherVTables_unlabelled_fails_witness :
  exists st',
    gatherVTables sample_parallel_stream (fun _ => "o") 0 1 [1; 3] empty_state
      = (Err (CheckFailed "Metadata of input vertex files should contain label name"), st').
Proof.
  apply (gatherVTables_unlabelled_fails sample_parallel_stream (fun _ => "o") 0 1
           [1; 3] empty_state double_table); vm_compute; auto.
Defined.

Lemma gatherETables_groups_witness :
  exists tables st1,
    gatherETables sample_parallel_stream (fun _ => "o") 0 1 [[0]; [4; 0]]
      (set_vertex_labels [("item", 0); ("person", 1)] 2 empty_state) = (Ok tables, st1) /\
    map (map tcolumns) tables = [[tcolumns double_table]] /\
    map_find "buy" (edge_label_to_index_ st1) = Some 1.
Proof.
  destruct (gatherETables sample_parallel_stream (fun _ => "o") 0 1 [[0]; [4; 0]]
              (set_vertex_labels [("item", 0); ("person", 1)] 2 empty_state))
    as [[tables|e] st1] eqn:Hrun; [|vm_compute in Hrun; discriminate].
  destruct (gatherETables_groups sample_parallel_stream (fun _ => "o") 0 1 [[0]; [4; 0]]
              _ tables st1 Hrun) as [Hcols [_ [_ Hpos]]].
  exists tables, st1. split; [reflexivity|]. split; [rewrite Hcols; reflexivity|].
  apply (Hpos 1%nat [4; 0] (ReplaceSchemaMetadata double_table
            [("label", "buy"); ("src_label", "person"); ("dst_label", "item")]));
    [reflexivity | vm_compute; auto | reflexivity |].
  intros k' g' t' Hk' Hg'. destruct k' as [|[|k']]; [lia | lia | destruct k'; discriminate].
Defined.

Lemma acquire_run rp sp sub st t :
  acquired rp sp sub = Some t ->
  acquire rp sp sub st
    = (Ok t, log (CollSchema (sub_path sub)) (log (CollRead (sub_path sub)) st)).
Proof.
  unfold acquire, acquired, mbind, sync_gs_error.
  destruct (rp sub) as [tb|e]; [|discriminate].
  destruct (sp sub tb) as [t'|e]; intros H; [injection H as ->; reflexivity | discriminate].
Qed.

Lemma load_vertex_files_cons rp sp label_id sub rest st t name :
  acquired rp sp sub = Some t -> meta_find LABEL_TAG (sub_meta sub) = Some name ->
  load_vertex_files rp sp label_id (sub :: rest) st =
    let s0 := log (CollSchema (sub_path sub)) (log (CollRead (sub_path sub)) st) in
    match load_vertex_files rp sp (label_id + 1) rest
            (set_vertex_labels (map_set name label_id (vertex_label_to_index_ s0))
                               (vertex_label_num_ s0) s0) with
    | (Ok tables, s2) =>
        (Ok (ReplaceSchemaMetadata t (vertex_meta (sub_meta sub) name) :: tables), s2)
    | (Err e, s2) => (Err e, s2)
    end.
Proof.
  intros Ht Hn. cbn [load_vertex_files]. unfold mbind at 1. rewrite (acquire_run _ _ _ _ _ Ht).
  unfold mbind at 1, require_meta. rewrite Hn.
  unfold mret at 1, mbind at 1, modify. cbn beta iota zeta.
  unfold mbind. destruct (load_vertex_files _ _ _ _ _) as [[tables|e] s2]; reflexivity.
Qed.

Lemma load_vertex_files_spec rp sp (label_id : Z) (files : list SubSource) (st : LoaderState) :
  (forall sub, In sub files ->
     (exists t, acquired rp sp sub = Some t) /\
     (exists name, meta_find LABEL_TAG (sub_meta sub) = Some name)) ->
  exists tables st',
    load_vertex_files rp sp label_id files st = (Ok tables, st') /\
    Forall2 (fun sub table => exists t name,
               acquired rp sp sub = Some t /\ meta_find LABEL_TAG (sub_meta sub) = Some name /\
               table = ReplaceSchemaMetadata t (vertex_meta (sub_meta sub) name))
            files tables /\
    trace st' = app (trace st)
                    (flat_map (fun sub => [CollRead (sub_path sub); CollSchema (sub_path sub)])
                              files) /\
    (forall name, (forall sub, In sub files -> meta_find LABEL_TAG (sub_meta sub) <> Some name) ->
       map_find name (vertex_label_to_index_ st') = map_find name (vertex_label_to_index_ st)) /\
    (forall k sub name,
       nth_error files k = Some sub -> meta_find LABEL_TAG (sub_meta sub) = Some name ->
       (forall k' sub', (k < k')%nat -> nth_error files k' = Some sub' ->
          meta_find LABEL_TAG (sub_meta sub') <> Some name) ->
       map_find name (vertex_label_to_index_ st') = Some (label_id + Z.of_nat k)).
Proof.
  revert label_id st.
  induction files as [|sub rest IH]; intros label_id st Hok.
  - exists [], st. split; [reflexivity|]. split; [constructor|].
    split; [rewrite app_nil_r; reflexivity|]. split; [reflexivity|].
    intros k sub name Hk. destruct k; discriminate.
  - destruct (Hok sub (or_introl eq_refl)) as [[t Ht] [n Hn]].
    rewrite (load_vertex_files_cons _ _ _ _ _ _ _ _ Ht Hn). cbn zeta.
    destruct (IH (label_id + 1)
                (set_vertex_labels
                   (map_set n label_id
                      (vertex_label_to_index_
                         (log (CollSchema (sub_path sub)) (log (CollRead (sub_path sub)) st))))
                   (vertex_label_num_
                      (log (CollSchema (sub_path sub)) (log (CollRead (sub_path sub)) st)))
                   (log (CollSchema (sub_path sub)) (log (CollRead (sub_path sub)) st))))
      as [tables [st' [Hrun [Hall [Htr [Hother Hpos]]]]]];
      [intros sub' Hin; apply Hok; right; exact Hin|].
    rewrite Hrun. exists (ReplaceSchemaMetadata t (vertex_meta (sub_meta sub) n) :: tables), st'.
    split; [reflexivity|]. split; [constructor; [exists t, n; auto | exact Hall]|].
    split; [rewrite Htr; cbn; rewrite <- !app_assoc; reflexivity|]. split.
    + intros name Hnot. rewrite Hother.
      * cbn. apply map_find_set_other. intros <-. exact (Hnot sub (or_introl eq_refl) Hn).
      * intros sub' Hin. apply Hnot. right. exact Hin.
    + intros [|k] sub0 name Hk Hname Hlater.
      * cbn in Hk. injection Hk as <-. rewrite Hname in Hn. injection Hn as ->.
        rewrite Hother.
        -- cbn. rewrite map_find_set_same. f_equal. lia.
        -- intros sub' Hin. apply In_nth_error in Hin as [k' Hk'].
           apply (Hlater (S k') sub'); [lia | exact Hk'].
      * rewrite (Hpos k sub0 name Hk Hname).
        -- f_equal. lia.
        -- intros k' sub' Hkk' Hk'. apply (Hlater (S k') sub'); [lia | exact Hk'].
Qed.

Lemma load_vertex_files_unlabelled rp sp (label_id : Z) (files : list SubSource)
    (st : LoaderState) (k : nat) (sub : SubSource) :
  nth_error files k = Some sub -> meta_find LABEL_TAG (sub_meta sub) = None ->
  (forall j sub', (j <= k)%nat -> nth_error files j = Some sub' ->
     exists t, acquired rp sp sub' = Some t) ->
  (forall j sub', (j < k)%nat -> nth_error files j = Some sub' ->
     exists name, meta_find LABEL_TAG (sub_meta sub') = Some name) ->
  exists st',
    load_vertex_files rp sp label_id files st
      = (Err (GSError kIOError "Metadata of input vertex files should contain label name"), st') /\
    trace st' = app (trace st)
                    (flat_map (fun sub => [CollRead (sub_path sub); CollSchema (sub_path sub)])
                              (firstn (S k) files)).
Proof.
  revert label_id st k.
  induction files as [|sub0 rest IH]; intros label_id st k Hk Hnone Hacq Hlab;
    [destruct k; discriminate|].
  destruct (Hacq 0%nat sub0 ltac:(lia) eq_refl) as [t Ht].
  destruct k as [|k].
  - cbn in Hk. injection Hk as ->.
    exists (log (CollSchema (sub_path sub)) (log (CollRead (sub_path sub)) st)).
    cbn [load_vertex_files]. unfold mbind at 1. rewrite (acquire_run _ _ _ _ _ Ht).
    unfold mbind at 1, require_meta. rewrite Hnone. split; [reflexivity|].
    cbn. rewrite <- app_assoc. reflexivity.
  - destruct (Hlab 0%nat sub0 ltac:(lia) eq_refl) as [n Hn].
    rewrite (load_vertex_files_cons _ _ _ _ _ _ _ _ Ht Hn). cbn zeta.
    edestruct IH as [st' [Hrun Htr]].
    + exact Hk.
    + exact Hnone.
    + intros j sub' Hj Hj'. apply (Hacq (S j) sub'); [lia | exact Hj'].
    + intros j sub' Hj Hj'. apply (Hlab (S j) sub'); [lia | exact Hj'].
    + rewrite Hrun. exists st'. split; [reflexivity|].
      rewrite Htr. cbn. rewrite <- !app_assoc. reflexivity.
Qed.

(** X12. When every vertex file is read and its schema synchronised, and
    every file's metadata has a label, [loadVertexTables] returns one
    table per file, in order. Each table is the synchronised table with
    metadata [type], [ID_COLUMN], the file's own metadata and then the
    label again. Every file enters its read and its schema sync
    collectively, in file order. A label maps to the index of the last
    file carrying it; two files with the same label are not rejected.
    Other names keep their previous entries. *)
Theorem loadVertexTables_tables rp sp (files : list SubSource) (st : LoaderState) :
  (forall sub, In sub files ->
     (exists t, acquired rp sp sub = Some t) /\
     (exists name, meta_find LABEL_TAG (sub_meta sub) = Some name)) ->
  exists tables st',
    loadVertexTables rp sp files st = (Ok tables, st') /\
    Forall2 (fun sub table => exists t name,
               acquired rp sp sub = Some t /\ meta_find LABEL_TAG (sub_meta sub) = Some name /\
               table = ReplaceSchemaMetadata t (vertex_meta (sub_meta sub) name))
            files tables /\
    trace st' = app (trace st)
                    (flat_map (fun sub => [CollRead (sub_path sub); CollSchema (sub_path sub)])
                              files) /\
    (forall name, (forall sub, In sub files -> meta_find LABEL_TAG (sub_meta sub) <> Some name) ->
       map_find name (vertex_label_to_index_ st') = map_find name (vertex_label_to_index_ st)) /\
    (forall k sub name,
       nth_error files k = Some sub -> meta_find LABEL_TAG (sub_meta sub) = Some name ->
       (forall k' sub', (k < k')%nat -> nth_error files k' = Some sub' ->
          meta_find LABEL_TAG (sub_meta sub') <> Some name) ->
       map_find name (vertex_label_to_index_ st') = Some (Z.of_nat k)).
Proof.
  intros Hok.
  destruct (load_vertex_files_spec rp sp 0 files st Hok)
    as [tables [st' [Hrun [Hall [Htr [Hother Hpos]]]]]].
  exists tables, st'. split; [exact Hrun|]. split; [exact Hall|]. split; [exact Htr|].
  split; [exact Hother|].
  intros k sub name Hk Hname Hlater. exact (Hpos k sub name Hk Hname Hlater).
Qed.

(** X13. If the first vertex file without a label is read and its schema
    synchronised, like every file before it, and every earlier file has a
    label, then [loadVertexTables] fails with [kIOError]. It fails only
    after that file's read and schema sync have run collectively: the
    trace holds the collective steps of every file up to it. *)
Theorem loadVertexTables_unlabelled_file rp sp (files : list SubSource) (st : LoaderState)
    (k : nat) (sub : SubSource) :
  nth_error files k = Some sub -> meta_find LABEL_TAG (sub_meta sub) = None ->
  (forall j sub', (j <= k)%nat -> nth_error files j = Some sub' ->
     exists t, acquired rp sp sub' = Some t) ->
  (forall j sub', (j < k)%nat -> nth_error files j = Some sub' ->
     exists name, meta_find LABEL_TAG (sub_meta sub') = Some name) ->
  exists st',
    loadVertexTables rp sp files st
      = (Err (GSError kIOError "Metadata of input vertex files should contain label name"), st') /\
    trace st' = app (trace st)
                    (flat_map (fun sub => [CollRead (sub_path sub); CollSchema (sub_path sub)])
                              (firstn (S k) files)).
Proof.
  intros Hk Hnone Hacq Hlab. exact (load_vertex_files_unlabelled rp sp 0 files st k sub Hk Hnone Hacq Hlab).
Qed.

Lemma loadVertexTables_tables_witness :
  exists tables st',
    loadVertexTables read_sample sync_single
      [mkSub "/v/a" [("label", "person")]; mkSub "/v/b" [("label", "person")]] empty_state
      = (Ok tables, st') /\
    List.length tables = 2%nat /\
    trace st' = [CollRead "/v/a"; CollSchema "/v/a"; CollRead "/v/b"; CollSchema "/v/b"] /\
    map_find "person" (vertex_label_to_index_ st') = Some 1.
Proof.
  edestruct (loadVertexTables_tables read_sample sync_single
               [mkSub "/v/a" [("label", "person")]; mkSub "/v/b" [("label", "person")]]
               empty_state) as [tables [st' [Hrun [Hall [Htr [_ Hpos]]]]]].
  { intros sub [<-|[<-|[]]]; (split; [eexists; reflexivity | eexists; reflexivity]). }
  exists tables, st'. split; [exact Hrun|].
  split; [apply Forall2_length in Hall; rewrite <- Hall; reflexivity|].
  split; [rewrite Htr; reflexivity|].
  apply (Hpos 1%nat (mkSub "/v/b" [("label", "person")])); [reflexivity | reflexivity|].
  intros k' sub' Hk' H. destruct k' as [|[|k']]; [lia | lia | destruct k'; discriminate].
Defined.

Lemma loadVertexTables_unlabelled_file_witness :
  exists st',
    loadVertexTables read_sample sync_single
      [mkSub "/v/a" [("label", "person")]; mkSub "/v/b" []; mkSub "/v/c" []] empty_state
      = (Err (GSError kIOError "Metadata of input vertex files should contain label name"), st') /\
    trace st' = [CollRead "/v/a"; CollSchema "/v/a"; CollRead "/v/b"; CollSchema "/v/b"].
Proof.
  edestruct (loadVertexTables_unlabelled_file read_sample sync_single
               [mkSub "/v/a" [("label", "person")]; mkSub "/v/b" []; mkSub "/v/c" []]
               empty_state 1 (mkSub "/v/b" [])) as [st' [Hrun Htr]].
  - reflexivity.
  - reflexivity.
  - intros j sub' Hj Hj'. destruct j as [|[|j]]; [| |lia];
      injection Hj' as <-; eexists; reflexivity.
  - intros j sub' Hj Hj'. destruct j as [|j]; [|lia].
    injection Hj' as <-. eexists; reflexivity.
  - exists st'. split; [exact Hrun | rewrite Htr; reflexivity].
Defined.

(** X14. [swapColumn] returns a [Status] only for the index checks it
    makes itself: any status it returns is OK, or the Invalid status of
    [lhs_index > rhs_index], which leaves [*out] as it was; an Arrow error
    is never returned as a status. With [lhs_index < rhs_index], a negative
    [lhs_index] and a column [rhs_index] that exists, [AddColumn]'s Arrow
    error stops the process through [CHECK_ARROW_ERROR_AND_ASSIGN]. A
    [rhs_index] past the schema's fields is an out-of-range [field]
    access. *)
Theorem swapColumn_bad_indices :
  (forall (in_ : Table) (lhs rhs : Z) (out : option Table) st out',
     swapColumn in_ lhs rhs out = Ok (st, out') ->
     st = ArrowOK \/
     (st = ArrowInvalid "lhs index must smaller than rhs index." /\ rhs < lhs /\ out' = out)) /\
  (forall (in_ : Table) (lhs rhs : Z) (out : option Table),
     lhs < rhs ->
     (lhs < 0 -> 0 <= rhs -> rhs < Z.of_nat (List.length (tschema in_)) ->
      rhs < Z.of_nat (List.length (tcolumns in_)) ->
      swapColumn in_ lhs rhs out = Err (CheckFailed "CHECK_ARROW_ERROR_AND_ASSIGN")) /\
     (Z.of_nat (List.length (tschema in_)) <= rhs ->
      swapColumn in_ lhs rhs out
        = Err (UndefinedBehaviour "Schema::field / Table::column index out of range"))).
Proof.
  split.
  - intros in_ lhs rhs out st out' H. unfold swapColumn in H.
    destruct (lhs =? rhs); [injection H as <- _; left; reflexivity|].
    destruct (lhs >? rhs) eqn:Egt.
    + injection H as <- <-. right. rewrite Z.gtb_ltb, Z.ltb_lt in Egt. auto.
    + destruct (vec_at (tschema in_) rhs), (vec_at (tcolumns in_) rhs); try discriminate.
      destruct (check_arrow (RemoveColumn in_ rhs)); [|discriminate]. simpl in H.
      destruct (check_arrow (AddColumn _ _ _ _ _)); [|discriminate]. simpl in H.
      injection H as <- _. left; reflexivity.
  - intros in_ lhs rhs out Hlt. unfold swapColumn.
    rewrite (proj2 (Z.eqb_neq lhs rhs)) by lia.
    rewrite Z.gtb_ltb. replace (rhs <? lhs) with false by (symmetry; apply Z.ltb_ge; lia).
    split.
    + intros Hl Hr0 Hrs Hrc. unfold vec_at.
      replace (rhs <? 0) with false by (symmetry; apply Z.ltb_ge; lia).
      destruct (nth_error (tschema in_) (Z.to_nat rhs)) as [f|] eqn:Hf;
        [|apply nth_error_None in Hf; lia].
      destruct (nth_error (tcolumns in_) (Z.to_nat rhs)) as [c|] eqn:Hc;
        [|apply nth_error_None in Hc; lia].
      unfold RemoveColumn.
      replace ((0 <=? rhs) && (rhs <? Z.of_nat (List.length (tschema in_)))) with true
        by (symmetry; apply andb_true_iff; split; [apply Z.leb_le|apply Z.ltb_lt]; lia).
      cbn [check_arrow rbind]. unfold AddColumn.
      replace ((0 <=? lhs) && _) with false
        by (symmetry; apply andb_false_iff; left; apply Z.leb_gt; lia).
      destruct (negb _); [reflexivity|]. destruct (negb _); reflexivity.
    + intros Hr. unfold vec_at.
      destruct (rhs <? 0); [reflexivity|].
      replace (nth_error (tschema in_) (Z.to_nat rhs)) with (@None Field)
        by (symmetry; apply nth_error_None; lia).
      reflexivity.
Qed.

Lemma swapColumn_bad_indices_witness :
  swapColumn three_columns (-1) 2 None = Err (CheckFailed "CHECK_ARROW_ERROR_AND_ASSIGN") /\
  swapColumn three_columns 0 3 None
    = Err (UndefinedBehaviour "Schema::field / Table::column index out of range") /\
  (ArrowInvalid "lhs index must smaller than rhs index." = ArrowOK \/
   (ArrowInvalid "lhs index must smaller than rhs index." =
      ArrowInvalid "lhs index must smaller than rhs index." /\ 0 < 2 /\
    Some double_table = Some double_table)).
Proof.
  split; [|split].
  - apply (proj2 swapColumn_bad_indices three_columns (-1) 2 None);
      [lia | lia | lia | simpl; lia | simpl; lia].
  - apply (proj2 swapColumn_bad_indices three_columns 0 3 None); [lia | simpl; lia].
  - apply (proj1 swapColumn_bad_indices three_columns 2 0 (Some double_table)).
    reflexivity.
Defined.
